(** * Quote fetcher of [src/services/markets.ts]: model and properties

    The module fetches stock quotes (one by one or in paced batches) and
    crypto quotes, behind a rate-limit guard and a last-good cache.  The
    functions below follow the TypeScript source line by line:

    - JS numbers that carry prices are IEEE 754 doubles ([float]); clock
      readings ([Date.now()], integral milliseconds) and HTTP statuses are
      integers ([Z]);
    - the two module-level variables ([rateLimitedUntil],
      [lastSuccessfulResults]) live in a [World] that is threaded through
      every call, together with the positions reached in the environment's
      oracles (clock, transport, random source);
    - [throw], [try]/[catch] and the observable effects (requests sent,
      [onBatch] invocations, pauses, console lines) are those of a small
      monad [M] of the file's own.

    What the model takes for granted:

    - response bodies are JSON read at the interfaces the source declares
      ([YahooFinanceResponse], [CoinGeckoResponse]); every level the source
      dereferences or guards may be missing, and where the interface declares
      a [number] the body holds a number, [null], or nothing at all (JSON
      values of another type in that place are not modelled);
    - an [async] call is split at its first [await]; the calls of one
      [Promise.all] all run to that point before any reply is handled, and the
      replies are then handled in the order of the calls;
    - one invocation runs at a time (no second invocation writes the module
      variables in between), and the [onBatch] callback only observes what it
      is given. *)

From Stdlib Require Import ZArith Floats String Ascii DecimalString Lia.
From stdpp Require Import gmap strings list.

Local Open Scope Z_scope.

(** ** JS values used by the module *)

(** [Number]: truthiness of a double as [||] and [!] see it ([0], [-0] and
    [NaN] are falsy). *)
Definition truthy (x : float) : bool := negb (is_zero x || is_nan x).

(** What is found at run time where an interface declares a [number]: a
    number, [null], or [undefined] (the property is missing). *)
Inductive Value :=
| Number (x : float)
| Null
| Undefined.

(** [ToNumber], which [-] and [/] apply to their operands: [null] counts as
    [0] and [undefined] as [NaN]. *)
Definition to_number (v : Value) : float :=
  match v with
  | Number x => x
  | Null => 0
  | Undefined => nan
  end.

(** [a || b] where [a] is a number or missing and [b] is any value: [b]
    comes back as it is, truthy or not. *)
Definition or_else (a : option float) (b : Value) : Value :=
  match a with
  | Some x => if truthy x then Number x else b
  | None => b
  end.

(** [a || b] where both sides are numbers or missing. *)
Definition or_opt (a b : option float) : option float :=
  match a with
  | Some x => if truthy x then a else b
  | None => b
  end.

(** [String.prototype.includes]; [a ?? b] on a [number | null | undefined] is
    stdpp's [default b a] and needs no definition. *)
Fixpoint includes (needle s : string) : bool :=
  String.prefix needle s ||
  match s with
  | EmptyString => false
  | String _ s' => includes needle s'
  end.

(** Template-literal rendering of an integral number. *)
Definition render_int (n : Z) : string := NilZero.string_of_int (Z.to_int n).

(** A thrown value is identified with [String(e)], which is all its handlers
    ever read. *)
Definition Exn := string.

(** [String(new Error(message))]. *)
Definition new_Error (message : string) : Exn := String.append "Error: " message.

(** [String(e)] of the [TypeError] raised when property [prop] is read off
    [undefined] or [null] (V8's wording for [undefined]; engines differ in the
    wording, not in the absence of a status code from it). *)
Definition new_TypeError (prop : string) : Exn :=
  String.append "TypeError: Cannot read properties of undefined (reading '"
    (String.append prop "')").

#[global] Instance Value_is_Null_dec (v : Value) : Decision (v = Null).
Proof. destruct v; [right | left | right]; congruence. Defined.

(** ** Data model *)

Module Target.
(** An element of the [symbols] argument of [fetchMultipleStocks]. *)
Record t := mk { symbol : string; name : string; display : string }.
End Target.

Module MarketData.
(** [MarketData & { rateLimited?: boolean }].  [price] holds whatever line 69
  read or the [null] of the other returns; [None] is [null] for [change], and
  an absent property for [rateLimited]. *)
Record t := mk {
  symbol : string;
  name : string;
  display : string;
  price : Value;
  change : option float;
  rateLimited : option bool
}.
End MarketData.

Module CryptoInfo.
(** A value of [CRYPTO_MAP]. *)
Record t := mk { name : string; symbol : string }.
End CryptoInfo.

Module CryptoData.
Record t := mk { name : string; symbol : string; price : float; change : float }.
End CryptoData.

(** [YahooFinanceResponse].  Every level the source dereferences
    ([data.chart], [.result], [[0]], [.meta]) may be missing, which is [None]
    or the empty array.  [regularMarketPrice] is a number, [null] or missing.
    For the two previous-close fields [None] stands for a missing and for a
    [null] field alike: line 70 tests them for truthiness before it uses
    them, and both are falsy. *)
Record Meta := {
  regularMarketPrice : Value;
  chartPreviousClose : option float;
  previousClose : option float
}.

Record ChartResult := { meta : option Meta }.

Record Chart := { result : option (list ChartResult) }.

Record YahooFinanceResponse := { chart : option Chart }.

(** [CoinGeckoResponse]: an object keyed by coin id.  The source reads both
    fields through [??], so each may be [null] or absent. *)
Record Coin := { usd : option float; usd_24h_change : option float }.

Abbreviation CoinGeckoResponse := (gmap string Coin).

(** What [fetchWithProxy(url)] does, with the body read at type [A]: the call
    throws or its promise rejects, or a response arrives whose [json()] yields
    a value or throws. *)
Inductive JsonResult (A : Type) :=
| JsonThrows (e : Exn)
| JsonValue (a : A).
Arguments JsonThrows {A} e.
Arguments JsonValue {A} a.

Record Response (A : Type) := { status : Z; ok : bool; json : JsonResult A }.
Arguments status {A} _.
Arguments ok {A} _.
Arguments json {A} _.

Inductive Reply (A : Type) :=
| Rejects (e : Exn)
| Resolves (r : Response A).
Arguments Rejects {A} e.
Arguments Resolves {A} r.

(** The second argument of [fetchMultipleStocks].  [onBatch] records whether
    the caller supplied a callback; what it is called with is an [Event]. *)
Record Options := {
  batchSize : option Z;
  delayMs : option float;
  onBatch : bool
}.

(** Console output of the module. *)
Inductive LogLine :=
| WarnRateLimited (remaining : Z)
| WarnRateLimitDetected
| LogStopping (fetched : nat)
| LogRateLimitHit
| ErrorFailedFetch (symbol : string) (e : Exn)
| ErrorFailedCrypto (e : Exn).

(** Effects an observer of the module can see, in the order they happen. *)
Inductive Event :=
| Request (url : string)
| OnBatch (results : list MarketData.t)
| Delay (ms : float)
| Console (line : LogLine).

(** Imports from [@/config] and [@/utils], which are not part of the sources:
    [CRYPTO_MAP] is given as [Object.entries] lists it. *)
Record Config := {
  yahooFinance : string -> string;
  coingecko : string;
  CRYPTO_MAP : list (string * CryptoInfo.t);
  chunkArray : list Target.t -> Z -> list (list Target.t)
}.

(** The environment: the value of the [n]-th [Date.now()], the reply to the
    [n]-th [fetchWithProxy] call (by endpoint), the [n]-th [Math.random()]. *)
Record Env := {
  DateNow : nat -> Z;
  quoteReply : nat -> string -> Reply YahooFinanceResponse;
  cryptoReply : nat -> string -> Reply CoinGeckoResponse;
  MathRandom : nat -> float
}.

(** Module state and the positions reached in the oracles. *)
Record World := {
  rateLimitedUntil : Z;
  lastSuccessfulResults : list MarketData.t;
  clockReads : nat;
  requestsSent : nat;
  randomDraws : nat
}.

(** The state at module load. *)
Definition initial : World :=
  {| rateLimitedUntil := 0; lastSuccessfulResults := [];
     clockReads := 0; requestsSent := 0; randomDraws := 0 |}.

(** ** The monad of effects *)

Inductive Outcome (A : Type) :=
| Returned (a : A)
| Threw (e : Exn).
Arguments Returned {A} a.
Arguments Threw {A} e.

Definition M (A : Type) : Type := World -> Outcome A * World * list Event.

Definition ret {A} (a : A) : M A := fun w => (Returned a, w, []).

Definition throw {A} (e : Exn) : M A := fun w => (Threw e, w, []).

Definition bind {A B} (m : M A) (k : A -> M B) : M B :=
  fun w =>
    match m w with
    | (Returned a, w1, ev1) =>
        let '(r, w2, ev2) := k a w1 in (r, w2, ev1 ++ ev2)
    | (Threw e, w1, ev1) => (Threw e, w1, ev1)
    end.

Definition try_catch {A} (body : M A) (handler : Exn -> M A) : M A :=
  fun w =>
    match body w with
    | (Returned a, w1, ev1) => (Returned a, w1, ev1)
    | (Threw e, w1, ev1) =>
        let '(r, w2, ev2) := handler e w1 in (r, w2, ev1 ++ ev2)
    end.

Declare Scope js_scope.
Delimit Scope js_scope with js.
Notation "x <- m ;; k" := (bind m (fun x => k))
  (at level 100, m at next level, right associativity) : js_scope.
Notation "m ;;; k" := (bind m (fun _ => k))
  (at level 100, right associativity) : js_scope.
Notation "'try' b 'catch' h" := (try_catch b h)
  (at level 100, b at next level, h at next level) : js_scope.

Definition emit (e : Event) : M unit := fun w => (Returned tt, w, [e]).

Definition get {A} (field : World -> A) : M A := fun w => (Returned (field w), w, []).

Definition set_rateLimitedUntil (v : Z) : M unit :=
  fun w =>
    (Returned tt,
     {| rateLimitedUntil := v; lastSuccessfulResults := lastSuccessfulResults w;
        clockReads := clockReads w; requestsSent := requestsSent w;
        randomDraws := randomDraws w |}, []).

Definition set_lastSuccessfulResults (v : list MarketData.t) : M unit :=
  fun w =>
    (Returned tt,
     {| rateLimitedUntil := rateLimitedUntil w; lastSuccessfulResults := v;
        clockReads := clockReads w; requestsSent := requestsSent w;
        randomDraws := randomDraws w |}, []).

(** Sequential [map] in [M], left to right. *)
Fixpoint mapM {A B} (f : A -> M B) (l : list A) : M (list B) :=
  match l with
  | [] => ret []
  | a :: l' => (b <- f a ;; bs <- mapM f l' ;; ret (b :: bs))%js
  end.

(** ** The module's code *)

Section Markets.

Variable cfg : Config.
Variable env : Env.

Local Open Scope js_scope.

(** [Date.now()]: the next reading of the clock. *)
Definition Date_now : M Z :=
  fun w =>
    (Returned (DateNow env (clockReads w)),
     {| rateLimitedUntil := rateLimitedUntil w;
        lastSuccessfulResults := lastSuccessfulResults w;
        clockReads := S (clockReads w); requestsSent := requestsSent w;
        randomDraws := randomDraws w |}, []).

(** [Math.random()]: the next draw. *)
Definition Math_random : M float :=
  fun w =>
    (Returned (MathRandom env (randomDraws w)),
     {| rateLimitedUntil := rateLimitedUntil w;
        lastSuccessfulResults := lastSuccessfulResults w;
        clockReads := clockReads w; requestsSent := requestsSent w;
        randomDraws := S (randomDraws w) |}, []).

(** [fetchWithProxy(url)] up to its suspension: the request leaves and gets
    the next serial number. *)
Definition fetchWithProxy (url : string) : M nat :=
  fun w =>
    (Returned (requestsSent w),
     {| rateLimitedUntil := rateLimitedUntil w;
        lastSuccessfulResults := lastSuccessfulResults w;
        clockReads := clockReads w; requestsSent := S (requestsSent w);
        randomDraws := randomDraws w |}, [Request url]).

(** [await] on the pending request: a rejection is thrown at the [await]. *)
Definition await {A} (reply : Reply A) : M (Response A) :=
  match reply with
  | Rejects e => throw e
  | Resolves r => ret r
  end.

(** [await response.json()]. *)
Definition await_json {A} (response : Response A) : M A :=
  match json response with
  | JsonThrows e => throw e
  | JsonValue a => ret a
  end.

(** [Math.ceil(x / d)] on integers, [d] positive. *)
Definition ceil_div (x d : Z) : Z := - ((- x) / d).

Definition COOLDOWN_MS : Z := 5 * 60 * 1000.

Definition isRateLimited : M bool :=
  now <- Date_now ;;
  until <- get rateLimitedUntil ;;
  if now <? until then
    now' <- Date_now ;;
    let remaining := ceil_div (until - now') 1000 in
    emit (Console (WarnRateLimited remaining)) ;;;
    ret true
  else ret false.

Definition triggerRateLimit : M unit :=
  now <- Date_now ;;
  set_rateLimitedUntil (now + COOLDOWN_MS) ;;;
  emit (Console WarnRateLimitDetected).

(** [data.chart.result[0]?.meta]: reading [.result] or [[0]] off a missing
    value throws, [?.] does not. *)
Definition read_meta (data : YahooFinanceResponse) : M (option Meta) :=
  match chart data with
  | None => throw (new_TypeError "result")
  | Some c =>
      match result c with
      | None => throw (new_TypeError "0")
      | Some rs => ret (match rs with [] => None | r :: _ => meta r end)
      end
  end.

(** A call of [fetchStockQuote] that reached its first [await], or returned
    before it. *)
Inductive Flight :=
| Settled (q : MarketData.t)
| InFlight (id : nat) (url : string).

(** [fetchStockQuote] from its entry to the first suspension (lines 48-54). *)
Definition fetchStockQuote_start (symbol name display : string) : M Flight :=
  limited <- isRateLimited ;;
  if limited then
    ret (Settled {| MarketData.symbol := symbol; MarketData.name := name;
                    MarketData.display := display; MarketData.price := Null;
                    MarketData.change := None; MarketData.rateLimited := None |})
  else
    let url := yahooFinance cfg symbol in
    id <- fetchWithProxy url ;;
    ret (InFlight id url).

(** [fetchStockQuote] from the arrival of the reply on (lines 54-82); the
    [try] block spans the suspension. *)
Definition fetchStockQuote_resume (symbol name display : string) (f : Flight)
  : M MarketData.t :=
  match f with
  | Settled q => ret q
  | InFlight id url =>
      try (
        response <- await (quoteReply env id url) ;;
        if status response =? 429 then
          triggerRateLimit ;;;
          ret {| MarketData.symbol := symbol; MarketData.name := name;
                 MarketData.display := display; MarketData.price := Null;
                 MarketData.change := None; MarketData.rateLimited := Some true |}
        else if negb (ok response) then
          throw (new_Error (String.append "HTTP " (render_int (status response))))
        else
          data <- await_json response ;;
          meta <- read_meta data ;;
          match meta with
          | None =>
              ret {| MarketData.symbol := symbol; MarketData.name := name;
                     MarketData.display := display; MarketData.price := Null;
                     MarketData.change := None; MarketData.rateLimited := None |}
          | Some meta =>
              let price := regularMarketPrice meta in
              let prevClose :=
                or_else (or_opt (chartPreviousClose meta) (previousClose meta)) price in
              let change :=
                (((to_number price - to_number prevClose) / to_number prevClose)
                 * 100)%float in
              ret {| MarketData.symbol := symbol; MarketData.name := name;
                     MarketData.display := display; MarketData.price := price;
                     MarketData.change := Some change; MarketData.rateLimited := None |}
          end
      ) catch (fun msg =>
        if includes "429" msg then
          triggerRateLimit ;;;
          ret {| MarketData.symbol := symbol; MarketData.name := name;
                 MarketData.display := display; MarketData.price := Null;
                 MarketData.change := None; MarketData.rateLimited := Some true |}
        else
          emit (Console (ErrorFailedFetch symbol msg)) ;;;
          ret {| MarketData.symbol := symbol; MarketData.name := name;
                 MarketData.display := display; MarketData.price := Null;
                 MarketData.change := None; MarketData.rateLimited := None |})
  end.

Definition fetchStockQuote (symbol name display : string) : M MarketData.t :=
  f <- fetchStockQuote_start symbol name display ;;
  fetchStockQuote_resume symbol name display f.

(** [Promise.all(batch.map((s) => fetchStockQuote(s.symbol, s.name, s.display)))]:
    [map] runs every call up to its first suspension before any reply is
    handled; replies are then handled in the order of the calls, which is also
    the order of the results. *)
Definition Promise_all_quotes (batch : list Target.t) : M (list MarketData.t) :=
  flights <- mapM (fun s =>
    fetchStockQuote_start (Target.symbol s) (Target.name s) (Target.display s)) batch ;;
  mapM (fun sf =>
    fetchStockQuote_resume (Target.symbol sf.1) (Target.name sf.1)
      (Target.display sf.1) sf.2) (zip batch flights).

(** [r.price !== null], which [undefined] passes. *)
Definition visible (r : MarketData.t) : bool :=
  match MarketData.price r with Null => false | _ => true end.

(** [(r as { rateLimited?: boolean }).rateLimited], as a condition. *)
Definition flagged (r : MarketData.t) : bool :=
  match MarketData.rateLimited r with Some b => b | None => false end.

(** [options.onBatch?.(results)] *)
Definition call_onBatch (options : Options) (results : list MarketData.t) : M unit :=
  if onBatch options then emit (OnBatch results) else ret tt.

(** [delay(ms)]: the pause is seen as an event, and as later clock readings. *)
Definition delay (ms : float) : M unit := emit (Delay ms).

(** The [for] loop of [fetchMultipleStocks] (lines 109-136), entered at chunk
    [index] with [results] accumulated so far; [len] is [batches.length] and
    returning [results] without recursing is [break]. *)
Fixpoint fetchBatches (options : Options) (delayMs : float) (len : nat)
    (index : nat) (batches : list (list Target.t)) (results : list MarketData.t)
  : M (list MarketData.t) :=
  match batches with
  | [] => ret results
  | batch :: rest =>
      limited <- isRateLimited ;;
      if limited then
        emit (Console (LogStopping (length results))) ;;;
        ret results
      else
        batchResults <- Promise_all_quotes batch ;;
        let hitRateLimit := existsb flagged batchResults in
        if hitRateLimit then
          emit (Console LogRateLimitHit) ;;;
          ret results
        else
          let results := results ++ batchResults in
          let visibleResults := List.filter visible results in
          call_onBatch options visibleResults ;;;
          (if Z.of_nat index <? Z.of_nat len - 1 then
             r <- Math_random ;;
             let jitter := (r * 1000)%float in
             delay (delayMs + jitter)%float
           else ret tt) ;;;
          fetchBatches options delayMs len (S index) rest results
  end.

(** Lines 138-142: the end of [fetchMultipleStocks]. *)
Definition finish (results : list MarketData.t) : M (list MarketData.t) :=
  let successful := List.filter visible results in
  (if (0 <? length successful)%nat then set_lastSuccessfulResults successful
   else ret tt) ;;;
  ret successful.

Definition fetchMultipleStocks (symbols : list Target.t) (options : Options)
  : M (list MarketData.t) :=
  limited <- isRateLimited ;;
  if limited then
    cached <- get lastSuccessfulResults ;;
    if (0 <? length cached)%nat then
      call_onBatch options cached ;;;
      ret cached
    else ret []
  else
    let batchSize := default 2 (batchSize options) in
    let delayMs := default 3000%float (delayMs options) in
    let batches := chunkArray cfg symbols batchSize in
    results <- fetchBatches options delayMs (length batches) 0 batches [] ;;
    finish results.

Definition fetchCrypto : M (list CryptoData.t) :=
  try (
    id <- fetchWithProxy (coingecko cfg) ;;
    response <- await (cryptoReply env id (coingecko cfg)) ;;
    if negb (ok response) then
      throw (new_Error (String.append "HTTP " (render_int (status response))))
    else
      data <- await_json response ;;
      ret (map (fun entry : string * CryptoInfo.t =>
             let id := entry.1 in
             let info := entry.2 in
             let coinData := data !! id in
             {| CryptoData.name := CryptoInfo.name info;
                CryptoData.symbol := CryptoInfo.symbol info;
                CryptoData.price := default 0%float (coinData ≫= usd);
                CryptoData.change := default 0%float (coinData ≫= usd_24h_change) |})
           (CRYPTO_MAP cfg))
  ) catch (fun e =>
    emit (Console (ErrorFailedCrypto e)) ;;;
    ret []).

End Markets.

(** ** Concrete runs *)

(** Modelled from the spec: the body of [chunkArray] of [@/utils], which is
    missing from the sources.  "Partition the input into consecutive chunks of
    the configured batch size, preserving input order within and across
    chunks."  The spec says nothing of sizes below 1; no chunk is produced for
    them here.  [fuel] bounds the number of chunks, and the length of the list
    is enough. *)
Fixpoint chunks (fuel size : nat) (l : list Target.t) : list (list Target.t) :=
  match fuel with
  | O => []
  | S fuel' =>
      match l with
      | [] => []
      | _ :: _ => take size l :: chunks fuel' size (drop size l)
      end
  end.

(** Modelled from the spec: [chunkArray(array, size)], missing from the
    sources, as consecutive chunks of [size] elements. *)
Definition chunkArray_spec (l : list Target.t) (size : Z) : list (list Target.t) :=
  if size <? 1 then [] else chunks (length l) (Z.to_nat size) l.

(** A sample configuration. *)
Definition sample_config : Config :=
  {| yahooFinance := fun symbol => String.append "/api/yahoo-finance?symbol=" symbol;
     coingecko := "/api/coingecko";
     CRYPTO_MAP :=
       [("bitcoin", CryptoInfo.mk "Bitcoin" "BTC");
        ("ethereum", CryptoInfo.mk "Ethereum" "ETH");
        ("solana", CryptoInfo.mk "Solana" "SOL")];
     chunkArray := chunkArray_spec |}.

(** A body with one result whose metadata is [m]. *)
Definition body_of (m : Meta) : YahooFinanceResponse :=
  {| chart := Some {| result := Some [ {| meta := Some m |} ] |} |}.

(** A 200 response carrying [m]. *)
Definition quote_ok (m : Meta) : Reply YahooFinanceResponse :=
  Resolves {| status := 200; ok := true; json := JsonValue (body_of m) |}.

(** A response without body and with the given status. *)
Definition http_status {A} (code : Z) : Reply A :=
  Resolves {| status := code; ok := (200 <=? code) && (code <=? 299);
              json := JsonThrows "SyntaxError: Unexpected end of JSON input" |}.

(** A clock that starts at 1000 and advances by one millisecond per reading,
    a transport that answers every quote request with [reply] and refuses
    every crypto request. *)
Definition env_answering (reply : Reply YahooFinanceResponse) : Env :=
  {| DateNow := fun n => 1000 + Z.of_nat n;
     quoteReply := fun _ _ => reply;
     cryptoReply := fun _ _ => Rejects "TypeError: Failed to fetch";
     MathRandom := fun _ => 0.5%float |}.

(** The same clock, and a transport that answers the first two quote requests
    with prices, the third with a 429, the fourth with a price again and every
    later one with a 500. *)
Definition sample_env : Env :=
  {| DateNow := fun n => 1000 + Z.of_nat n;
     quoteReply := fun id _ =>
       match id with
       | 0%nat => quote_ok {| regularMarketPrice := Number 110; chartPreviousClose := Some 100%float;
                              previousClose := None |}
       | 1%nat => quote_ok {| regularMarketPrice := Number 50; chartPreviousClose := None;
                              previousClose := None |}
       | 2%nat => http_status 429
       | 3%nat => quote_ok {| regularMarketPrice := Number 6; chartPreviousClose := Some 0%float;
                              previousClose := Some 4%float |}
       | _ => http_status 500
       end;
     cryptoReply := fun _ _ => Rejects "TypeError: Failed to fetch";
     MathRandom := fun _ => 0.5%float |}.

Definition AAPL : Target.t := Target.mk "AAPL" "Apple" "AAPL".
Definition MSFT : Target.t := Target.mk "MSFT" "Microsoft" "MSFT".
Definition NVDA : Target.t := Target.mk "NVDA" "Nvidia" "NVDA".
Definition AMZN : Target.t := Target.mk "AMZN" "Amazon" "AMZN".
Definition META : Target.t := Target.mk "META" "Meta" "META".

(** A quote for [s] with a price and a change. *)
Definition priced (s : Target.t) (price change : float) : MarketData.t :=
  {| MarketData.symbol := Target.symbol s; MarketData.name := Target.name s;
     MarketData.display := Target.display s; MarketData.price := Number price;
     MarketData.change := Some change; MarketData.rateLimited := None |}.

(** The quote for [s] without price, change and flag. *)
Definition null_quote (s : Target.t) : MarketData.t :=
  {| MarketData.symbol := Target.symbol s; MarketData.name := Target.name s;
     MarketData.display := Target.display s; MarketData.price := Null;
     MarketData.change := None; MarketData.rateLimited := None |}.

(** The quote for [s] that reports a rate limit. *)
Definition limited_quote (s : Target.t) : MarketData.t :=
  {| MarketData.symbol := Target.symbol s; MarketData.name := Target.name s;
     MarketData.display := Target.display s; MarketData.price := Null;
     MarketData.change := None; MarketData.rateLimited := Some true |}.

(** Metadata with a chart-specific previous close of 100. *)
Definition meta_chart_close : Meta :=
  {| regularMarketPrice := Number 110; chartPreviousClose := Some 100%float;
     previousClose := None |}.

(** Metadata whose chart-specific previous close is present and zero. *)
Definition meta_zero_close : Meta :=
  {| regularMarketPrice := Number 110; chartPreviousClose := Some 0%float;
     previousClose := Some 100%float |}.

(** Metadata without a price: the body has no [regularMarketPrice]. *)
Definition meta_no_price : Meta :=
  {| regularMarketPrice := Undefined; chartPreviousClose := None; previousClose := None |}.

(** Metadata whose price is [null], with a chart-specific previous close. *)
Definition meta_null_price : Meta :=
  {| regularMarketPrice := Null; chartPreviousClose := Some 100%float;
     previousClose := None |}.

(** Metadata with a price of zero and no previous close. *)
Definition meta_worthless : Meta :=
  {| regularMarketPrice := Number 0; chartPreviousClose := None; previousClose := None |}.

(** The clock of [sample_env], and a transport that answers the first quote
    request with a price and every later one with a 500. *)
Definition mixed_env : Env :=
  {| DateNow := fun n => 1000 + Z.of_nat n;
     quoteReply := fun id _ =>
       match id with
       | 0%nat => quote_ok {| regularMarketPrice := Number 110;
                              chartPreviousClose := Some 100%float;
                              previousClose := None |}
       | _ => http_status 500
       end;
     cryptoReply := fun _ _ => Rejects "TypeError: Failed to fetch";
     MathRandom := fun _ => 0.5%float |}.

(** A clock that reads 0, then 299999 twice, then 300000. *)
Definition cooldown_env : Env :=
  {| DateNow := fun n =>
       match n with
       | 0%nat => 0
       | 1%nat | 2%nat => 299999
       | _ => 300000
       end;
     quoteReply := fun _ _ => http_status 500;
     cryptoReply := fun _ _ => Rejects "TypeError: Failed to fetch";
     MathRandom := fun _ => 0.5%float |}.

(** A world under cooldown, with one cached quote. *)
Definition sample_limited : World :=
  {| rateLimitedUntil := 400000; lastSuccessfulResults := [priced AAPL 110 10];
     clockReads := 0; requestsSent := 0; randomDraws := 0 |}.

(** Where a run over [sample_env] stands after the first of three chunks. *)
Definition after_first_chunk : World :=
  {| rateLimitedUntil := 0; lastSuccessfulResults := [];
     clockReads := 4; requestsSent := 2; randomDraws := 1 |}.

(** Default batch size and delay, with a callback. *)
Definition with_callback : Options :=
  {| batchSize := None; delayMs := None; onBatch := true |}.

(** ** Observations on a run *)

Definition outcome_of {A} (m : M A) (w : World) : Outcome A := (m w).1.1.

Definition world_after {A} (m : M A) (w : World) : World := (m w).1.2.

Definition events_of {A} (m : M A) (w : World) : list Event := (m w).2.

(** The arguments of the successive [onBatch] invocations. *)
Definition onBatchCalls (evs : list Event) : list (list MarketData.t) :=
  omap (fun e => match e with OnBatch r => Some r | _ => None end) evs.

(** The URLs handed to [fetchWithProxy], in order. *)
Definition requestsOf (evs : list Event) : list string :=
  omap (fun e => match e with Request url => Some url | _ => None end) evs.

(** The loop as [fetchMultipleStocks] enters it (lines 104-109): default
    options resolved, the symbols chunked, nothing accumulated yet. *)
Definition fetchAllBatches (cfg : Config) (env : Env) (symbols : list Target.t)
    (options : Options) : M (list MarketData.t) :=
  fetchBatches cfg env options (default 3000%float (delayMs options))
    (length (chunkArray cfg symbols (default 2 (batchSize options)))) 0
    (chunkArray cfg symbols (default 2 (batchSize options))) [].

(** Anything that can run against the module state: the three exported
    functions and the two operations of the guard. *)
Inductive Op :=
| CallIsRateLimited
| CallTriggerRateLimit
| CallFetchStockQuote (symbol name display : string)
| CallFetchMultipleStocks (symbols : list Target.t) (options : Options)
| CallFetchCrypto.

Definition perform (cfg : Config) (env : Env) (op : Op) : World -> World :=
  match op with
  | CallIsRateLimited => world_after (isRateLimited env)
  | CallTriggerRateLimit => world_after (triggerRateLimit env)
  | CallFetchStockQuote symbol name display =>
      world_after (fetchStockQuote cfg env symbol name display)
  | CallFetchMultipleStocks symbols options =>
      world_after (fetchMultipleStocks cfg env symbols options)
  | CallFetchCrypto => world_after (fetchCrypto cfg env)
  end.

Definition performAll (cfg : Config) (env : Env) (ops : list Op) (w : World) : World :=
  fold_left (fun w op => perform cfg env op w) ops w.

(** The reference value as the specification words it, where a field counts
    as soon as it is present; to be compared with what line 70 computes. *)
Definition reference_when_present (m : Meta) : Value :=
  match chartPreviousClose m with
  | Some c => Number c
  | None =>
      match previousClose m with
      | Some c => Number c
      | None => regularMarketPrice m
      end
  end.

(** A field that is present and truthy. *)
Definition usable (field : option float) : option float :=
  match field with
  | Some x => if truthy x then Some x else None
  | None => None
  end.

(** The reference value when only usable fields count. *)
Definition reference_of (m : Meta) : Value :=
  match usable (chartPreviousClose m) with
  | Some c => Number c
  | None =>
      match usable (previousClose m) with
      | Some c => Number c
      | None => regularMarketPrice m
      end
  end.

(** [(price - reference) / reference * 100] *)
Definition percent_change (price reference : float) : float :=
  (((price - reference) / reference) * 100)%float.

(** ** Vocabulary of the statements *)

(** [m] takes every world to one related to it by [R]. *)
Definition preserves (R : relation World) {A} (m : M A) : Prop :=
  forall w, R w (world_after m w).

(** The cache is the same in both worlds. *)
Definition same_cache : relation World :=
  fun w w' => lastSuccessfulResults w' = lastSuccessfulResults w.

(** From [w] to [w'] the clock was read zero or more times and the expiry is
    either untouched or one of these readings plus the cooldown window. *)
Definition advances (env : Env) : relation World :=
  fun w w' =>
    (clockReads w <= clockReads w')%nat /\
    (rateLimitedUntil w' = rateLimitedUntil w \/
     exists k, (clockReads w <= k < clockReads w')%nat /\
               rateLimitedUntil w' = DateNow env k + COOLDOWN_MS).

(** The stored expiry was set at an earlier or equal time (or is still the
    initial one, at a time within the window of the epoch). *)
Definition expiry_in_reach (env : Env) (w : World) : Prop :=
  rateLimitedUntil w <= DateNow env (clockReads w) + COOLDOWN_MS.

(** [m] never throws, and what it returns satisfies [Q]. *)
Definition yields {A} (m : M A) (Q : A -> Prop) : Prop :=
  forall w, exists a, outcome_of m w = Returned a /\ Q a.

(** What [m] returns, if it does not throw, satisfies [Q]. *)
Definition may_yield {A} (m : M A) (Q : A -> Prop) : Prop :=
  forall w, match outcome_of m w with Returned a => Q a | Threw _ => True end.

(** The body of the reply, when it parses down to metadata, carries a
    [regularMarketPrice] that is a number, as [YahooFinanceResponse]
    declares. *)
Definition declared_price (reply : Reply YahooFinanceResponse) : Prop :=
  match reply with
  | Rejects _ => True
  | Resolves r =>
      match json r with
      | JsonThrows _ => True
      | JsonValue data =>
          match chart data with
          | None => True
          | Some c =>
              match result c with
              | Some (cr :: _) =>
                  match meta cr with
                  | Some m => exists p, regularMarketPrice m = Number p
                  | None => True
                  end
              | _ => True
              end
          end
      end
  end.

(** Every reply of the transport is as declared. *)
Definition declared (env : Env) : Prop :=
  forall id url, declared_price (quoteReply env id url).

(** Every event [m] emits satisfies [P]. *)
Definition emits (P : Event -> Prop) {A} (m : M A) : Prop :=
  forall w, Forall P (events_of m w).

(** Anything but an invocation of [onBatch]. *)
Definition not_onBatch (e : Event) : Prop :=
  match e with OnBatch _ => False | _ => True end.

(** Each list extends the one before it, and the first extends [base]. *)
Fixpoint growing_from (base : list MarketData.t) (calls : list (list MarketData.t)) : Prop :=
  match calls with
  | [] => True
  | c :: cs => base `prefix_of` c /\ growing_from c cs
  end.

(** Whether [fetchStockQuote] takes a reply for a rate-limit signal: a status
    of 429, or a failure whose [String(e)] contains "429" (the error thrown for
    a response that is not ok, a rejection, a body that fails to parse). *)
Definition signals_rate_limit (reply : Reply YahooFinanceResponse) : bool :=
  match reply with
  | Rejects e => includes "429" e
  | Resolves r =>
      (status r =? 429) ||
      (if ok r then
         match json r with
         | JsonThrows e => includes "429" e
         | JsonValue _ => false
         end
       else includes "429" (new_Error (String.append "HTTP " (render_int (status r)))))
  end.

(** The URL requested for a target. *)
Definition url_of (cfg : Config) (s : Target.t) : string :=
  yahooFinance cfg (Target.symbol s).

(** The target a quote answers. *)
Definition target_of (q : MarketData.t) : Target.t :=
  Target.mk (MarketData.symbol q) (MarketData.name q) (MarketData.display q).

(** A quote that passes [r.price !== null]: its price is not [null], its
    change is a number and it carries no flag; the price is a number when the
    body it was read from is as declared ([typed]). *)
Definition kept_quote (typed : Prop) (q : MarketData.t) : Prop :=
  MarketData.price q <> Null /\
  (exists c, MarketData.change q = Some c) /\
  MarketData.rateLimited q = None /\
  (typed -> exists p, MarketData.price q = Number p).

(** A quote as [fetchStockQuote] builds them: one that passes the filter, or
    one with a [null] price, whose change is [null] too when the body was as
    declared. *)
Definition sound_quote (typed : Prop) (q : MarketData.t) : Prop :=
  (MarketData.price q = Null /\ (typed -> MarketData.change q = None)) \/
  kept_quote typed q.

(** Anything but a request. *)
Definition not_request (e : Event) : Prop :=
  match e with Request _ => False | _ => True end.

(** Anything but a pause. *)
Definition not_delay (e : Event) : Prop :=
  match e with Delay _ => False | _ => True end.

(** The durations of the successive pauses. *)
Definition delaysOf (evs : list Event) : list float :=
  omap (fun e => match e with Delay ms => Some ms | _ => None end) evs.

(** The cache holds only quotes that pass the filter. *)
Definition cache_clean (typed : Prop) (w : World) : Prop :=
  Forall (kept_quote typed) (lastSuccessfulResults w).

(** What handling the reply to request [id] for [url] does: the quote [q]
    returned for [symbol], the world and the events it leaves. *)
Definition settles (env : Env) (symbol name display : string) (id : nat) (url : string)
    (w : World) (q : MarketData.t) (w' : World) (ev : list Event) : Prop :=
  target_of q = Target.mk symbol name display /\
  sound_quote (declared_price (quoteReply env id url)) q /\
  MarketData.rateLimited q =
    (if signals_rate_limit (quoteReply env id url) then Some true else None) /\
  (signals_rate_limit (quoteReply env id url) = true ->
   MarketData.price q = Null /\ MarketData.change q = None) /\
  rateLimitedUntil w' =
    (if signals_rate_limit (quoteReply env id url)
     then DateNow env (clockReads w) + COOLDOWN_MS
     else rateLimitedUntil w) /\
  clockReads w' =
    (if signals_rate_limit (quoteReply env id url)
     then S (clockReads w) else clockReads w) /\
  lastSuccessfulResults w' = lastSuccessfulResults w /\
  requestsSent w' = requestsSent w /\
  randomDraws w' = randomDraws w /\
  Forall not_request ev /\ Forall not_onBatch ev /\ Forall not_delay ev.

(** A console line. *)
Definition console_only (e : Event) : Prop :=
  match e with Console _ => True | _ => False end.

(** The requests [m] sends are, in order, among [urls]. *)
Definition requests_within (urls : list string) {A} (m : M A) : Prop :=
  forall w, requestsOf (events_of m w) `sublist_of` urls.

(** [q] is a sound quote for the target [s]. *)
Definition quote_answers (typed : Prop) (s : Target.t) (q : MarketData.t) : Prop :=
  target_of q = s /\ sound_quote typed q.

Definition flight_answers (typed : Prop) (s : Target.t) (f : Flight) : Prop :=
  match f with
  | Settled q => quote_answers typed s q
  | InFlight _ _ => True
  end.

(** What the loop over [batches] may return when entered with [results]:
    [results] followed by sound quotes for the symbols of the first chunks,
    symbol by symbol. *)
Definition accumulates (typed : Prop) (batches : list (list Target.t))
    (results r : list MarketData.t) : Prop :=
  exists more,
    r = results ++ more /\
    map target_of more `prefix_of` concat batches /\
    Forall (sound_quote typed) more.

(** A pause, if [e] is one, lasts [base] plus a thousand times some draw of
    the random source. *)
Definition pause_for (env : Env) (base : float) (e : Event) : Prop :=
  match e with
  | Delay ms => exists n, ms = (base + MathRandom env n * 1000)%float
  | _ => True
  end.

(** [m] pauses at most [n] times, each time for [base] plus jitter. *)
Definition pauses_within (env : Env) (base : float) (n : nat) {A} (m : M A) : Prop :=
  forall w,
    (length (delaysOf (events_of m w)) <= n)%nat /\
    Forall (pause_for env base) (events_of m w).

(** Events that are neither requests, nor callbacks, nor pauses. *)
Definition incidental (ev : list Event) : Prop :=
  Forall not_request ev /\ Forall not_onBatch ev /\ Forall not_delay ev.

(** Anything but the line logged when the guard stops the loop before a
    chunk (line 112). *)
Definition not_stopping (e : Event) : Prop :=
  match e with Console (LogStopping _) => False | _ => True end.

(** The expiry is the same in both worlds. *)
Definition same_guard : relation World :=
  fun w w' => rateLimitedUntil w' = rateLimitedUntil w.

(** The clock was not read backwards: the second world is no earlier. *)
Definition later : relation World :=
  fun w w' => (clockReads w <= clockReads w')%nat.

(** From [w] on, no clock reading falls before the stored expiry. *)
Definition stays_clear (env : Env) (w : World) : Prop :=
  forall n, (clockReads w <= n)%nat -> rateLimitedUntil w <= DateNow env n.

(** The world [w], when the next request to leave is the [id]-th. *)
Definition at_request (id : nat) (w : World) : World :=
  {| rateLimitedUntil := rateLimitedUntil w;
     lastSuccessfulResults := lastSuccessfulResults w;
     clockReads := clockReads w; requestsSent := id; randomDraws := randomDraws w |}.

(** [q] is what a call of [fetchStockQuote] for [s] alone returns from [w]
    when its request is the [id]-th. *)
Definition lone_quote (cfg : Config) (env : Env) (w : World) (s : Target.t) (id : nat)
    (q : MarketData.t) : Prop :=
  outcome_of (fetchStockQuote cfg env (Target.symbol s) (Target.name s) (Target.display s))
    (at_request id w) = Returned q.

(** [qs] are the quotes of the symbols [l], one lone call each, the requests
    numbered from [id] on. *)
Fixpoint lone_quotes (cfg : Config) (env : Env) (w : World) (id : nat)
    (l : list Target.t) (qs : list MarketData.t) : Prop :=
  match l, qs with
  | [], [] => True
  | s :: l', q :: qs' => lone_quote cfg env w s id q /\ lone_quotes cfg env w (S id) l' qs'
  | _, _ => False
  end.

(** The calls of a chunk once every request has left, the first being the
    [id]-th. *)
Fixpoint flights_from (cfg : Config) (id : nat) (batch : list Target.t) : list Flight :=
  match batch with
  | [] => []
  | s :: batch' => InFlight id (url_of cfg s) :: flights_from cfg (S id) batch'
  end.

(** The requests and pauses of a run, in the order they happen: [Some url]
    is a request, [None] a pause. *)
Definition scheduleOf (evs : list Event) : list (option string) :=
  omap (fun e => match e with
                 | Request url => Some (Some url)
                 | Delay _ => Some None
                 | _ => None
                 end) evs.

(** The requests of the chunks, chunk after chunk, with one pause between
    two chunks and none after the last. *)
Fixpoint paced (chunks : list (list string)) : list (option string) :=
  match chunks with
  | [] => []
  | c :: rest =>
      map Some c ++ match rest with [] => [] | _ :: _ => None :: paced rest end
  end.

(** The requests of the chunks, each chunk followed by a pause. *)
Definition then_pause (chunks : list (list string)) : list (option string) :=
  concat (map (fun c => map Some c ++ [None]) chunks).

(** What [onBatch] is given while the chunks [chunks] go through one after
    the other and bring [results]: after each chunk, the results so far whose
    price is not [null]. *)
Definition reports (chunks : list (list Target.t)) (results : list MarketData.t)
  : list (list MarketData.t) :=
  map (fun k => filter (fun q => MarketData.price q <> Null)
                  (take (length (concat (take (S k) chunks))) results))
      (seq 0 (length chunks)).

(** Neither a request nor a pause. *)
Definition unscheduled (e : Event) : Prop :=
  match e with Request _ | Delay _ => False | _ => True end.

(** * Properties *)

(** ** Running the monad *)

Lemma bind_Returned {A B} (m : M A) (k : A -> M B) w a w1 ev1 :
  m w = (Returned a, w1, ev1) ->
  bind m k w = (outcome_of (k a) w1, world_after (k a) w1, ev1 ++ events_of (k a) w1).
Proof.
  intros Hm. unfold bind, outcome_of, world_after, events_of. rewrite Hm.
  destruct (k a w1) as [[r w2] ev2]. reflexivity.
Qed.

Lemma run_eta {A} (m : M A) w : m w = (outcome_of m w, world_after m w, events_of m w).
Proof. unfold outcome_of, world_after, events_of. destruct (m w) as [[r w1] ev1]. reflexivity. Qed.

(** ** Relations between the worlds before and after a computation *)

Section Preserves.

Context (R : relation World) `{!PreOrder R}.

Lemma preserves_ret {A} (a : A) : preserves R (ret a).
Proof. intros w. reflexivity. Qed.

Lemma preserves_throw {A} (e : Exn) : preserves R (@throw A e).
Proof. intros w. reflexivity. Qed.

Lemma preserves_emit (e : Event) : preserves R (emit e).
Proof. intros w. reflexivity. Qed.

Lemma preserves_get {A} (field : World -> A) : preserves R (get field).
Proof. intros w. reflexivity. Qed.

Lemma preserves_bind {A B} (m : M A) (k : A -> M B) :
  preserves R m -> (forall a, preserves R (k a)) -> preserves R (bind m k).
Proof.
  intros Hm Hk w. specialize (Hm w). unfold world_after, bind in *.
  destruct (m w) as [[[a|e] w1] ev1]; simpl in *; [|assumption].
  specialize (Hk a w1). unfold world_after in Hk.
  destruct (k a w1) as [[r w2] ev2]; simpl in *. by etrans.
Qed.

Lemma preserves_try {A} (body : M A) (handler : Exn -> M A) :
  preserves R body -> (forall e, preserves R (handler e)) -> preserves R (try_catch body handler).
Proof.
  intros Hm Hk w. specialize (Hm w). unfold world_after, try_catch in *.
  destruct (body w) as [[[a|e] w1] ev1]; simpl in *; [assumption|].
  specialize (Hk e w1). unfold world_after in Hk.
  destruct (handler e w1) as [[r w2] ev2]; simpl in *. by etrans.
Qed.

Lemma preserves_mapM {A B} (f : A -> M B) (l : list A) :
  (forall a, preserves R (f a)) -> preserves R (mapM f l).
Proof.
  intros Hf. induction l as [|a l IH]; simpl.
  - apply preserves_ret.
  - apply preserves_bind; [apply Hf|]. intros b.
    apply preserves_bind; [apply IH|]. intros bs. apply preserves_ret.
Qed.

Lemma preserves_await {A} (reply : Reply A) : preserves R (await reply).
Proof. destruct reply; [apply preserves_throw | apply preserves_ret]. Qed.

Lemma preserves_await_json {A} (response : Response A) : preserves R (await_json response).
Proof.
  unfold await_json. destruct (json response); [apply preserves_throw | apply preserves_ret].
Qed.

Lemma preserves_read_meta data : preserves R (read_meta data).
Proof.
  unfold read_meta. destruct (chart data) as [c|]; [|apply preserves_throw].
  destruct (result c); [apply preserves_ret | apply preserves_throw].
Qed.

Lemma preserves_call_onBatch options results : preserves R (call_onBatch options results).
Proof.
  unfold call_onBatch. destruct (onBatch options); [apply preserves_emit | apply preserves_ret].
Qed.

End Preserves.

(** Structural steps shared by the proofs that a relation is preserved. *)
Create HintDb frame.

Ltac preserves_step :=
  lazymatch goal with
  | |- preserves _ (ret _) => apply preserves_ret; apply _
  | |- preserves _ (throw _) => apply preserves_throw; apply _
  | |- preserves _ (emit _) => apply preserves_emit; apply _
  | |- preserves _ (delay _) => apply preserves_emit; apply _
  | |- preserves _ (get _) => apply preserves_get; apply _
  | |- preserves _ (await _) => apply preserves_await; apply _
  | |- preserves _ (await_json _) => apply preserves_await_json; apply _
  | |- preserves _ (read_meta _) => apply preserves_read_meta; apply _
  | |- preserves _ (call_onBatch _ _) => apply preserves_call_onBatch; apply _
  | |- preserves _ (bind _ _) => apply preserves_bind; [apply _ | | intros ?]
  | |- preserves _ (try_catch _ _) => apply preserves_try; [apply _ | | intros ?]
  | |- preserves _ (mapM _ _) => apply preserves_mapM; [apply _ | intros ?]
  | |- preserves _ (if ?b then _ else _) => destruct b
  | |- preserves _ (match ?x with _ => _ end) => destruct x
  | |- preserves _ _ => solve [auto with frame]
  end.

Ltac preserves_structure := cbv zeta; repeat (preserves_step; cbv zeta).

(** *** The cache is written at the end of [fetchMultipleStocks] only *)

#[local] Instance same_cache_preorder : PreOrder same_cache.
Proof. split; [intros w; reflexivity | intros w1 w2 w3 H1 H2; unfold same_cache in *; congruence]. Qed.

Lemma cache_Date_now env : preserves same_cache (Date_now env).
Proof. intros w. reflexivity. Qed.

Lemma cache_Math_random env : preserves same_cache (Math_random env).
Proof. intros w. reflexivity. Qed.

Lemma cache_fetchWithProxy url : preserves same_cache (fetchWithProxy url).
Proof. intros w. reflexivity. Qed.

Lemma cache_set_rateLimitedUntil v : preserves same_cache (set_rateLimitedUntil v).
Proof. intros w. reflexivity. Qed.

#[local] Hint Resolve cache_Date_now cache_Math_random cache_fetchWithProxy
  cache_set_rateLimitedUntil : frame.

Lemma cache_isRateLimited env : preserves same_cache (isRateLimited env).
Proof. unfold isRateLimited. preserves_structure. Qed.

Lemma cache_triggerRateLimit env : preserves same_cache (triggerRateLimit env).
Proof. unfold triggerRateLimit. preserves_structure. Qed.

#[local] Hint Resolve cache_isRateLimited cache_triggerRateLimit : frame.

Lemma cache_fetchStockQuote_start cfg env symbol name display :
  preserves same_cache (fetchStockQuote_start cfg env symbol name display).
Proof. unfold fetchStockQuote_start. preserves_structure. Qed.

Lemma cache_fetchStockQuote_resume env symbol name display f :
  preserves same_cache (fetchStockQuote_resume env symbol name display f).
Proof. unfold fetchStockQuote_resume. preserves_structure. Qed.

#[local] Hint Resolve cache_fetchStockQuote_start cache_fetchStockQuote_resume : frame.

Lemma cache_Promise_all_quotes cfg env batch :
  preserves same_cache (Promise_all_quotes cfg env batch).
Proof. unfold Promise_all_quotes. preserves_structure. Qed.

#[local] Hint Resolve cache_Promise_all_quotes : frame.

Lemma cache_fetchBatches cfg env options delayMs len batches :
  forall index results,
    preserves same_cache (fetchBatches cfg env options delayMs len index batches results).
Proof.
  induction batches as [|batch rest IH]; intros index results; simpl.
  - preserves_structure.
  - preserves_structure; apply IH.
Qed.

(** *** The expiry is written by [triggerRateLimit] only *)

#[local] Instance advances_preorder env : PreOrder (advances env).
Proof.
  split.
  - intros w. split; [lia | by left].
  - intros w1 w2 w3 [Hc1 H1] [Hc2 H2]. split; [lia|].
    destruct H2 as [H2 | (k & Hk & H2)].
    + rewrite H2. destruct H1 as [H1 | (k & Hk & H1)]; [by left | right].
      exists k. split; [lia | done].
    + right. exists k. split; [lia | done].
Qed.

Lemma advances_Date_now env : preserves (advances env) (Date_now env).
Proof. intros w. split; simpl; [lia | by left]. Qed.

Lemma advances_Math_random env : preserves (advances env) (Math_random env).
Proof. intros w. split; simpl; [lia | by left]. Qed.

Lemma advances_fetchWithProxy env url : preserves (advances env) (fetchWithProxy url).
Proof. intros w. split; simpl; [lia | by left]. Qed.

Lemma advances_set_lastSuccessfulResults env v :
  preserves (advances env) (set_lastSuccessfulResults v).
Proof. intros w. split; simpl; [lia | by left]. Qed.

Lemma advances_triggerRateLimit env : preserves (advances env) (triggerRateLimit env).
Proof.
  intros w. split; simpl; [lia | right].
  exists (clockReads w). split; [lia | reflexivity].
Qed.

#[local] Hint Resolve advances_Date_now advances_Math_random advances_fetchWithProxy
  advances_set_lastSuccessfulResults advances_triggerRateLimit : frame.

Lemma advances_isRateLimited env : preserves (advances env) (isRateLimited env).
Proof. unfold isRateLimited. preserves_structure. Qed.

#[local] Hint Resolve advances_isRateLimited : frame.

Lemma advances_fetchStockQuote_start cfg env symbol name display :
  preserves (advances env) (fetchStockQuote_start cfg env symbol name display).
Proof. unfold fetchStockQuote_start. preserves_structure. Qed.

Lemma advances_fetchStockQuote_resume env symbol name display f :
  preserves (advances env) (fetchStockQuote_resume env symbol name display f).
Proof. unfold fetchStockQuote_resume. preserves_structure. Qed.

#[local] Hint Resolve advances_fetchStockQuote_start advances_fetchStockQuote_resume : frame.

Lemma advances_fetchStockQuote cfg env symbol name display :
  preserves (advances env) (fetchStockQuote cfg env symbol name display).
Proof. unfold fetchStockQuote. preserves_structure. Qed.

Lemma advances_Promise_all_quotes cfg env batch :
  preserves (advances env) (Promise_all_quotes cfg env batch).
Proof. unfold Promise_all_quotes. preserves_structure. Qed.

#[local] Hint Resolve advances_Promise_all_quotes : frame.

Lemma advances_fetchBatches cfg env options delayMs len batches :
  forall index results,
    preserves (advances env)
      (fetchBatches cfg env options delayMs len index batches results).
Proof.
  induction batches as [|batch rest IH]; intros index results; simpl.
  - preserves_structure.
  - preserves_structure; apply IH.
Qed.

#[local] Hint Resolve advances_fetchBatches : frame.

Lemma advances_fetchMultipleStocks cfg env symbols options :
  preserves (advances env) (fetchMultipleStocks cfg env symbols options).
Proof. unfold fetchMultipleStocks, finish. preserves_structure. Qed.

Lemma advances_fetchCrypto cfg env : preserves (advances env) (fetchCrypto cfg env).
Proof. unfold fetchCrypto. preserves_structure. Qed.

Lemma advances_perform cfg env op w : advances env w (perform cfg env op w).
Proof.
  destruct op; simpl.
  - apply advances_isRateLimited.
  - apply advances_triggerRateLimit.
  - apply advances_fetchStockQuote.
  - apply advances_fetchMultipleStocks.
  - apply advances_fetchCrypto.
Qed.

Lemma advances_monotone env w w' :
  (forall i j, (i <= j)%nat -> DateNow env i <= DateNow env j) ->
  expiry_in_reach env w -> advances env w w' ->
  rateLimitedUntil w <= rateLimitedUntil w' /\ expiry_in_reach env w'.
Proof.
  unfold expiry_in_reach. intros Hclock Hw [Hc [H | (k & Hk & H)]]; rewrite H.
  - split; [lia|]. specialize (Hclock _ _ Hc). lia.
  - pose proof (Hclock (clockReads w) k ltac:(lia)).
    pose proof (Hclock k (clockReads w') ltac:(lia)). lia.
Qed.

Lemma performAll_snoc cfg env ops op w :
  performAll cfg env (ops ++ [op]) w = perform cfg env op (performAll cfg env ops w).
Proof. unfold performAll. rewrite fold_left_app. reflexivity. Qed.

Lemma performAll_in_reach cfg env ops w :
  (forall i j, (i <= j)%nat -> DateNow env i <= DateNow env j) ->
  expiry_in_reach env w -> expiry_in_reach env (performAll cfg env ops w).
Proof.
  intros Hclock Hw. induction ops as [|op ops IH] using rev_ind; [exact Hw|].
  rewrite performAll_snoc.
  exact (proj2 (advances_monotone env _ _ Hclock IH (advances_perform cfg env op _))).
Qed.

(** C4: along any sequence of operations run under a clock that does not go
    backwards, from a state whose expiry was set at an earlier or equal time,
    no operation decreases [rateLimitedUntil]; an operation leaves it as it is
    or sets it to a clock reading taken during the operation plus the window;
    and [triggerRateLimit] sets it to the current time plus 5 minutes. *)
Theorem expiry_monotone cfg env w :
  (forall i j, (i <= j)%nat -> DateNow env i <= DateNow env j) ->
  expiry_in_reach env w ->
  (forall ops op,
     rateLimitedUntil (performAll cfg env ops w)
     <= rateLimitedUntil (performAll cfg env (ops ++ [op]) w)) /\
  (forall op w0, advances env w0 (perform cfg env op w0)) /\
  (forall w0,
     rateLimitedUntil (perform cfg env CallTriggerRateLimit w0)
     = DateNow env (clockReads w0) + 5 * 60 * 1000).
Proof.
  intros Hclock Hw. split; [|split].
  - intros ops op. rewrite performAll_snoc.
    apply (advances_monotone env); [exact Hclock | | apply advances_perform].
    by apply performAll_in_reach.
  - intros op w0. apply advances_perform.
  - intros w0. reflexivity.
Qed.

Lemma expiry_monotone_witness :
  (forall i j, (i <= j)%nat -> DateNow sample_env i <= DateNow sample_env j) /\
  expiry_in_reach sample_env initial /\
  rateLimitedUntil
    (performAll sample_config sample_env
       [CallFetchMultipleStocks [AAPL; MSFT; NVDA; AMZN; META] with_callback] initial)
  <= rateLimitedUntil
       (performAll sample_config sample_env
          ([CallFetchMultipleStocks [AAPL; MSFT; NVDA; AMZN; META] with_callback]
             ++ [CallTriggerRateLimit]) initial).
Proof.
  assert (H1 : forall i j, (i <= j)%nat -> DateNow sample_env i <= DateNow sample_env j)
    by (intros i j Hij; simpl; lia).
  assert (H2 : expiry_in_reach sample_env initial)
    by (unfold expiry_in_reach, COOLDOWN_MS; simpl; lia).
  split; [exact H1|]. split; [exact H2|].
  exact (proj1 (expiry_monotone sample_config sample_env initial H1 H2)
           [CallFetchMultipleStocks [AAPL; MSFT; NVDA; AMZN; META] with_callback]
           CallTriggerRateLimit).
Defined.

(** ** What a computation returns *)

Lemma yields_ret {A} (a : A) (Q : A -> Prop) : Q a -> yields (ret a) Q.
Proof. intros HQ w. exists a. split; [reflexivity | exact HQ]. Qed.

Lemma yields_bind {A B} (m : M A) (k : A -> M B) (P : A -> Prop) (Q : B -> Prop) :
  yields m P -> (forall a, P a -> yields (k a) Q) -> yields (bind m k) Q.
Proof.
  intros Hm Hk w. destruct (Hm w) as (a & Ha & HP).
  unfold outcome_of, bind in *.
  destruct (m w) as [[r w1] ev1]. simpl in Ha. subst r.
  destruct (Hk a HP w1) as (b & Hb & HQ). unfold outcome_of in Hb.
  destruct (k a w1) as [[r w2] ev2].
  simpl in *. exists b. split; [exact Hb | exact HQ].
Qed.

Lemma yields_bind_any {A B} (m : M A) (k : A -> M B) (Q : B -> Prop) :
  yields m (fun _ => True) -> (forall a, yields (k a) Q) -> yields (bind m k) Q.
Proof. intros Hm Hk. apply (yields_bind m k (fun _ => True)); [exact Hm | intros a _; apply Hk]. Qed.

Lemma yields_try {A} (body : M A) (handler : Exn -> M A) (Q : A -> Prop) :
  may_yield body Q -> (forall e, yields (handler e) Q) -> yields (try_catch body handler) Q.
Proof.
  intros Hb Hh w. specialize (Hb w). unfold outcome_of, try_catch in *.
  destruct (body w) as [[[a|e] w1] ev1]; simpl in *.
  - exists a. split; [reflexivity | exact Hb].
  - destruct (Hh e w1) as (a & Ha & HQ). unfold outcome_of in Ha.
    destruct (handler e w1) as [[r w2] ev2]. simpl in *. exists a. split; [exact Ha | exact HQ].
Qed.

Lemma yields_weaken {A} (m : M A) (P Q : A -> Prop) :
  (forall a, P a -> Q a) -> yields m P -> yields m Q.
Proof. intros HPQ Hm w. destruct (Hm w) as (a & Ha & HP). exists a. split; [exact Ha | auto]. Qed.

Lemma yields_mapM {A B} (f : A -> M B) (l : list A) :
  (forall a, yields (f a) (fun _ => True)) -> yields (mapM f l) (fun bs => length bs = length l).
Proof.
  intros Hf. induction l as [|a l IH]; simpl.
  - by apply yields_ret.
  - apply yields_bind_any; [apply Hf|]. intros b.
    eapply yields_bind; [apply IH|]. intros bs Hbs. apply yields_ret. simpl. by rewrite Hbs.
Qed.

Lemma may_yield_ret {A} (a : A) (Q : A -> Prop) : Q a -> may_yield (ret a) Q.
Proof. intros HQ w. exact HQ. Qed.

Lemma may_yield_throw {A} (e : Exn) (Q : A -> Prop) : may_yield (throw e) Q.
Proof. intros w. exact I. Qed.

Lemma may_yield_bind {A B} (m : M A) (k : A -> M B) (Q : B -> Prop) :
  (forall a, may_yield (k a) Q) -> may_yield (bind m k) Q.
Proof.
  intros Hk w. unfold outcome_of, bind.
  destruct (m w) as [[[a|e] w1] ev1]; simpl; [|exact I].
  specialize (Hk a w1). unfold outcome_of in Hk.
  destruct (k a w1) as [[r w2] ev2]. exact Hk.
Qed.

Ltac outcome_step :=
  lazymatch goal with
  | |- yields (ret _) _ => apply yields_ret
  | |- yields (emit _) _ => by intros ?; eexists
  | |- yields (delay _) _ => by intros ?; eexists
  | |- yields (get _) _ => by intros ?; eexists
  | |- yields (bind _ _) _ => apply yields_bind_any; [|intros ?]
  | |- yields (try_catch _ _) _ => apply yields_try; [|intros ?]
  | |- may_yield (ret _) _ => apply may_yield_ret
  | |- may_yield (throw _) _ => apply may_yield_throw
  | |- may_yield (bind _ _) _ => apply may_yield_bind; intros ?
  | |- yields (if ?b then _ else _) _ => destruct b
  | |- may_yield (if ?b then _ else _) _ => destruct b
  | |- yields (match ?x with _ => _ end) _ => destruct x
  | |- may_yield (match ?x with _ => _ end) _ => destruct x
  | |- yields _ _ => solve [auto with frame]
  end.

Ltac outcome_structure := cbv zeta; repeat (outcome_step; cbv zeta).

Lemma Date_now_returns env : yields (Date_now env) (fun _ => True).
Proof. by intros w; eexists. Qed.

Lemma Math_random_returns env : yields (Math_random env) (fun _ => True).
Proof. by intros w; eexists. Qed.

Lemma fetchWithProxy_returns url : yields (fetchWithProxy url) (fun _ => True).
Proof. by intros w; eexists. Qed.

Lemma set_rateLimitedUntil_returns v : yields (set_rateLimitedUntil v) (fun _ => True).
Proof. by intros w; eexists. Qed.

Lemma set_lastSuccessfulResults_returns v : yields (set_lastSuccessfulResults v) (fun _ => True).
Proof. by intros w; eexists. Qed.

Lemma call_onBatch_returns options results : yields (call_onBatch options results) (fun _ => True).
Proof. unfold call_onBatch. destruct (onBatch options); by intros w; eexists. Qed.

#[local] Hint Resolve Date_now_returns Math_random_returns fetchWithProxy_returns
  set_rateLimitedUntil_returns set_lastSuccessfulResults_returns call_onBatch_returns : frame.

Lemma isRateLimited_returns env : yields (isRateLimited env) (fun _ => True).
Proof. unfold isRateLimited. outcome_structure; done. Qed.

Lemma triggerRateLimit_returns env : yields (triggerRateLimit env) (fun _ => True).
Proof. unfold triggerRateLimit. outcome_structure. Qed.

#[local] Hint Resolve isRateLimited_returns triggerRateLimit_returns : frame.

Lemma fetchStockQuote_start_returns cfg env symbol name display :
  yields (fetchStockQuote_start cfg env symbol name display) (fun _ => True).
Proof. unfold fetchStockQuote_start. outcome_structure; done. Qed.

Lemma fetchStockQuote_resume_returns env symbol name display f :
  yields (fetchStockQuote_resume env symbol name display f) (fun _ => True).
Proof.
  unfold fetchStockQuote_resume. destruct f as [q | id url]; [by apply yields_ret|].
  outcome_structure; done.
Qed.

Lemma Promise_all_quotes_returns cfg env batch :
  yields (Promise_all_quotes cfg env batch) (fun rs => length rs = length batch).
Proof.
  unfold Promise_all_quotes.
  eapply yields_bind.
  - apply yields_mapM. intros s. apply fetchStockQuote_start_returns.
  - intros flights Hlen. eapply yields_weaken; [|apply yields_mapM].
    + intros rs ->. cbv beta in Hlen. rewrite length_zip_with. lia.
    + intros [s f]. apply fetchStockQuote_resume_returns.
Qed.

Lemma Promise_all_quotes_total cfg env batch :
  yields (Promise_all_quotes cfg env batch) (fun _ => True).
Proof. eapply yields_weaken; [|apply Promise_all_quotes_returns]. done. Qed.

#[local] Hint Resolve Promise_all_quotes_total : frame.

Lemma fetchBatches_returns cfg env options delayMs len batches :
  forall index results,
    yields (fetchBatches cfg env options delayMs len index batches results) (fun _ => True).
Proof.
  induction batches as [|batch rest IH]; intros index results; simpl.
  - by apply yields_ret.
  - outcome_structure; try done; apply IH.
Qed.

#[local] Hint Resolve fetchBatches_returns : frame.

Lemma finish_returns results : yields (finish results) (fun _ => True).
Proof. unfold finish. outcome_structure; done. Qed.

#[local] Hint Resolve finish_returns : frame.

Lemma fetchMultipleStocks_returns cfg env symbols options :
  yields (fetchMultipleStocks cfg env symbols options) (fun _ => True).
Proof. unfold fetchMultipleStocks. outcome_structure; done. Qed.

(** ** The rate-limit guard *)

Lemma isRateLimited_limited env w :
  DateNow env (clockReads w) < rateLimitedUntil w ->
  isRateLimited env w =
    (Returned true,
     world_after (Date_now env) (world_after (Date_now env) w),
     [Console (WarnRateLimited
        (ceil_div (rateLimitedUntil w - DateNow env (S (clockReads w))) 1000))]).
Proof.
  intros H. apply Z.ltb_lt in H.
  unfold isRateLimited, bind, Date_now, get, world_after. simpl. rewrite H. reflexivity.
Qed.

Lemma isRateLimited_clear env w :
  rateLimitedUntil w <= DateNow env (clockReads w) ->
  isRateLimited env w = (Returned false, world_after (Date_now env) w, []).
Proof.
  intros H. apply Z.ltb_ge in H.
  unfold isRateLimited, bind, Date_now, get, world_after. simpl. rewrite H. reflexivity.
Qed.

(** C3: once [triggerRateLimit] ran at time [t], and for as long as the expiry
    it stored stands, [isRateLimited] called at time [now] returns [true] when
    [now < t + 300000] and [false] when [t + 300000 <= now]. *)
Theorem cooldown_window env w w1 t now :
  DateNow env (clockReads w) = t ->
  rateLimitedUntil w1 = rateLimitedUntil (world_after (triggerRateLimit env) w) ->
  DateNow env (clockReads w1) = now ->
  (now < t + 300000 -> outcome_of (isRateLimited env) w1 = Returned true) /\
  (t + 300000 <= now -> outcome_of (isRateLimited env) w1 = Returned false).
Proof.
  intros Ht Hw1 Hnow. simpl in Hw1. rewrite Ht in Hw1.
  change COOLDOWN_MS with 300000 in Hw1. unfold outcome_of. split; intros H.
  - rewrite isRateLimited_limited; [reflexivity | lia].
  - rewrite isRateLimited_clear; [reflexivity | lia].
Qed.

Lemma cooldown_window_witness :
  outcome_of (isRateLimited cooldown_env)
    (world_after (triggerRateLimit cooldown_env) initial) = Returned true /\
  outcome_of (isRateLimited cooldown_env)
    (world_after (isRateLimited cooldown_env)
       (world_after (triggerRateLimit cooldown_env) initial)) = Returned false.
Proof.
  split.
  - apply (cooldown_window cooldown_env initial
             (world_after (triggerRateLimit cooldown_env) initial) 0 299999);
      [reflexivity | reflexivity | reflexivity | lia].
  - apply (cooldown_window cooldown_env initial
             (world_after (isRateLimited cooldown_env)
                (world_after (triggerRateLimit cooldown_env) initial)) 0 300000);
      [reflexivity | reflexivity | reflexivity | lia].
Defined.

(** ** [fetchMultipleStocks] under an active cooldown *)

(** The whole run on the cooldown path (lines 96-102). *)
Lemma fetchMultipleStocks_limited cfg env symbols options w :
  DateNow env (clockReads w) < rateLimitedUntil w ->
  fetchMultipleStocks cfg env symbols options w =
    (Returned (lastSuccessfulResults w),
     world_after (Date_now env) (world_after (Date_now env) w),
     Console (WarnRateLimited
        (ceil_div (rateLimitedUntil w - DateNow env (S (clockReads w))) 1000))
     :: match lastSuccessfulResults w with
        | [] => []
        | _ :: _ => if onBatch options then [OnBatch (lastSuccessfulResults w)] else []
        end).
Proof.
  intros Hlim. unfold fetchMultipleStocks.
  rewrite (bind_Returned _ _ _ _ _ _ (isRateLimited_limited env w Hlim)).
  unfold outcome_of, world_after, events_of, bind, get, call_onBatch, emit, ret, Date_now.
  simpl. destruct (lastSuccessfulResults w) as [|q cached]; simpl; [reflexivity|].
  destruct (onBatch options); reflexivity.
Qed.

(** C5: when the guard is limited at the call, [fetchMultipleStocks] hands
    nothing to [fetchWithProxy] and leaves the cache as it is; with a non-empty
    cache it returns the cached batch and invokes the supplied [onBatch]
    exactly once, with that batch; with an empty cache it returns [[]] and
    invokes nothing. *)
Theorem limited_serves_cache cfg env symbols options w :
  DateNow env (clockReads w) < rateLimitedUntil w ->
  let run := fetchMultipleStocks cfg env symbols options in
  requestsOf (events_of run w) = [] /\
  requestsSent (world_after run w) = requestsSent w /\
  lastSuccessfulResults (world_after run w) = lastSuccessfulResults w /\
  (lastSuccessfulResults w <> [] ->
     outcome_of run w = Returned (lastSuccessfulResults w) /\
     onBatchCalls (events_of run w) =
       if onBatch options then [lastSuccessfulResults w] else []) /\
  (lastSuccessfulResults w = [] ->
     outcome_of run w = Returned [] /\ onBatchCalls (events_of run w) = []).
Proof.
  intros Hlim run. subst run.
  unfold outcome_of, world_after, events_of.
  rewrite (fetchMultipleStocks_limited cfg env symbols options w Hlim). simpl.
  destruct (lastSuccessfulResults w) as [|q cached]; simpl.
  - repeat split; done.
  - destruct (onBatch options); repeat split; done.
Qed.

Lemma limited_serves_cache_witness :
  DateNow sample_env (clockReads sample_limited) < rateLimitedUntil sample_limited /\
  outcome_of (fetchMultipleStocks sample_config sample_env [AAPL; MSFT] with_callback)
    sample_limited = Returned [priced AAPL 110 10] /\
  onBatchCalls
    (events_of (fetchMultipleStocks sample_config sample_env [AAPL; MSFT] with_callback)
       sample_limited) = [[priced AAPL 110 10]] /\
  requestsOf
    (events_of (fetchMultipleStocks sample_config sample_env [AAPL; MSFT] with_callback)
       sample_limited) = [].
Proof.
  assert (H : DateNow sample_env (clockReads sample_limited)
              < rateLimitedUntil sample_limited) by (simpl; lia).
  destruct (limited_serves_cache sample_config sample_env [AAPL; MSFT] with_callback
              sample_limited H) as (Hreq & _ & _ & Hsome & _).
  destruct Hsome as [Hout Hcalls]; [discriminate|].
  split; [exact H|]. split; [exact Hout|]. split; [exact Hcalls | exact Hreq].
Defined.

(** ** The end of [fetchMultipleStocks] *)

Lemma filter_visible_nil results :
  List.filter visible results = [] <->
  Forall (fun r => MarketData.price r = Null) results.
Proof.
  induction results as [|r results IH]; simpl.
  - split; [constructor | reflexivity].
  - unfold visible at 1. destruct (MarketData.price r) as [p| |] eqn:Hp.
    + split; [discriminate | intros H; inversion H; congruence].
    + rewrite IH. split; [by constructor | by inversion 1].
    + split; [discriminate | intros H; inversion H; congruence].
Qed.

(** The filter of lines 129 and 138 keeps the results whose price is not
    [null], in their order. *)
Lemma filter_visible results :
  List.filter visible results = filter (fun q => MarketData.price q <> Null) results.
Proof.
  induction results as [|r results IH]; [reflexivity|].
  simpl. rewrite filter_cons, IH. unfold visible.
  destruct (MarketData.price r) eqn:Hr.
  - by rewrite decide_True.
  - rewrite decide_False; [reflexivity | by intros H].
  - by rewrite decide_True.
Qed.

Lemma finish_run results w :
  outcome_of (finish results) w = Returned (List.filter visible results) /\
  events_of (finish results) w = [] /\
  lastSuccessfulResults (world_after (finish results) w) =
    match List.filter visible results with
    | [] => lastSuccessfulResults w
    | _ :: _ => List.filter visible results
    end.
Proof.
  unfold finish, outcome_of, events_of, world_after, bind, set_lastSuccessfulResults, ret.
  destruct (List.filter visible results); simpl; done.
Qed.

Lemma fetchMultipleStocks_clear cfg env symbols options w :
  rateLimitedUntil w <= DateNow env (clockReads w) ->
  fetchMultipleStocks cfg env symbols options w =
    bind (fetchAllBatches cfg env symbols options) finish (world_after (Date_now env) w).
Proof.
  intros Hclear. unfold fetchMultipleStocks.
  rewrite (bind_Returned _ _ _ _ _ _ (isRateLimited_clear env w Hclear)).
  cbv zeta. rewrite app_nil_l. symmetry. apply run_eta.
Qed.

(** C6: every run of [fetchMultipleStocks] returns, and ends with the cache
    equal to the returned list when that list is not empty and untouched
    otherwise.  A run that gets past the guard returns exactly the results
    accumulated by the loop whose price is not [null], in their order; each of
    them is then in the cache as well, which is overwritten with the returned
    list when that list is not empty; when every accumulated result has a
    [null] price, nothing is returned and the cache is left as it was. *)
Theorem cache_follows_success cfg env symbols options w :
  exists returned,
    outcome_of (fetchMultipleStocks cfg env symbols options) w = Returned returned /\
    lastSuccessfulResults (world_after (fetchMultipleStocks cfg env symbols options) w) =
      match returned with
      | [] => lastSuccessfulResults w
      | _ :: _ => returned
      end /\
    (rateLimitedUntil w <= DateNow env (clockReads w) ->
     exists results,
       outcome_of (fetchAllBatches cfg env symbols options)
         (world_after (isRateLimited env) w) = Returned results /\
       returned = filter (fun q => MarketData.price q <> Null) results /\
       (forall q, q ∈ results -> MarketData.price q <> Null ->
          q ∈ returned /\
          q ∈ lastSuccessfulResults
                (world_after (fetchMultipleStocks cfg env symbols options) w)) /\
       (returned <> [] ->
        lastSuccessfulResults (world_after (fetchMultipleStocks cfg env symbols options) w)
        = returned) /\
       (Forall (fun r => MarketData.price r = Null) results ->
        returned = [] /\
        lastSuccessfulResults (world_after (fetchMultipleStocks cfg env symbols options) w)
        = lastSuccessfulResults w)).
Proof.
  destruct (Z.lt_ge_cases (DateNow env (clockReads w)) (rateLimitedUntil w)) as [Hlim | Hclear].
  - exists (lastSuccessfulResults w). unfold outcome_of, world_after.
    rewrite (fetchMultipleStocks_limited cfg env symbols options w Hlim). simpl.
    split; [reflexivity|]. split; [by destruct (lastSuccessfulResults w) | lia].
  - set (loop := fetchAllBatches cfg env symbols options).
    assert (Hw0 : world_after (isRateLimited env) w = world_after (Date_now env) w).
    { unfold world_after at 1. by rewrite isRateLimited_clear. }
    rewrite Hw0. set (w0 := world_after (Date_now env) w).
    destruct (fetchBatches_returns cfg env options (default 3000%float (delayMs options))
      (length (chunkArray cfg symbols (default 2 (batchSize options))))
      (chunkArray cfg symbols (default 2 (batchSize options))) 0%nat [] w0)
      as (results & Hres & _).
    change (outcome_of loop w0 = Returned results) in Hres.
    pose proof (cache_fetchBatches cfg env options (default 3000%float (delayMs options))
      (length (chunkArray cfg symbols (default 2 (batchSize options))))
      (chunkArray cfg symbols (default 2 (batchSize options))) 0%nat [] w0) as Hkeep.
    change (same_cache w0 (world_after loop w0)) in Hkeep. unfold same_cache in Hkeep.
    assert (Hrun : fetchMultipleStocks cfg env symbols options w =
      (outcome_of (finish results) (world_after loop w0),
       world_after (finish results) (world_after loop w0),
       events_of loop w0 ++ events_of (finish results) (world_after loop w0))).
    { rewrite (fetchMultipleStocks_clear cfg env symbols options w Hclear).
      fold loop. fold w0. apply bind_Returned.
      rewrite (run_eta loop w0), Hres. reflexivity. }
    destruct (finish_run results (world_after loop w0)) as (Hout & _ & Hcache).
    assert (Ho : outcome_of (fetchMultipleStocks cfg env symbols options) w =
                 outcome_of (finish results) (world_after loop w0))
      by (unfold outcome_of at 1; rewrite Hrun; reflexivity).
    assert (Hw : world_after (fetchMultipleStocks cfg env symbols options) w =
                 world_after (finish results) (world_after loop w0))
      by (unfold world_after at 1; rewrite Hrun; reflexivity).
    rewrite Ho, Hw.
    rewrite Hkeep in Hcache. change (lastSuccessfulResults w0) with (lastSuccessfulResults w) in Hcache.
    assert (Hne : List.filter visible results <> [] ->
                  lastSuccessfulResults (world_after (finish results) (world_after loop w0))
                  = List.filter visible results).
    { intros Hne. rewrite Hcache. by destruct (List.filter visible results). }
    exists (List.filter visible results). split; [exact Hout|]. split; [exact Hcache|].
    intros _. exists results. split; [exact Hres|]. split; [apply filter_visible|].
    split; [|split; [exact Hne|]].
    + intros q Hq Hprice.
      assert (Hin : q ∈ List.filter visible results).
      { rewrite filter_visible. by apply list_elem_of_filter. }
      split; [exact Hin|]. rewrite Hne; [exact Hin|].
      intros Hnil. rewrite Hnil in Hin. by apply elem_of_nil in Hin.
    + intros Hall. apply filter_visible_nil in Hall. by rewrite Hcache, Hall.
Qed.

Lemma cache_follows_success_witness :
  outcome_of (fetchAllBatches sample_config mixed_env [AAPL; MSFT] with_callback)
    (world_after (isRateLimited mixed_env) initial)
    = Returned [priced AAPL 110 10; null_quote MSFT] /\
  outcome_of (fetchMultipleStocks sample_config mixed_env [AAPL; MSFT] with_callback) initial
    = Returned [priced AAPL 110 10] /\
  lastSuccessfulResults
    (world_after (fetchMultipleStocks sample_config mixed_env [AAPL; MSFT] with_callback)
       initial) = [priced AAPL 110 10].
Proof.
  assert (Hloop :
    outcome_of (fetchAllBatches sample_config mixed_env [AAPL; MSFT] with_callback)
      (world_after (isRateLimited mixed_env) initial)
    = Returned [priced AAPL 110 10; null_quote MSFT]) by (vm_compute; reflexivity).
  split; [exact Hloop|].
  destruct (cache_follows_success sample_config mixed_env [AAPL; MSFT] with_callback initial)
    as (returned & Hout & _ & Hpast).
  destruct (Hpast ltac:(simpl; lia)) as (results & Hres & Hret & _ & Hcache & _).
  rewrite Hloop in Hres. injection Hres as <-.
  assert (Hreturned : returned = [priced AAPL 110 10]) by (rewrite Hret; reflexivity).
  rewrite Hreturned in Hout, Hcache.
  split; [exact Hout | by apply Hcache].
Defined.

(** ** What a computation emits *)

Lemma events_bind {A B} (m : M A) (k : A -> M B) w :
  events_of (bind m k) w =
    events_of m w ++
    match outcome_of m w with
    | Returned a => events_of (k a) (world_after m w)
    | Threw _ => []
    end.
Proof.
  unfold events_of, outcome_of, world_after, bind.
  destruct (m w) as [[[a|e] w1] ev1]; simpl; [|by rewrite app_nil_r].
  by destruct (k a w1) as [[r w2] ev2].
Qed.

Lemma events_try {A} (body : M A) (handler : Exn -> M A) w :
  events_of (try_catch body handler) w =
    events_of body w ++
    match outcome_of body w with
    | Returned _ => []
    | Threw e => events_of (handler e) (world_after body w)
    end.
Proof.
  unfold events_of, outcome_of, world_after, try_catch.
  destruct (body w) as [[[a|e] w1] ev1]; simpl; [by rewrite app_nil_r|].
  by destruct (handler e w1) as [[r w2] ev2].
Qed.

Section Emits.

Variable P : Event -> Prop.

Lemma emits_silent {A} (m : M A) : (forall w, events_of m w = []) -> emits P m.
Proof. intros H w. rewrite H. constructor. Qed.

Lemma emits_emit (e : Event) : P e -> emits P (emit e).
Proof. intros He w. by constructor. Qed.

Lemma emits_bind {A B} (m : M A) (k : A -> M B) :
  emits P m -> (forall a, emits P (k a)) -> emits P (bind m k).
Proof.
  intros Hm Hk w. rewrite events_bind. apply Forall_app. split; [apply Hm|].
  destruct (outcome_of m w); [apply Hk | constructor].
Qed.

Lemma emits_try {A} (body : M A) (handler : Exn -> M A) :
  emits P body -> (forall e, emits P (handler e)) -> emits P (try_catch body handler).
Proof.
  intros Hm Hk w. rewrite events_try. apply Forall_app. split; [apply Hm|].
  destruct (outcome_of body w); [constructor | apply Hk].
Qed.

Lemma emits_mapM {A B} (f : A -> M B) (l : list A) :
  (forall a, emits P (f a)) -> emits P (mapM f l).
Proof.
  intros Hf. induction l as [|a l IH]; simpl.
  - by apply emits_silent.
  - apply emits_bind; [apply Hf|]. intros b.
    apply emits_bind; [apply IH|]. intros bs. by apply emits_silent.
Qed.

End Emits.

Ltac emits_step :=
  lazymatch goal with
  | |- emits _ (ret _) => by apply emits_silent
  | |- emits _ (throw _) => by apply emits_silent
  | |- emits _ (get _) => by apply emits_silent
  | |- emits _ (Date_now _) => by apply emits_silent
  | |- emits _ (Math_random _) => by apply emits_silent
  | |- emits _ (set_rateLimitedUntil _) => by apply emits_silent
  | |- emits _ (set_lastSuccessfulResults _) => by apply emits_silent
  | |- emits _ (emit _) => apply emits_emit
  | |- emits _ (delay _) => apply emits_emit
  | |- emits _ (bind _ _) => apply emits_bind; [|intros ?]
  | |- emits _ (try_catch _ _) => apply emits_try; [|intros ?]
  | |- emits _ (mapM _ _) => apply emits_mapM; intros ?
  | |- emits _ (if ?b then _ else _) => destruct b
  | |- emits _ (match ?x with _ => _ end) => destruct x
  | |- emits _ _ => solve [auto with frame]
  end.

Ltac emits_structure := cbv zeta; repeat (emits_step; cbv zeta).

Lemma onBatchCalls_none evs : Forall not_onBatch evs -> onBatchCalls evs = [].
Proof.
  induction 1 as [|e evs He _ IH]; [reflexivity|].
  destruct e; [exact IH | contradiction | exact IH | exact IH].
Qed.

Lemma onBatchCalls_app evs1 evs2 :
  onBatchCalls (evs1 ++ evs2) = onBatchCalls evs1 ++ onBatchCalls evs2.
Proof. apply omap_app. Qed.

Lemma quiet_isRateLimited env : emits not_onBatch (isRateLimited env).
Proof. unfold isRateLimited. emits_structure. done. Qed.

Lemma quiet_triggerRateLimit env : emits not_onBatch (triggerRateLimit env).
Proof. unfold triggerRateLimit. emits_structure. done. Qed.

#[local] Hint Resolve quiet_isRateLimited quiet_triggerRateLimit : frame.

Lemma quiet_fetchStockQuote_start cfg env symbol name display :
  emits not_onBatch (fetchStockQuote_start cfg env symbol name display).
Proof.
  unfold fetchStockQuote_start. emits_structure.
  intros w. by repeat constructor.
Qed.

Lemma quiet_fetchStockQuote_resume env symbol name display f :
  emits not_onBatch (fetchStockQuote_resume env symbol name display f).
Proof.
  unfold fetchStockQuote_resume, await, await_json, read_meta.
  emits_structure; done.
Qed.

#[local] Hint Resolve quiet_fetchStockQuote_start quiet_fetchStockQuote_resume : frame.

Lemma quiet_Promise_all_quotes cfg env batch :
  emits not_onBatch (Promise_all_quotes cfg env batch).
Proof. unfold Promise_all_quotes. emits_structure. Qed.

(** ** The successive arguments of [onBatch] *)

Lemma growing_from_weaken base base' calls :
  base' `prefix_of` base -> growing_from base calls -> growing_from base' calls.
Proof.
  destruct calls as [|c cs]; [done|]. intros Hb [Hc Hcs].
  split; [by etrans | exact Hcs].
Qed.

Lemma growing_from_all base calls :
  growing_from base calls -> Forall (prefix base) calls.
Proof.
  revert base. induction calls as [|c cs IH]; intros base; [constructor|].
  intros [Hc Hcs]. constructor; [exact Hc|].
  apply IH. by apply (growing_from_weaken c).
Qed.

Lemma growing_from_lookup base calls i j a b :
  growing_from base calls -> (i <= j)%nat ->
  calls !! i = Some a -> calls !! j = Some b -> a `prefix_of` b.
Proof.
  revert base i j. induction calls as [|c cs IH]; intros base i j; [done|].
  intros [Hc Hcs] Hij Ha Hb. destruct i as [|i], j as [|j]; simpl in *.
  - by simplify_eq.
  - simplify_eq. apply growing_from_all in Hcs.
    rewrite Forall_forall in Hcs. eapply Hcs, list_elem_of_lookup_2, Hb.
  - lia.
  - apply (IH c i j); [exact Hcs | lia | exact Ha | exact Hb].
Qed.

Lemma filter_visible_prefix results more :
  List.filter visible results `prefix_of` List.filter visible (results ++ more).
Proof. rewrite List.filter_app. by apply prefix_app_r. Qed.

Lemma fetchBatches_cons cfg env options delayMs len index batch rest results :
  fetchBatches cfg env options delayMs len index (batch :: rest) results =
    bind (isRateLimited env) (fun limited =>
      if limited then
        bind (emit (Console (LogStopping (length results)))) (fun _ => ret results)
      else
        bind (Promise_all_quotes cfg env batch) (fun batchResults =>
          if existsb flagged batchResults then
            bind (emit (Console LogRateLimitHit)) (fun _ => ret results)
          else
            bind (call_onBatch options (List.filter visible (results ++ batchResults)))
              (fun _ =>
                 bind (if Z.of_nat index <? Z.of_nat len - 1 then
                         bind (Math_random env) (fun r =>
                           delay (delayMs + r * 1000)%float)
                       else ret tt)
                   (fun _ =>
                      fetchBatches cfg env options delayMs len (S index) rest
                        (results ++ batchResults))))).
Proof. reflexivity. Qed.

Lemma quiet_pause env delayMs (go : bool) :
  emits not_onBatch
    (if go then bind (Math_random env) (fun r => delay (delayMs + r * 1000)%float)
     else ret tt).
Proof. emits_structure. done. Qed.

Lemma fetchBatches_growing cfg env options delayMs len batches :
  forall index results w,
    growing_from (List.filter visible results)
      (onBatchCalls
         (events_of (fetchBatches cfg env options delayMs len index batches results) w)).
Proof.
  induction batches as [|batch rest IH]; intros index results w; [exact I|].
  rewrite fetchBatches_cons, events_bind, onBatchCalls_app.
  rewrite (onBatchCalls_none _ (quiet_isRateLimited env w)), app_nil_l.
  destruct (outcome_of (isRateLimited env) w) as [[|]|e]; [exact I| |exact I].
  rewrite events_bind, onBatchCalls_app.
  rewrite (onBatchCalls_none _ (quiet_Promise_all_quotes cfg env batch _)), app_nil_l.
  destruct (outcome_of (Promise_all_quotes cfg env batch) _) as [batchResults|e]; [|exact I].
  destruct (existsb flagged batchResults); [exact I|].
  rewrite events_bind, onBatchCalls_app.
  set (w2 := world_after (Promise_all_quotes cfg env batch) _).
  assert (Hnext : forall w3,
    growing_from (List.filter visible (results ++ batchResults))
      (onBatchCalls
         match outcome_of (call_onBatch options
                 (List.filter visible (results ++ batchResults))) w2 with
         | Returned _ =>
             events_of
               (bind (if Z.of_nat index <? Z.of_nat len - 1 then
                        bind (Math_random env) (fun r => delay (delayMs + r * 1000)%float)
                      else ret tt)
                  (fun _ => fetchBatches cfg env options delayMs len (S index) rest
                              (results ++ batchResults))) w3
         | Threw _ => []
         end)).
  { intros w3. destruct (outcome_of _ w2); [|exact I].
    rewrite events_bind, onBatchCalls_app.
    rewrite (onBatchCalls_none _ (quiet_pause env delayMs _ w3)), app_nil_l.
    destruct (outcome_of _ w3); [apply IH | exact I]. }
  unfold call_onBatch at 1. destruct (onBatch options) eqn:Hcb.
  - split; [apply filter_visible_prefix | apply Hnext].
  - eapply growing_from_weaken; [apply filter_visible_prefix | apply Hnext].
Qed.

(** C10: within one invocation of [fetchMultipleStocks], of any two [onBatch]
    invocations the earlier one's argument is a prefix of the later one's. *)
Theorem onBatch_arguments_grow cfg env symbols options w i j earlier later :
  (i <= j)%nat ->
  onBatchCalls (events_of (fetchMultipleStocks cfg env symbols options) w) !! i
    = Some earlier ->
  onBatchCalls (events_of (fetchMultipleStocks cfg env symbols options) w) !! j
    = Some later ->
  earlier `prefix_of` later.
Proof.
  destruct (Z.lt_ge_cases (DateNow env (clockReads w)) (rateLimitedUntil w)) as [Hlim | Hclear].
  - unfold events_of.
    rewrite (fetchMultipleStocks_limited cfg env symbols options w Hlim). simpl.
    intros _ Hi Hj.
    destruct (lastSuccessfulResults w) as [|q cached]; [done|].
    destruct (onBatch options); [|done].
    destruct i, j; simpl in *; by simplify_eq.
  - unfold events_of at 1 2.
    rewrite (fetchMultipleStocks_clear cfg env symbols options w Hclear).
    fold (events_of (bind (fetchAllBatches cfg env symbols options) finish)
            (world_after (Date_now env) w)).
    rewrite events_bind, onBatchCalls_app.
    assert (Hfin : onBatchCalls
      match outcome_of (fetchAllBatches cfg env symbols options)
              (world_after (Date_now env) w) with
      | Returned a =>
          events_of (finish a)
            (world_after (fetchAllBatches cfg env symbols options)
               (world_after (Date_now env) w))
      | Threw _ => []
      end = []).
    { destruct (outcome_of _ _); [|reflexivity].
      by rewrite (proj1 (proj2 (finish_run _ _))). }
    rewrite Hfin, app_nil_r. intros Hij.
    apply (growing_from_lookup (List.filter visible [])); [|exact Hij].
    apply fetchBatches_growing.
Qed.

Lemma onBatch_arguments_grow_witness :
  onBatchCalls
    (events_of
       (fetchMultipleStocks sample_config (env_answering (quote_ok meta_chart_close))
          [AAPL; MSFT; NVDA] with_callback) initial) !! 0%nat
    = Some [priced AAPL 110 10; priced MSFT 110 10] /\
  onBatchCalls
    (events_of
       (fetchMultipleStocks sample_config (env_answering (quote_ok meta_chart_close))
          [AAPL; MSFT; NVDA] with_callback) initial) !! 1%nat
    = Some [priced AAPL 110 10; priced MSFT 110 10; priced NVDA 110 10] /\
  [priced AAPL 110 10; priced MSFT 110 10]
    `prefix_of` [priced AAPL 110 10; priced MSFT 110 10; priced NVDA 110 10].
Proof.
  assert (H0 : onBatchCalls
    (events_of
       (fetchMultipleStocks sample_config (env_answering (quote_ok meta_chart_close))
          [AAPL; MSFT; NVDA] with_callback) initial) !! 0%nat
    = Some [priced AAPL 110 10; priced MSFT 110 10]) by (vm_compute; reflexivity).
  assert (H1 : onBatchCalls
    (events_of
       (fetchMultipleStocks sample_config (env_answering (quote_ok meta_chart_close))
          [AAPL; MSFT; NVDA] with_callback) initial) !! 1%nat
    = Some [priced AAPL 110 10; priced MSFT 110 10; priced NVDA 110 10])
    by (vm_compute; reflexivity).
  split; [exact H0|]. split; [exact H1|].
  exact (onBatch_arguments_grow sample_config (env_answering (quote_ok meta_chart_close))
           [AAPL; MSFT; NVDA] with_callback initial 0 1 _ _ (le_S 0 0 (le_n 0)) H0 H1).
Defined.

(** ** A chunk with a rate-limited quote *)

Lemma fetchBatches_flagged cfg env options delayMs len index batch rest results w batchResults :
  rateLimitedUntil w <= DateNow env (clockReads w) ->
  outcome_of (Promise_all_quotes cfg env batch) (world_after (Date_now env) w)
    = Returned batchResults ->
  existsb flagged batchResults = true ->
  fetchBatches cfg env options delayMs len index (batch :: rest) results w =
    (Returned results,
     world_after (Promise_all_quotes cfg env batch) (world_after (Date_now env) w),
     events_of (Promise_all_quotes cfg env batch) (world_after (Date_now env) w)
       ++ [Console LogRateLimitHit]).
Proof.
  intros Hclear Hchunk Hflag. rewrite fetchBatches_cons.
  rewrite (bind_Returned _ _ _ _ _ _ (isRateLimited_clear env w Hclear)).
  rewrite app_nil_l.
  set (w1 := world_after (Date_now env) w) in *.
  set (chunk := Promise_all_quotes cfg env batch) in *.
  assert (Hrun : chunk w1 = (Returned batchResults, world_after chunk w1, events_of chunk w1))
    by (rewrite (run_eta chunk w1), Hchunk; reflexivity).
  unfold outcome_of at 1, world_after at 1, events_of at 1.
  rewrite (bind_Returned _ _ _ _ _ _ Hrun), Hflag. reflexivity.
Qed.

(** C1 as stated fails.  Five symbols go out in chunks of two; in chunk 2 the
    first symbol is answered 429 and the second gets a price.  The run returns
    the two quotes of chunk 1 only: the priced quote of chunk 2 is not in the
    returned list.  (The last chunk is never requested, as the claim says.) *)
Lemma flagged_chunk_counterexample :
  chunkArray sample_config [AAPL; MSFT; NVDA; AMZN; META] 2
    = [[AAPL; MSFT]; [NVDA; AMZN]; [META]] /\
  world_after
    (fetchBatches sample_config sample_env with_callback 3000%float 3 0 [[AAPL; MSFT]] [])
    (world_after (isRateLimited sample_env) initial) = after_first_chunk /\
  outcome_of (Promise_all_quotes sample_config sample_env [NVDA; AMZN])
    (world_after (isRateLimited sample_env) after_first_chunk)
    = Returned [limited_quote NVDA; priced AMZN 6 50] /\
  visible (priced AMZN 6 50) = true /\
  outcome_of
    (fetchMultipleStocks sample_config sample_env [AAPL; MSFT; NVDA; AMZN; META]
       with_callback) initial
    = Returned [priced AAPL 110 10; priced MSFT 50 0] /\
  requestsOf
    (events_of
       (fetchMultipleStocks sample_config sample_env [AAPL; MSFT; NVDA; AMZN; META]
          with_callback) initial)
    = [yahooFinance sample_config "AAPL"; yahooFinance sample_config "MSFT";
       yahooFinance sample_config "NVDA"; yahooFinance sample_config "AMZN"] /\
  existsb (fun q => String.eqb (MarketData.symbol q) "AMZN")
    [priced AAPL 110 10; priced MSFT 50 0] = false.
Proof.
  split; [vm_compute; reflexivity|]. split; [vm_compute; reflexivity|].
  split; [vm_compute; reflexivity|]. split; [reflexivity|].
  split; [vm_compute; reflexivity|]. split; [vm_compute; reflexivity|].
  vm_compute; reflexivity.
Qed.

(** ** The quote computed from a parsed response *)

Lemma or_else_reference m :
  or_else (or_opt (chartPreviousClose m) (previousClose m)) (regularMarketPrice m)
  = reference_of m.
Proof.
  unfold or_else, or_opt, reference_of, usable.
  destruct (chartPreviousClose m) as [c|]; [destruct (truthy c) eqn:Hc|].
  - by rewrite Hc.
  - destruct (previousClose m) as [c'|]; [destruct (truthy c') eqn:Hc'|]; by rewrite ?Hc'.
  - destruct (previousClose m) as [c'|]; [destruct (truthy c') eqn:Hc'|]; by rewrite ?Hc'.
Qed.

Lemma fetchStockQuote_start_clear cfg env symbol name display w :
  rateLimitedUntil w <= DateNow env (clockReads w) ->
  fetchStockQuote_start cfg env symbol name display w =
    (Returned (InFlight (requestsSent w) (yahooFinance cfg symbol)),
     world_after (fetchWithProxy (yahooFinance cfg symbol)) (world_after (Date_now env) w),
     [Request (yahooFinance cfg symbol)]).
Proof.
  intros Hclear. unfold fetchStockQuote_start.
  rewrite (bind_Returned _ _ _ _ _ _ (isRateLimited_clear env w Hclear)). reflexivity.
Qed.

(** The run of [fetchStockQuote] when the guard is clear and the reply is a
    successful response whose body carries metadata [m]. *)
Lemma fetchStockQuote_parsed cfg env symbol name display w r data c cr rs m :
  rateLimitedUntil w <= DateNow env (clockReads w) ->
  quoteReply env (requestsSent w) (yahooFinance cfg symbol) = Resolves r ->
  status r <> 429 ->
  ok r = true ->
  json r = JsonValue data ->
  chart data = Some c ->
  result c = Some (cr :: rs) ->
  meta cr = Some m ->
  outcome_of (fetchStockQuote cfg env symbol name display) w =
    Returned
      {| MarketData.symbol := symbol; MarketData.name := name;
         MarketData.display := display;
         MarketData.price := regularMarketPrice m;
         MarketData.change :=
           Some (percent_change (to_number (regularMarketPrice m))
                   (to_number (reference_of m)));
         MarketData.rateLimited := None |}.
Proof.
  intros Hclear Hreply Hstatus Hok Hjson Hchart Hresult Hmeta.
  apply Z.eqb_neq in Hstatus.
  unfold outcome_of at 1, fetchStockQuote.
  rewrite (bind_Returned _ _ _ _ _ _
             (fetchStockQuote_start_clear cfg env symbol name display w Hclear)).
  unfold outcome_of, fetchStockQuote_resume, try_catch, bind, await; simpl.
  rewrite Hreply; simpl. rewrite Hstatus, Hok; simpl.
  unfold await_json, read_meta. rewrite Hjson; simpl. rewrite Hchart, Hresult, Hmeta; simpl.
  rewrite or_else_reference. reflexivity.
Qed.

(** Subtracting a finite double from itself gives [+0]. *)
Lemma SF64sub_diag s m e :
  SF64sub (S754_finite s m e) (S754_finite s m e) = S754_zero false.
Proof.
  unfold SF64sub, SFsub. rewrite Z.min_id.
  assert (H : shl_align m e e = (m, e)).
  { unfold shl_align. rewrite Z.sub_diag. reflexivity. }
  rewrite H. cbn [fst]. rewrite Z.sub_diag. reflexivity.
Qed.

(** A finite non-zero price measured against itself has changed by [0]
    (of either sign). *)
Lemma percent_change_self p :
  is_finite p = true -> is_zero p = false ->
  PrimFloat.eqb (percent_change p p) 0%float = true.
Proof.
  unfold percent_change, is_finite, is_zero, is_nan, is_infinity.
  rewrite !FloatAxioms.eqb_spec, mul_spec, div_spec, sub_spec, abs_spec.
  destruct (Prim2SF p) as [s | s | | s m e] eqn:E.
  - intros _ H. destruct s; discriminate H.
  - intros H _. destruct s; discriminate H.
  - intros H _. discriminate H.
  - intros _ _. rewrite SF64sub_diag. destruct s; reflexivity.
Qed.

Lemma usable_Some field x : field = Some x -> truthy x = true -> usable field = Some x.
Proof. intros -> H. unfold usable. by rewrite H. Qed.

Lemma usable_falsy field x : field = Some x -> truthy x = false -> usable field = None.
Proof. intros -> H. unfold usable. by rewrite H. Qed.

(** C7, amended: on a successful parsed response the returned price is the
    latest price and the returned change is [(price - reference) / reference
    * 100], where the reference is the chart-specific previous close when that
    field is present and truthy (neither zero nor NaN), otherwise the generic
    previous close when present and truthy, otherwise the price itself; in
    that last case the change is zero whenever the price is finite and not
    zero.  (The arithmetic reads its operands as numbers, [to_number].) *)
Theorem change_from_usable_reference cfg env symbol name display w r data c cr rs m :
  rateLimitedUntil w <= DateNow env (clockReads w) ->
  quoteReply env (requestsSent w) (yahooFinance cfg symbol) = Resolves r ->
  status r <> 429 ->
  ok r = true ->
  json r = JsonValue data ->
  chart data = Some c ->
  result c = Some (cr :: rs) ->
  meta cr = Some m ->
  exists q ch,
    outcome_of (fetchStockQuote cfg env symbol name display) w = Returned q /\
    MarketData.price q = regularMarketPrice m /\
    MarketData.change q = Some ch /\
    ch = (((to_number (regularMarketPrice m) - to_number (reference_of m))
           / to_number (reference_of m)) * 100)%float /\
    (forall x, chartPreviousClose m = Some x -> truthy x = true ->
               reference_of m = Number x) /\
    (forall y, usable (chartPreviousClose m) = None ->
               previousClose m = Some y -> truthy y = true -> reference_of m = Number y) /\
    (usable (chartPreviousClose m) = None -> usable (previousClose m) = None ->
     reference_of m = regularMarketPrice m /\
     (forall p, regularMarketPrice m = Number p ->
        is_finite p = true -> is_zero p = false -> PrimFloat.eqb ch 0%float = true)).
Proof.
  intros Hclear Hreply Hstatus Hok Hjson Hchart Hresult Hmeta.
  eexists _, _. split.
  { exact (fetchStockQuote_parsed cfg env symbol name display w r data c cr rs m
             Hclear Hreply Hstatus Hok Hjson Hchart Hresult Hmeta). }
  simpl. split; [reflexivity|]. split; [reflexivity|]. split; [reflexivity|].
  split; [|split].
  - intros x Hx Ht. unfold reference_of. by rewrite (usable_Some _ x Hx Ht).
  - intros y Hc Hy Ht. unfold reference_of. by rewrite Hc, (usable_Some _ y Hy Ht).
  - intros Hc Hp. unfold reference_of. rewrite Hc, Hp. split; [reflexivity|].
    intros p ->. apply percent_change_self.
Qed.

Lemma change_from_usable_reference_witness :
  rateLimitedUntil initial
    <= DateNow (env_answering (quote_ok meta_chart_close)) (clockReads initial) /\
  exists q ch,
    outcome_of
      (fetchStockQuote sample_config (env_answering (quote_ok meta_chart_close))
         "AAPL" "Apple" "AAPL") initial = Returned q /\
    MarketData.price q = Number 110 /\
    MarketData.change q = Some ch /\
    ch = 10%float.
Proof.
  assert (H : rateLimitedUntil initial
              <= DateNow (env_answering (quote_ok meta_chart_close)) (clockReads initial))
    by (simpl; lia).
  split; [exact H|].
  destruct (change_from_usable_reference sample_config
              (env_answering (quote_ok meta_chart_close)) "AAPL" "Apple" "AAPL" initial
              {| status := 200; ok := true; json := JsonValue (body_of meta_chart_close) |}
              (body_of meta_chart_close)
              {| result := Some [ {| meta := Some meta_chart_close |} ] |}
              {| meta := Some meta_chart_close |} [] meta_chart_close
              H eq_refl ltac:(simpl; lia) eq_refl eq_refl eq_refl eq_refl eq_refl)
    as (q & ch & Hout & Hprice & Hchange & Hch & _).
  exists q, ch. split; [exact Hout|]. split; [exact Hprice|]. split; [exact Hchange|].
  rewrite Hch. vm_compute. reflexivity.
Defined.

(** C7 as stated fails: with a chart-specific previous close that is present
    and zero and a generic previous close of 100, a price of 110 comes back
    with a change of 10, measured against the generic field, whereas the
    change measured against the field that is present is infinite.  And a
    price of zero with neither field present, measured against itself, comes
    back with a change that is NaN rather than zero. *)
Lemma reference_counterexample :
  outcome_of
    (fetchStockQuote sample_config (env_answering (quote_ok meta_zero_close))
       "AAPL" "Apple" "AAPL") initial
    = Returned (priced AAPL 110 10) /\
  chartPreviousClose meta_zero_close = Some 0%float /\
  reference_when_present meta_zero_close = Number 0 /\
  percent_change (to_number (regularMarketPrice meta_zero_close))
    (to_number (reference_when_present meta_zero_close)) = infinity /\
  PrimFloat.eqb 10 infinity = false /\
  outcome_of
    (fetchStockQuote sample_config (env_answering (quote_ok meta_worthless))
       "AAPL" "Apple" "AAPL") initial
    = Returned (priced AAPL 0 nan) /\
  PrimFloat.eqb nan 0 = false.
Proof.
  split; [vm_compute; reflexivity|]. split; [reflexivity|]. split; [reflexivity|].
  split; [vm_compute; reflexivity|]. split; [reflexivity|].
  split; [vm_compute; reflexivity | reflexivity].
Qed.

(** C9: a previous-close field that is present but falsy (zero of either sign,
    or NaN) counts as absent.  With such a chart-specific previous close the
    reference is the generic previous close, or the price when that one is
    absent or falsy in turn; the quote is the one computed from the same
    metadata without the chart-specific field. *)
Theorem falsy_close_is_skipped cfg env symbol name display w r data c cr rs m x :
  rateLimitedUntil w <= DateNow env (clockReads w) ->
  quoteReply env (requestsSent w) (yahooFinance cfg symbol) = Resolves r ->
  status r <> 429 ->
  ok r = true ->
  json r = JsonValue data ->
  chart data = Some c ->
  result c = Some (cr :: rs) ->
  meta cr = Some m ->
  chartPreviousClose m = Some x ->
  truthy x = false ->
  (is_zero x = true \/ is_nan x = true) /\
  truthy 0%float = false /\ truthy (-0)%float = false /\ truthy nan = false /\
  outcome_of (fetchStockQuote cfg env symbol name display) w =
    Returned
      {| MarketData.symbol := symbol; MarketData.name := name;
         MarketData.display := display;
         MarketData.price := regularMarketPrice m;
         MarketData.change :=
           Some (percent_change (to_number (regularMarketPrice m))
                   (to_number
                      match previousClose m with
                      | Some y => if truthy y then Number y else regularMarketPrice m
                      | None => regularMarketPrice m
                      end));
         MarketData.rateLimited := None |} /\
  reference_of m =
    reference_of {| regularMarketPrice := regularMarketPrice m;
                    chartPreviousClose := None;
                    previousClose := previousClose m |}.
Proof.
  intros Hclear Hreply Hstatus Hok Hjson Hchart Hresult Hmeta Hx Hfalsy.
  assert (Href : reference_of m =
    match previousClose m with
    | Some y => if truthy y then Number y else regularMarketPrice m
    | None => regularMarketPrice m
    end).
  { unfold reference_of. rewrite (usable_falsy _ x Hx Hfalsy). unfold usable.
    destruct (previousClose m) as [y|]; [|reflexivity]. by destruct (truthy y). }
  split.
  { unfold truthy in Hfalsy. apply negb_false_iff, orb_true_iff in Hfalsy. exact Hfalsy. }
  do 3 (split; [reflexivity|]). split.
  - rewrite <- Href.
    exact (fetchStockQuote_parsed cfg env symbol name display w r data c cr rs m
             Hclear Hreply Hstatus Hok Hjson Hchart Hresult Hmeta).
  - rewrite Href. unfold reference_of, usable. simpl.
    destruct (previousClose m) as [y|]; [|reflexivity]. by destruct (truthy y).
Qed.

Lemma falsy_close_is_skipped_witness :
  chartPreviousClose meta_zero_close = Some 0%float /\
  truthy 0%float = false /\
  outcome_of
    (fetchStockQuote sample_config (env_answering (quote_ok meta_zero_close))
       "AAPL" "Apple" "AAPL") initial
    = Returned (priced AAPL 110 10).
Proof.
  split; [reflexivity|]. split; [reflexivity|].
  exact (proj1 (proj2 (proj2 (proj2 (proj2
    (falsy_close_is_skipped sample_config (env_answering (quote_ok meta_zero_close))
       "AAPL" "Apple" "AAPL" initial
       {| status := 200; ok := true; json := JsonValue (body_of meta_zero_close) |}
       (body_of meta_zero_close)
       {| result := Some [ {| meta := Some meta_zero_close |} ] |}
       {| meta := Some meta_zero_close |} [] meta_zero_close 0%float
       ltac:(simpl; lia) eq_refl ltac:(simpl; lia) eq_refl eq_refl eq_refl eq_refl eq_refl
       eq_refl eq_refl)))))).
Defined.

(** ** [fetchCrypto] *)

Lemma fetchCrypto_run cfg env w :
  outcome_of (fetchCrypto cfg env) w =
    Returned
      match cryptoReply env (requestsSent w) (coingecko cfg) with
      | Rejects _ => []
      | Resolves r =>
          if ok r then
            match json r with
            | JsonThrows _ => []
            | JsonValue data =>
                map (fun entry : string * CryptoInfo.t =>
                       {| CryptoData.name := CryptoInfo.name entry.2;
                          CryptoData.symbol := CryptoInfo.symbol entry.2;
                          CryptoData.price := default 0%float (data !! entry.1 ≫= usd);
                          CryptoData.change :=
                            default 0%float (data !! entry.1 ≫= usd_24h_change) |})
                    (CRYPTO_MAP cfg)
            end
          else []
      end.
Proof.
  unfold outcome_of, fetchCrypto, try_catch, bind, fetchWithProxy, await, await_json; simpl.
  destruct (cryptoReply env (requestsSent w) (coingecko cfg)) as [e | r]; simpl; [reflexivity|].
  destruct (ok r); simpl; [|reflexivity].
  destruct (json r); reflexivity.
Qed.

(** C8: [fetchCrypto] never throws.  On a successful response whose body
    parses, it returns one entry per entry of [CRYPTO_MAP], in the same order,
    with the configured name and symbol; an id the body lacks gets price 0 and
    change 0.  When the call rejects, the response is not ok, or the body fails
    to parse, it returns the empty list. *)
Theorem fetchCrypto_entries cfg env w :
  exists quotes,
    outcome_of (fetchCrypto cfg env) w = Returned quotes /\
    (forall r data,
       cryptoReply env (requestsSent w) (coingecko cfg) = Resolves r ->
       ok r = true -> json r = JsonValue data ->
       length quotes = length (CRYPTO_MAP cfg) /\
       forall i id info,
         CRYPTO_MAP cfg !! i = Some (id, info) ->
         exists q,
           quotes !! i = Some q /\
           CryptoData.name q = CryptoInfo.name info /\
           CryptoData.symbol q = CryptoInfo.symbol info /\
           (data !! id = None ->
            CryptoData.price q = 0%float /\ CryptoData.change q = 0%float) /\
           (forall coin, data !! id = Some coin ->
            CryptoData.price q = default 0%float (usd coin) /\
            CryptoData.change q = default 0%float (usd_24h_change coin))) /\
    (forall e,
       cryptoReply env (requestsSent w) (coingecko cfg) = Rejects e -> quotes = []) /\
    (forall r,
       cryptoReply env (requestsSent w) (coingecko cfg) = Resolves r ->
       ok r = false -> quotes = []) /\
    (forall r e,
       cryptoReply env (requestsSent w) (coingecko cfg) = Resolves r ->
       json r = JsonThrows e -> quotes = []).
Proof.
  eexists. split; [apply fetchCrypto_run|].
  split; [|split; [|split]].
  - intros r data -> -> ->. split; [by rewrite length_map|].
    intros i id info Hi. rewrite list_lookup_fmap, Hi. simpl.
    eexists. split; [reflexivity|]. simpl.
    split; [reflexivity|]. split; [reflexivity|]. split.
    + by intros ->.
    + by intros coin ->.
  - by intros e ->.
  - by intros r -> ->.
  - intros r e -> ->. by destruct (ok r).
Qed.

(** ** One quote *)

Lemma TypeError_is_no_signal :
  includes "429" (new_TypeError "result") = false /\
  includes "429" (new_TypeError "0") = false.
Proof. split; reflexivity. Qed.

Ltac settle_case :=
  eexists _, _, _; split; [reflexivity|];
  unfold settles, target_of, sound_quote, kept_quote; simpl;
  repeat split; eauto 10; try discriminate;
  repeat constructor.

(** Handling a reply never throws, and trips the guard exactly when the
    reply is a rate-limit signal. *)
Lemma fetchStockQuote_resume_run env symbol name display id url w :
  exists q w' ev,
    fetchStockQuote_resume env symbol name display (InFlight id url) w
      = (Returned q, w', ev) /\
    settles env symbol name display id url w q w' ev.
Proof.
  unfold fetchStockQuote_resume, try_catch, bind, await, await_json, read_meta.
  unfold settles, signals_rate_limit.
  destruct (quoteReply env id url) as [e | r].
  - simpl. destruct (includes "429" e) eqn:He; simpl; settle_case.
  - simpl. destruct (status r =? 429) eqn:Hs; simpl; [settle_case|].
    destruct (ok r) eqn:Hok; simpl.
    + destruct (json r) as [e | data]; simpl.
      * destruct (includes "429" e) eqn:He; simpl; settle_case.
      * destruct (chart data) as [c|]; simpl; [|settle_case].
        destruct (result c) as [[|cr rs]|]; simpl; [settle_case | | settle_case].
        destruct (meta cr) as [m|]; simpl; [|settle_case].
        eexists _, _, _. split; [reflexivity|].
        unfold target_of, sound_quote, kept_quote; simpl.
        split; [reflexivity|]. split.
        { destruct (regularMarketPrice m) as [p| |].
          - right. repeat split; eauto; discriminate.
          - left. split; [reflexivity|]. by intros [p Hp].
          - right. repeat split; eauto; discriminate. }
        repeat split; try discriminate; repeat constructor.
    + match goal with
      | |- context [includes ?a ?b] => destruct (includes a b) eqn:He
      end; simpl; settle_case.
Qed.

Arguments new_Error : simpl never.

Lemma requestsOf_none evs : Forall not_request evs -> requestsOf evs = [].
Proof.
  induction 1 as [|e evs He _ IH]; [reflexivity|].
  destruct e; [contradiction | exact IH | exact IH | exact IH].
Qed.

Lemma requestsOf_app evs1 evs2 :
  requestsOf (evs1 ++ evs2) = requestsOf evs1 ++ requestsOf evs2.
Proof. apply omap_app. Qed.

Lemma delaysOf_none evs : Forall not_delay evs -> delaysOf evs = [].
Proof.
  induction 1 as [|e evs He _ IH]; [reflexivity|].
  destruct e; [exact IH | exact IH | contradiction | exact IH].
Qed.

Lemma delaysOf_app evs1 evs2 :
  delaysOf (evs1 ++ evs2) = delaysOf evs1 ++ delaysOf evs2.
Proof. apply omap_app. Qed.

Lemma run_parts {A} (m : M A) w r w' ev :
  m w = (r, w', ev) ->
  outcome_of m w = r /\ world_after m w = w' /\ events_of m w = ev.
Proof. intros H. unfold outcome_of, world_after, events_of. by rewrite H. Qed.

(** The run of [fetchStockQuote] past the guard: one request, then the reply
    is handled. *)
Lemma fetchStockQuote_clear_run cfg env symbol name display w :
  rateLimitedUntil w <= DateNow env (clockReads w) ->
  exists q w' ev,
    fetchStockQuote cfg env symbol name display w
      = (Returned q, w', Request (yahooFinance cfg symbol) :: ev) /\
    settles env symbol name display (requestsSent w) (yahooFinance cfg symbol)
      (world_after (fetchWithProxy (yahooFinance cfg symbol))
         (world_after (Date_now env) w)) q w' ev.
Proof.
  intros Hclear.
  destruct (fetchStockQuote_resume_run env symbol name display (requestsSent w)
              (yahooFinance cfg symbol)
              (world_after (fetchWithProxy (yahooFinance cfg symbol))
                 (world_after (Date_now env) w))) as (q & w' & ev & Hrun & Hq).
  exists q, w', ev. split; [|exact Hq].
  unfold fetchStockQuote.
  rewrite (bind_Returned _ _ _ _ _ _
             (fetchStockQuote_start_clear cfg env symbol name display w Hclear)).
  destruct (run_parts _ _ _ _ _ Hrun) as (-> & -> & ->). reflexivity.
Qed.

(** The run of [fetchStockQuote] under cooldown (lines 48-50). *)
Lemma fetchStockQuote_limited_run cfg env symbol name display w :
  DateNow env (clockReads w) < rateLimitedUntil w ->
  fetchStockQuote cfg env symbol name display w =
    (Returned {| MarketData.symbol := symbol; MarketData.name := name;
                 MarketData.display := display; MarketData.price := Null;
                 MarketData.change := None; MarketData.rateLimited := None |},
     world_after (Date_now env) (world_after (Date_now env) w),
     [Console (WarnRateLimited
        (ceil_div (rateLimitedUntil w - DateNow env (S (clockReads w))) 1000))]).
Proof.
  intros Hlim.
  assert (Hstart : fetchStockQuote_start cfg env symbol name display w =
    (Returned (Settled
       {| MarketData.symbol := symbol; MarketData.name := name;
          MarketData.display := display; MarketData.price := Null;
          MarketData.change := None; MarketData.rateLimited := None |}),
     world_after (Date_now env) (world_after (Date_now env) w),
     [Console (WarnRateLimited
        (ceil_div (rateLimitedUntil w - DateNow env (S (clockReads w))) 1000))])).
  { unfold fetchStockQuote_start.
    rewrite (bind_Returned _ _ _ _ _ _ (isRateLimited_limited env w Hlim)). reflexivity. }
  unfold fetchStockQuote. rewrite (bind_Returned _ _ _ _ _ _ Hstart). reflexivity.
Qed.

(** C2, amended: whatever the inputs and whatever the transport does (a reply
    of any status, a rejection, a body that fails to parse or lacks the
    expected levels), [fetchStockQuote] returns instead of throwing, and the
    record it returns repeats [symbol], [name] and [display]; its [change] is
    [null] only together with its [price]; and its [price] and [change] are
    both numbers or both [null] whenever the body of the reply, if it parses
    down to metadata, carries a [regularMarketPrice] that is a number, as the
    interface declares. *)
Theorem fetchStockQuote_total cfg env symbol name display w :
  exists q,
    outcome_of (fetchStockQuote cfg env symbol name display) w = Returned q /\
    MarketData.symbol q = symbol /\
    MarketData.name q = name /\
    MarketData.display q = display /\
    (MarketData.change q = None -> MarketData.price q = Null) /\
    (declared_price (quoteReply env (requestsSent w) (yahooFinance cfg symbol)) ->
     (MarketData.price q = Null /\ MarketData.change q = None) \/
     (exists p c, MarketData.price q = Number p /\ MarketData.change q = Some c)).
Proof.
  destruct (Z.lt_ge_cases (DateNow env (clockReads w)) (rateLimitedUntil w)) as [Hlim | Hclear].
  - eexists.
    destruct (run_parts _ _ _ _ _
                (fetchStockQuote_limited_run cfg env symbol name display w Hlim))
      as (-> & _ & _).
    split; [reflexivity|]. simpl. do 4 (split; [reflexivity|]). intros _. by left.
  - destruct (fetchStockQuote_clear_run cfg env symbol name display w Hclear)
      as (q & w' & ev & Hrun & Htarget & Hsound & _).
    destruct (run_parts _ _ _ _ _ Hrun) as (-> & _ & _).
    exists q. split; [reflexivity|].
    unfold target_of in Htarget. injection Htarget as -> -> ->.
    do 3 (split; [reflexivity|]). split.
    + intros Hchange. destruct Hsound as [[Hp _] | (_ & [c Hc] & _)]; [exact Hp | congruence].
    + intros Htyped. destruct Hsound as [[Hp Hc] | (_ & [c Hc] & _ & Hp)].
      * left. split; [exact Hp | by apply Hc].
      * right. destruct (Hp Htyped) as [p Hp']. by exists p, c.
Qed.

Lemma fetchStockQuote_total_witness :
  declared_price
    (quoteReply (env_answering (quote_ok meta_chart_close)) (requestsSent initial)
       (yahooFinance sample_config "AAPL")) /\
  exists q,
    outcome_of
      (fetchStockQuote sample_config (env_answering (quote_ok meta_chart_close))
         "AAPL" "Apple" "AAPL") initial = Returned q /\
    MarketData.symbol q = "AAPL" /\
    ((MarketData.price q = Null /\ MarketData.change q = None) \/
     (exists p c, MarketData.price q = Number p /\ MarketData.change q = Some c)).
Proof.
  assert (H : declared_price
    (quoteReply (env_answering (quote_ok meta_chart_close)) (requestsSent initial)
       (yahooFinance sample_config "AAPL"))) by (simpl; by eexists).
  split; [exact H|].
  destruct (fetchStockQuote_total sample_config (env_answering (quote_ok meta_chart_close))
              "AAPL" "Apple" "AAPL" initial) as (q & Hout & Hsymbol & _ & _ & _ & Hboth).
  exists q. split; [exact Hout|]. split; [exact Hsymbol | exact (Hboth H)].
Defined.

(** C2 as stated fails on a body whose metadata lacks a numeric price, which
    lines 69-73 do not check.  Without [regularMarketPrice] the quote comes
    back with an [undefined] price and a change that is NaN; with a [null]
    [regularMarketPrice] and a previous close of 100 it comes back with a
    [null] price and a change of -100.  Neither has price and change both
    numbers or both [null]. *)
Lemma undeclared_price_counterexample :
  outcome_of
    (fetchStockQuote sample_config (env_answering (quote_ok meta_no_price))
       "AAPL" "Apple" "AAPL") initial
    = Returned {| MarketData.symbol := "AAPL"; MarketData.name := "Apple";
                  MarketData.display := "AAPL"; MarketData.price := Undefined;
                  MarketData.change := Some nan; MarketData.rateLimited := None |} /\
  outcome_of
    (fetchStockQuote sample_config (env_answering (quote_ok meta_null_price))
       "AAPL" "Apple" "AAPL") initial
    = Returned {| MarketData.symbol := "AAPL"; MarketData.name := "Apple";
                  MarketData.display := "AAPL"; MarketData.price := Null;
                  MarketData.change := Some (-100)%float;
                  MarketData.rateLimited := None |}.
Proof. split; vm_compute; reflexivity. Qed.

(** * Further properties *)

(** ** The guard and one quote *)

(** X1: past the guard, [fetchStockQuote] sends exactly one request, for the
    URL of the symbol, and returns a quote that carries the rate-limited flag
    exactly when the reply is a rate-limit signal (status 429, or a failure
    whose text contains "429"); a flagged quote has neither price nor change.
    The guard is triggered exactly then, with the clock reading that follows
    the guard's own; otherwise the expiry is left as it was.  The cache is
    never written. *)
Theorem guard_trips_exactly_on_signal cfg env symbol name display w :
  rateLimitedUntil w <= DateNow env (clockReads w) ->
  exists q,
    outcome_of (fetchStockQuote cfg env symbol name display) w = Returned q /\
    flagged q
      = signals_rate_limit (quoteReply env (requestsSent w) (yahooFinance cfg symbol)) /\
    (flagged q = true ->
     MarketData.price q = Null /\ MarketData.change q = None) /\
    rateLimitedUntil (world_after (fetchStockQuote cfg env symbol name display) w)
      = (if signals_rate_limit (quoteReply env (requestsSent w) (yahooFinance cfg symbol))
         then DateNow env (S (clockReads w)) + 300000
         else rateLimitedUntil w) /\
    lastSuccessfulResults (world_after (fetchStockQuote cfg env symbol name display) w)
      = lastSuccessfulResults w /\
    requestsOf (events_of (fetchStockQuote cfg env symbol name display) w)
      = [yahooFinance cfg symbol].
Proof.
  intros Hclear.
  destruct (fetchStockQuote_clear_run cfg env symbol name display w Hclear)
    as (q & w' & ev & Hrun & Hq).
  destruct Hq as (_ & _ & Hflag & Hnull & Huntil & _ & Hcache & _ & _ & Hreq & _ & _).
  exists q. unfold outcome_of, world_after, events_of. rewrite Hrun. simpl.
  split; [reflexivity|].
  assert (Hf : flagged q
    = signals_rate_limit (quoteReply env (requestsSent w) (yahooFinance cfg symbol))).
  { unfold flagged. rewrite Hflag. by destruct (signals_rate_limit _). }
  split; [exact Hf|]. split; [intros H; apply Hnull; by rewrite <- Hf|].
  split; [exact Huntil|]. split; [exact Hcache|].
  change (requestsOf (Request (yahooFinance cfg symbol) :: ev))
    with (yahooFinance cfg symbol :: requestsOf ev).
  by rewrite (requestsOf_none _ Hreq).
Qed.

Lemma guard_trips_exactly_on_signal_witness :
  rateLimitedUntil after_first_chunk
    <= DateNow sample_env (clockReads after_first_chunk) /\
  exists q,
    outcome_of (fetchStockQuote sample_config sample_env "NVDA" "Nvidia" "NVDA")
      after_first_chunk = Returned q /\
    flagged q = true /\
    rateLimitedUntil
      (world_after (fetchStockQuote sample_config sample_env "NVDA" "Nvidia" "NVDA")
         after_first_chunk) = 301005.
Proof.
  assert (H : rateLimitedUntil after_first_chunk
              <= DateNow sample_env (clockReads after_first_chunk)) by (simpl; lia).
  split; [exact H|].
  destruct (guard_trips_exactly_on_signal sample_config sample_env "NVDA" "Nvidia" "NVDA"
              after_first_chunk H) as (q & Hout & Hflag & _ & Huntil & _).
  exists q. split; [exact Hout|]. split; [exact Hflag | exact Huntil].
Defined.

(** No status from 0 to 999 other than 429 renders to an error text that
    contains "429". *)
Lemma ordinary_status_is_no_signal s :
  0 <= s <= 999 -> s <> 429 ->
  includes "429" (new_Error (String.append "HTTP " (render_int s))) = false.
Proof.
  intros Hs Hne.
  assert (H : forallb
    (fun s => (s =? 429)
              || negb (includes "429" (new_Error (String.append "HTTP " (render_int s)))))
    (seqZ 0 1000) = true) by (vm_compute; reflexivity).
  rewrite forallb_forall in H. specialize (H s).
  assert (Hin : In s (seqZ 0 1000)) by (apply list_elem_of_In, elem_of_seqZ; lia).
  specialize (H Hin). apply orb_true_iff in H. destruct H as [H | H].
  - apply Z.eqb_eq in H. contradiction.
  - by apply negb_true_iff in H.
Qed.

(** X2: past the guard, a response that is not ok and whose status is any of
    0..999 but 429 gives the quote without price, change and flag; the failure
    is logged as "Error: HTTP <status>"; the guard and the cache are left as
    they were (the run reads the clock once and sends one request). *)
Theorem failed_response_leaves_guard cfg env symbol name display w r :
  rateLimitedUntil w <= DateNow env (clockReads w) ->
  quoteReply env (requestsSent w) (yahooFinance cfg symbol) = Resolves r ->
  ok r = false ->
  0 <= status r <= 999 ->
  status r <> 429 ->
  fetchStockQuote cfg env symbol name display w =
    (Returned {| MarketData.symbol := symbol; MarketData.name := name;
                 MarketData.display := display; MarketData.price := Null;
                 MarketData.change := None; MarketData.rateLimited := None |},
     {| rateLimitedUntil := rateLimitedUntil w;
        lastSuccessfulResults := lastSuccessfulResults w;
        clockReads := S (clockReads w); requestsSent := S (requestsSent w);
        randomDraws := randomDraws w |},
     [Request (yahooFinance cfg symbol);
      Console (ErrorFailedFetch symbol
                 (String.append "Error: HTTP " (render_int (status r))))]).
Proof.
  intros Hclear Hreply Hok Hrange Hne.
  pose proof (ordinary_status_is_no_signal (status r) Hrange Hne) as Hmsg.
  apply Z.eqb_neq in Hne.
  unfold fetchStockQuote.
  rewrite (bind_Returned _ _ _ _ _ _
             (fetchStockQuote_start_clear cfg env symbol name display w Hclear)).
  unfold outcome_of, world_after, events_of, fetchStockQuote_resume, try_catch, bind, await.
  simpl. rewrite Hreply. simpl. rewrite Hne, Hok. simpl. simpl in Hmsg.
  rewrite Hmsg. reflexivity.
Qed.

Lemma failed_response_leaves_guard_witness :
  fetchStockQuote sample_config (env_answering (http_status 503)) "AAPL" "Apple" "AAPL"
    initial =
    (Returned {| MarketData.symbol := "AAPL"; MarketData.name := "Apple";
                 MarketData.display := "AAPL"; MarketData.price := Null;
                 MarketData.change := None; MarketData.rateLimited := None |},
     {| rateLimitedUntil := 0; lastSuccessfulResults := [];
        clockReads := 1; requestsSent := 1; randomDraws := 0 |},
     [Request "/api/yahoo-finance?symbol=AAPL";
      Console (ErrorFailedFetch "AAPL" "Error: HTTP 503")]).
Proof.
  exact (failed_response_leaves_guard sample_config (env_answering (http_status 503))
           "AAPL" "Apple" "AAPL" initial
           {| status := 503; ok := false;
              json := JsonThrows "SyntaxError: Unexpected end of JSON input" |}
           ltac:(simpl; lia) eq_refl eq_refl ltac:(simpl; lia) ltac:(simpl; lia)).
Defined.

(** X3: the circuit breaker closes the circuit.  Once a call of
    [fetchStockQuote] got a rate-limit signal, any later call made while the
    expiry it stored stands, at a clock reading less than 300000 ms after the
    reading the trigger took, returns the quote without price and flag and
    sends no request. *)
Theorem signal_blocks_next_call cfg env symbol name display w w2 symbol' name' display' :
  rateLimitedUntil w <= DateNow env (clockReads w) ->
  signals_rate_limit (quoteReply env (requestsSent w) (yahooFinance cfg symbol)) = true ->
  rateLimitedUntil w2
    = rateLimitedUntil (world_after (fetchStockQuote cfg env symbol name display) w) ->
  DateNow env (clockReads w2) < DateNow env (S (clockReads w)) + 300000 ->
  outcome_of (fetchStockQuote cfg env symbol' name' display') w2 =
    Returned {| MarketData.symbol := symbol'; MarketData.name := name';
                MarketData.display := display'; MarketData.price := Null;
                MarketData.change := None; MarketData.rateLimited := None |} /\
  requestsOf (events_of (fetchStockQuote cfg env symbol' name' display') w2) = [] /\
  requestsSent (world_after (fetchStockQuote cfg env symbol' name' display') w2)
    = requestsSent w2 /\
  rateLimitedUntil (world_after (fetchStockQuote cfg env symbol' name' display') w2)
    = rateLimitedUntil w2.
Proof.
  intros Hclear Hsignal Hw2 Hnow.
  destruct (fetchStockQuote_clear_run cfg env symbol name display w Hclear)
    as (q & w' & ev & Hrun & Hq).
  destruct Hq as (_ & _ & _ & _ & Huntil & _).
  rewrite Hsignal in Huntil. simpl in Huntil.
  destruct (run_parts _ _ _ _ _ Hrun) as (_ & Hw' & _).
  rewrite Hw', Huntil in Hw2. change COOLDOWN_MS with 300000 in Hw2.
  assert (Hlim : DateNow env (clockReads w2) < rateLimitedUntil w2) by lia.
  pose proof (fetchStockQuote_limited_run cfg env symbol' name' display' w2 Hlim) as Hrun2.
  destruct (run_parts _ _ _ _ _ Hrun2) as (-> & -> & ->). done.
Qed.

Lemma signal_blocks_next_call_witness :
  signals_rate_limit
    (quoteReply sample_env (requestsSent after_first_chunk)
       (yahooFinance sample_config "NVDA")) = true /\
  outcome_of (fetchStockQuote sample_config sample_env "AMZN" "Amazon" "AMZN")
    (world_after (fetchStockQuote sample_config sample_env "NVDA" "Nvidia" "NVDA")
       after_first_chunk) = Returned
    {| MarketData.symbol := "AMZN"; MarketData.name := "Amazon";
       MarketData.display := "AMZN"; MarketData.price := Null;
       MarketData.change := None; MarketData.rateLimited := None |} /\
  requestsOf
    (events_of (fetchStockQuote sample_config sample_env "AMZN" "Amazon" "AMZN")
       (world_after (fetchStockQuote sample_config sample_env "NVDA" "Nvidia" "NVDA")
          after_first_chunk)) = [].
Proof.
  split; [reflexivity|].
  destruct (signal_blocks_next_call sample_config sample_env "NVDA" "Nvidia" "NVDA"
              after_first_chunk
              (world_after (fetchStockQuote sample_config sample_env "NVDA" "Nvidia" "NVDA")
                 after_first_chunk) "AMZN" "Amazon" "AMZN"
              ltac:(simpl; lia) eq_refl eq_refl ltac:(vm_compute; reflexivity))
    as (Hout & Hreq & _).
  split; [exact Hout | exact Hreq].
Defined.

(** ** [fetchCrypto] and the guard *)

(** X4: [fetchCrypto] stands outside the circuit breaker.  Whatever the reply
    (a 429 included) and whatever the state of the guard, it sends exactly one
    request, to the crypto endpoint, never reads the clock, and leaves the
    expiry and the cache as they were; what it returns does not depend on the
    guard or the cache. *)
Theorem fetchCrypto_ignores_guard cfg env w :
  requestsOf (events_of (fetchCrypto cfg env) w) = [coingecko cfg] /\
  world_after (fetchCrypto cfg env) w =
    {| rateLimitedUntil := rateLimitedUntil w;
       lastSuccessfulResults := lastSuccessfulResults w;
       clockReads := clockReads w; requestsSent := S (requestsSent w);
       randomDraws := randomDraws w |} /\
  (forall w', requestsSent w' = requestsSent w ->
     outcome_of (fetchCrypto cfg env) w' = outcome_of (fetchCrypto cfg env) w).
Proof.
  split; [|split].
  - unfold events_of, fetchCrypto, try_catch, bind, fetchWithProxy, await, await_json.
    simpl. destruct (cryptoReply env (requestsSent w) (coingecko cfg)) as [e | r];
      simpl; [reflexivity|].
    destruct (ok r); simpl; [|reflexivity]. destruct (json r); reflexivity.
  - unfold world_after, fetchCrypto, try_catch, bind, fetchWithProxy, await, await_json.
    simpl. destruct (cryptoReply env (requestsSent w) (coingecko cfg)) as [e | r];
      simpl; [reflexivity|].
    destruct (ok r); simpl; [|reflexivity]. destruct (json r); reflexivity.
  - intros w' Hw'. rewrite !fetchCrypto_run, Hw'. reflexivity.
Qed.

(** ** The requests of a batch run *)

Lemma console_not_request evs : Forall console_only evs -> Forall not_request evs.
Proof. intros H. eapply Forall_impl; [exact H|]. by intros []. Qed.

Lemma console_not_onBatch evs : Forall console_only evs -> Forall not_onBatch evs.
Proof. intros H. eapply Forall_impl; [exact H|]. by intros []. Qed.

Lemma console_not_delay evs : Forall console_only evs -> Forall not_delay evs.
Proof. intros H. eapply Forall_impl; [exact H|]. by intros []. Qed.

Lemma console_isRateLimited env : emits console_only (isRateLimited env).
Proof. unfold isRateLimited. emits_structure. done. Qed.

Lemma console_triggerRateLimit env : emits console_only (triggerRateLimit env).
Proof. unfold triggerRateLimit. emits_structure. done. Qed.

#[local] Hint Resolve console_isRateLimited console_triggerRateLimit : frame.

Lemma console_fetchStockQuote_resume env symbol name display f :
  emits console_only (fetchStockQuote_resume env symbol name display f).
Proof.
  unfold fetchStockQuote_resume, await, await_json, read_meta.
  emits_structure; done.
Qed.

Lemma requests_within_silent {A} (m : M A) :
  emits not_request m -> requests_within [] m.
Proof. intros H w. by rewrite (requestsOf_none _ (H w)). Qed.

Lemma requests_within_console {A} (m : M A) :
  emits console_only m -> requests_within [] m.
Proof. intros H. apply requests_within_silent. intros w. apply console_not_request, H. Qed.

Lemma requests_within_weaken {A} (m : M A) urls urls' :
  urls `sublist_of` urls' -> requests_within urls m -> requests_within urls' m.
Proof. intros Hsub H w. etrans; [apply H | exact Hsub]. Qed.

Lemma requests_within_bind {A B} (m : M A) (k : A -> M B) urls1 urls2 :
  requests_within urls1 m -> (forall a, requests_within urls2 (k a)) ->
  requests_within (urls1 ++ urls2) (bind m k).
Proof.
  intros Hm Hk w. rewrite events_bind, requestsOf_app.
  apply sublist_app; [apply Hm|].
  destruct (outcome_of m w); [apply Hk | apply sublist_nil_l].
Qed.

Lemma requests_within_mapM {A B} (f : A -> M B) (g : A -> string) (l : list A) :
  (forall a, requests_within [g a] (f a)) -> requests_within (map g l) (mapM f l).
Proof.
  intros Hf. induction l as [|a l IH]; simpl.
  - intros w. apply sublist_nil_l.
  - apply (requests_within_weaken _ ([g a] ++ (map g l ++ [])));
      [by rewrite app_nil_r|].
    apply requests_within_bind; [apply Hf|]. intros b.
    apply requests_within_bind; [apply IH|]. intros bs w. apply sublist_nil_l.
Qed.

Lemma requests_fetchStockQuote_start cfg env symbol name display :
  requests_within [yahooFinance cfg symbol]
    (fetchStockQuote_start cfg env symbol name display).
Proof.
  unfold fetchStockQuote_start.
  change [yahooFinance cfg symbol] with ([] ++ [yahooFinance cfg symbol]).
  apply requests_within_bind; [apply requests_within_console, console_isRateLimited|].
  intros [|]; [intros w; apply sublist_nil_l|].
  cbv zeta. change [yahooFinance cfg symbol] with ([yahooFinance cfg symbol] ++ []).
  apply requests_within_bind; [by intros w|]. intros id w. apply sublist_nil_l.
Qed.

Lemma requests_Promise_all_quotes cfg env batch :
  requests_within (map (url_of cfg) batch) (Promise_all_quotes cfg env batch).
Proof.
  unfold Promise_all_quotes.
  rewrite <- (app_nil_r (map (url_of cfg) batch)).
  apply requests_within_bind.
  - apply requests_within_mapM. intros s. apply requests_fetchStockQuote_start.
  - intros flights. apply requests_within_console, emits_mapM.
    intros [s f]. apply console_fetchStockQuote_resume.
Qed.

Lemma requests_call_onBatch options results :
  requests_within [] (call_onBatch options results).
Proof.
  apply requests_within_silent. unfold call_onBatch.
  destruct (onBatch options); emits_structure. done.
Qed.

Lemma requests_pause env delayMs (go : bool) :
  requests_within []
    (if go then bind (Math_random env) (fun r => delay (delayMs + r * 1000)%float)
     else ret tt).
Proof. apply requests_within_silent. emits_structure. done. Qed.

Lemma requests_fetchBatches cfg env options delayMs len batches :
  forall index results,
    requests_within (map (url_of cfg) (concat batches))
      (fetchBatches cfg env options delayMs len index batches results).
Proof.
  induction batches as [|batch rest IH]; intros index results.
  - intros w. apply sublist_nil_l.
  - rewrite fetchBatches_cons. simpl concat. rewrite map_app.
    change (map (url_of cfg) batch ++ map (url_of cfg) (concat rest))
      with ([] ++ (map (url_of cfg) batch ++ map (url_of cfg) (concat rest))).
    apply requests_within_bind; [apply requests_within_console, console_isRateLimited|].
    intros [|]; [intros w; apply sublist_nil_l|].
    apply requests_within_bind; [apply requests_Promise_all_quotes|].
    intros batchResults. destruct (existsb flagged batchResults).
    { intros w. apply sublist_nil_l. }
    change (map (url_of cfg) (concat rest))
      with ([] ++ ([] ++ map (url_of cfg) (concat rest))).
    apply requests_within_bind; [apply requests_call_onBatch|]. intros _.
    apply requests_within_bind; [apply requests_pause|]. intros _. apply IH.
Qed.

(** X5: a run of [fetchMultipleStocks] requests nothing but the URLs of the
    symbols of its chunks, each at most once and in the order of the chunks
    (the requests form a subsequence of those URLs); in particular it sends
    no more requests than the chunks hold symbols. *)
Theorem requests_follow_symbols cfg env symbols options w :
  requestsOf (events_of (fetchMultipleStocks cfg env symbols options) w)
    `sublist_of`
    map (url_of cfg) (concat (chunkArray cfg symbols (default 2 (batchSize options)))) /\
  (length (requestsOf (events_of (fetchMultipleStocks cfg env symbols options) w))
   <= length (concat (chunkArray cfg symbols (default 2%Z (batchSize options)))))%nat.
Proof.
  assert (H : requestsOf (events_of (fetchMultipleStocks cfg env symbols options) w)
    `sublist_of`
    map (url_of cfg) (concat (chunkArray cfg symbols (default 2 (batchSize options))))).
  { revert w.
    change (requests_within
      (map (url_of cfg) (concat (chunkArray cfg symbols (default 2 (batchSize options)))))
      (fetchMultipleStocks cfg env symbols options)).
    unfold fetchMultipleStocks.
    change (map (url_of cfg) (concat (chunkArray cfg symbols (default 2 (batchSize options)))))
      with ([] ++ map (url_of cfg)
                    (concat (chunkArray cfg symbols (default 2 (batchSize options))))).
    apply requests_within_bind; [apply requests_within_console, console_isRateLimited|].
    intros [|].
    - intros w. rewrite events_bind. simpl.
      destruct (0 <? length (lastSuccessfulResults w))%nat; simpl;
        [|apply sublist_nil_l].
      rewrite (requestsOf_none (events_of _ _)); [apply sublist_nil_l|].
      apply (emits_bind not_request); [|intros ?; by apply emits_silent].
      unfold call_onBatch. destruct (onBatch options); emits_structure. done.
    - cbv zeta.
      rewrite <- (app_nil_r (map (url_of cfg) _)).
      apply requests_within_bind; [apply requests_fetchBatches|].
      intros results. apply requests_within_silent. unfold finish. emits_structure. }
  split; [exact H|]. apply sublist_length in H. by rewrite length_map in H.
Qed.

(** ** The quotes of a batch run *)

Lemma yields_mapM_Forall2 {A B} (f : A -> M B) (R : A -> B -> Prop) (l : list A) :
  (forall a, yields (f a) (R a)) -> yields (mapM f l) (Forall2 R l).
Proof.
  intros Hf. induction l as [|a l IH]; simpl.
  - apply yields_ret. constructor.
  - eapply yields_bind; [apply Hf|]. intros b Hb.
    eapply yields_bind; [apply IH|]. intros bs Hbs. apply yields_ret. by constructor.
Qed.

Lemma yields_mapM_zip {A B C} (f : A * B -> M C) (Rf : A -> B -> Prop)
    (Rq : A -> C -> Prop) (l : list A) (k : list B) :
  (forall a b, Rf a b -> yields (f (a, b)) (Rq a)) ->
  Forall2 Rf l k -> yields (mapM f (zip l k)) (Forall2 Rq l).
Proof.
  intros Hf H. induction H as [|a b l k Hab _ IH]; simpl.
  - apply yields_ret. constructor.
  - eapply yields_bind; [by apply Hf|]. intros c Hc.
    eapply yields_bind; [apply IH|]. intros cs Hcs. apply yields_ret. by constructor.
Qed.

Lemma sound_quote_weaken (typed typed' : Prop) q :
  (typed' -> typed) -> sound_quote typed q -> sound_quote typed' q.
Proof.
  intros H [[Hp Hc] | (Hp & Hc & Hf & Hn)].
  - left. split; [exact Hp | auto].
  - right. repeat split; auto.
Qed.

Lemma sound_null typed symbol name display flag :
  quote_answers typed (Target.mk symbol name display)
    {| MarketData.symbol := symbol; MarketData.name := name;
       MarketData.display := display; MarketData.price := Null;
       MarketData.change := None; MarketData.rateLimited := flag |}.
Proof. split; [reflexivity | by left]. Qed.

Lemma answers_fetchStockQuote_start typed cfg env symbol name display :
  yields (fetchStockQuote_start cfg env symbol name display)
    (flight_answers typed (Target.mk symbol name display)).
Proof.
  unfold fetchStockQuote_start. outcome_structure; try done. apply sound_null.
Qed.

Lemma answers_fetchStockQuote_resume env symbol name display f :
  flight_answers (declared env) (Target.mk symbol name display) f ->
  yields (fetchStockQuote_resume env symbol name display f)
    (quote_answers (declared env) (Target.mk symbol name display)).
Proof.
  intros Hf. destruct f as [q | id url].
  - by apply yields_ret.
  - intros w.
    destruct (fetchStockQuote_resume_run env symbol name display id url w)
      as (q & w' & ev & Hrun & Htarget & Hsound & _).
    exists q. destruct (run_parts _ _ _ _ _ Hrun) as (-> & _).
    split; [reflexivity|]. split; [exact Htarget|].
    eapply sound_quote_weaken; [|exact Hsound]. intros H. apply H.
Qed.

Lemma answers_Promise_all_quotes cfg env batch :
  yields (Promise_all_quotes cfg env batch) (Forall2 (quote_answers (declared env)) batch).
Proof.
  unfold Promise_all_quotes. eapply yields_bind.
  - apply (yields_mapM_Forall2 _ (flight_answers (declared env))).
    intros [symbol name display]. apply answers_fetchStockQuote_start.
  - intros flights Hflights.
    apply (yields_mapM_zip _ (flight_answers (declared env))); [|exact Hflights].
    intros [symbol name display] f Hf. by apply answers_fetchStockQuote_resume.
Qed.

Lemma Forall2_quote_answers typed batch rs :
  Forall2 (quote_answers typed) batch rs ->
  map target_of rs = batch /\ Forall (sound_quote typed) rs.
Proof.
  induction 1 as [|s q batch rs [Ht Hs] _ [IH1 IH2]]; [by split|].
  split; [simpl; by rewrite Ht, IH1 | by constructor].
Qed.

Lemma accumulates_fetchBatches cfg env options delayMs len batches :
  forall index results,
    yields (fetchBatches cfg env options delayMs len index batches results)
      (accumulates (declared env) batches results).
Proof.
  assert (Hstop : forall batches results, accumulates (declared env) batches results results).
  { intros bs results. exists []. rewrite app_nil_r.
    split; [reflexivity|]. split; [apply prefix_nil | constructor]. }
  induction batches as [|batch rest IH]; intros index results.
  - apply yields_ret, Hstop.
  - rewrite fetchBatches_cons.
    apply yields_bind_any; [apply isRateLimited_returns|].
    intros [|]; [apply yields_bind_any; [by intros ?; eexists | intros _; apply yields_ret, Hstop]|].
    eapply yields_bind; [apply answers_Promise_all_quotes|].
    intros batchResults Hbatch. apply Forall2_quote_answers in Hbatch as [Htargets Hsound].
    destruct (existsb flagged batchResults);
      [apply yields_bind_any; [by intros ?; eexists | intros _; apply yields_ret, Hstop]|].
    apply yields_bind_any; [apply call_onBatch_returns|]. intros _.
    apply yields_bind_any.
    { destruct (Z.of_nat index <? Z.of_nat len - 1); outcome_structure; done. }
    intros _. eapply yields_weaken; [|apply IH].
    intros r (more & -> & Hprefix & Hmore). exists (batchResults ++ more).
    split; [by rewrite app_assoc|]. split.
    + rewrite map_app, Htargets. simpl. by apply prefix_app.
    + by apply Forall_app.
Qed.

Lemma filter_sublist {A} (f : A -> bool) (l : list A) : List.filter f l `sublist_of` l.
Proof.
  induction l as [|a l IH]; simpl; [constructor|].
  destruct (f a); by constructor.
Qed.

Lemma prefix_sublist_of {A} (l k : list A) : l `prefix_of` k -> l `sublist_of` k.
Proof. intros [k' ->]. by apply sublist_inserts_r. Qed.

Lemma visible_sound_kept typed results :
  Forall (sound_quote typed) results ->
  Forall (kept_quote typed) (List.filter visible results).
Proof.
  induction 1 as [|q results Hq _ IH]; simpl; [constructor|].
  unfold visible at 1. destruct Hq as [[Hp _] | Hq].
  - by rewrite Hp.
  - destruct (MarketData.price q) eqn:Hp; [by constructor | | by constructor].
    destruct Hq as [Hq _]. by rewrite Hp in Hq.
Qed.

Lemma map_filter_visible_sublist results :
  map target_of (List.filter visible results) `sublist_of` map target_of results.
Proof. apply fmap_sublist, filter_sublist. Qed.

Lemma cache_finish results w w1 :
  lastSuccessfulResults w1 = lastSuccessfulResults w ->
  lastSuccessfulResults (world_after (finish results) w1) =
    match List.filter visible results with
    | [] => lastSuccessfulResults w
    | _ :: _ => List.filter visible results
    end.
Proof. intros <-. apply finish_run. Qed.

(** What a run of [fetchMultipleStocks] returns and leaves in the cache. *)
Lemma fetchMultipleStocks_summary cfg env symbols options w :
  exists returned,
    outcome_of (fetchMultipleStocks cfg env symbols options) w = Returned returned /\
    lastSuccessfulResults (world_after (fetchMultipleStocks cfg env symbols options) w) =
      match returned with
      | [] => lastSuccessfulResults w
      | _ :: _ => returned
      end /\
    (cache_clean (declared env) w -> Forall (kept_quote (declared env)) returned) /\
    (rateLimitedUntil w <= DateNow env (clockReads w) ->
     Forall (kept_quote (declared env)) returned /\
     map target_of returned `sublist_of`
       concat (chunkArray cfg symbols (default 2 (batchSize options)))).
Proof.
  destruct (Z.lt_ge_cases (DateNow env (clockReads w)) (rateLimitedUntil w)) as [Hlim | Hclear].
  - exists (lastSuccessfulResults w).
    destruct (run_parts _ _ _ _ _ (fetchMultipleStocks_limited cfg env symbols options w Hlim))
      as (-> & -> & _).
    split; [reflexivity|]. split; [simpl; by destruct (lastSuccessfulResults w)|].
    split; [by intros H | lia].
  - set (loop := fetchAllBatches cfg env symbols options).
    set (w0 := world_after (Date_now env) w).
    destruct (accumulates_fetchBatches cfg env options (default 3000%float (delayMs options))
      (length (chunkArray cfg symbols (default 2 (batchSize options))))
      (chunkArray cfg symbols (default 2 (batchSize options))) 0%nat [] w0)
      as (r & Hr & more & Hmore & Hprefix & Hsound).
    change (outcome_of loop w0 = Returned r) in Hr. simpl in Hmore. subst r.
    pose proof (cache_fetchBatches cfg env options (default 3000%float (delayMs options))
      (length (chunkArray cfg symbols (default 2 (batchSize options))))
      (chunkArray cfg symbols (default 2 (batchSize options))) 0%nat [] w0) as Hkeep.
    change (same_cache w0 (world_after loop w0)) in Hkeep. unfold same_cache in Hkeep.
    assert (Hrun : fetchMultipleStocks cfg env symbols options w =
      (outcome_of (finish more) (world_after loop w0),
       world_after (finish more) (world_after loop w0),
       events_of loop w0 ++ events_of (finish more) (world_after loop w0))).
    { rewrite (fetchMultipleStocks_clear cfg env symbols options w Hclear).
      fold loop. fold w0. apply bind_Returned.
      rewrite (run_eta loop w0), Hr. reflexivity. }
    destruct (run_parts _ _ _ _ _ Hrun) as (-> & -> & _).
    exists (List.filter visible more).
    split; [apply finish_run|].
    split; [rewrite (cache_finish more w _ Hkeep); by destruct (List.filter visible more)|].
    assert (Hkept : Forall (kept_quote (declared env)) (List.filter visible more))
      by (by apply visible_sound_kept).
    split; [by intros _|]. intros _. split; [exact Hkept|].
    etrans; [apply map_filter_visible_sublist | by apply prefix_sublist_of].
Qed.

(** X6: a run of [fetchMultipleStocks] that gets past the guard returns quotes
    for symbols of its chunks, in the order of the chunks and at most one per
    symbol (the targets of the returned quotes are a subsequence of the
    chunked symbols); every returned quote has a price that is not [null], a
    change that is a number and no rate-limited flag; and every returned price
    is a number when every reply is as declared. *)
Theorem returned_quotes_follow_symbols cfg env symbols options w :
  rateLimitedUntil w <= DateNow env (clockReads w) ->
  exists returned,
    outcome_of (fetchMultipleStocks cfg env symbols options) w = Returned returned /\
    map target_of returned `sublist_of`
      concat (chunkArray cfg symbols (default 2 (batchSize options))) /\
    Forall (fun q => MarketData.price q <> Null /\
                     (exists c, MarketData.change q = Some c) /\
                     MarketData.rateLimited q = None) returned /\
    (declared env -> Forall (fun q => exists p, MarketData.price q = Number p) returned).
Proof.
  intros Hclear.
  destruct (fetchMultipleStocks_summary cfg env symbols options w)
    as (returned & Hout & _ & _ & Hpast).
  destruct (Hpast Hclear) as [Hkept Hsub].
  exists returned. split; [exact Hout|]. split; [exact Hsub|]. split.
  - eapply Forall_impl; [exact Hkept|]. by intros q (Hp & Hc & Hf & _).
  - intros Htyped. eapply Forall_impl; [exact Hkept|]. intros q (_ & _ & _ & Hp). by apply Hp.
Qed.

Lemma returned_quotes_follow_symbols_witness :
  rateLimitedUntil initial <= DateNow sample_env (clockReads initial) /\
  exists returned,
    outcome_of
      (fetchMultipleStocks sample_config sample_env [AAPL; MSFT; NVDA; AMZN; META]
         with_callback) initial = Returned returned /\
    map target_of returned `sublist_of` [AAPL; MSFT; NVDA; AMZN; META] /\
    Forall (fun q => MarketData.price q <> Null /\
                     (exists c, MarketData.change q = Some c) /\
                     MarketData.rateLimited q = None) returned.
Proof.
  assert (H : rateLimitedUntil initial <= DateNow sample_env (clockReads initial))
    by (simpl; lia).
  split; [exact H|].
  destruct (returned_quotes_follow_symbols sample_config sample_env
              [AAPL; MSFT; NVDA; AMZN; META] with_callback initial H)
    as (returned & Hout & Hsub & Hkept & _).
  exists returned. split; [exact Hout|]. split; [exact Hsub | exact Hkept].
Defined.

(** ** The cache over the life of the module *)

Lemma cache_fetchStockQuote cfg env symbol name display :
  preserves same_cache (fetchStockQuote cfg env symbol name display).
Proof. unfold fetchStockQuote. preserves_structure. Qed.

Lemma cache_fetchCrypto cfg env : preserves same_cache (fetchCrypto cfg env).
Proof. unfold fetchCrypto. preserves_structure. Qed.

Lemma perform_keeps_clean cfg env op w :
  cache_clean (declared env) w -> cache_clean (declared env) (perform cfg env op w).
Proof.
  intros Hw. unfold cache_clean in *. destruct op; cbn [perform].
  - by rewrite (cache_isRateLimited env w).
  - by rewrite (cache_triggerRateLimit env w).
  - by rewrite (cache_fetchStockQuote cfg env symbol name display w).
  - destruct (fetchMultipleStocks_summary cfg env symbols options w)
      as (returned & _ & -> & Hkept & _).
    destruct returned; [exact Hw | by apply Hkept].
  - by rewrite (cache_fetchCrypto cfg env w).
Qed.

Lemma performAll_keeps_clean cfg env ops :
  cache_clean (declared env) (performAll cfg env ops initial).
Proof.
  induction ops as [|op ops IH] using rev_ind; [constructor|].
  rewrite performAll_snoc. by apply perform_keeps_clean.
Qed.

(** X7: whatever ran before (any sequence of the module's operations since
    load), every quote in the cache has a price that is not [null], a change
    that is a number and no rate-limited flag, and so has every quote a call
    of [fetchMultipleStocks] returns, on the cooldown path as on the fetching
    one; all these prices are numbers when every reply is as declared. *)
Theorem cache_holds_kept_quotes cfg env ops symbols options :
  Forall (fun q => MarketData.price q <> Null /\
                   (exists c, MarketData.change q = Some c) /\
                   MarketData.rateLimited q = None /\
                   (declared env -> exists p, MarketData.price q = Number p))
    (lastSuccessfulResults (performAll cfg env ops initial)) /\
  exists returned,
    outcome_of (fetchMultipleStocks cfg env symbols options)
      (performAll cfg env ops initial) = Returned returned /\
    Forall (fun q => MarketData.price q <> Null /\
                     (exists c, MarketData.change q = Some c) /\
                     MarketData.rateLimited q = None /\
                     (declared env -> exists p, MarketData.price q = Number p))
      returned.
Proof.
  pose proof (performAll_keeps_clean cfg env ops) as Hclean.
  split; [exact Hclean|].
  destruct (fetchMultipleStocks_summary cfg env symbols options
              (performAll cfg env ops initial)) as (returned & Hout & _ & Hkept & _).
  exists returned. split; [exact Hout | by apply Hkept].
Qed.

Lemma cache_holds_kept_quotes_witness :
  declared sample_env /\
  Forall (fun q => exists p, MarketData.price q = Number p)
    (lastSuccessfulResults
       (performAll sample_config sample_env
          [CallFetchMultipleStocks [AAPL; MSFT; NVDA; AMZN; META] with_callback;
           CallFetchCrypto] initial)).
Proof.
  assert (H : declared sample_env)
    by (intros [|[|[|[|id]]]] url; simpl; try exact I; by eexists).
  split; [exact H|].
  eapply Forall_impl;
    [exact (proj1 (cache_holds_kept_quotes sample_config sample_env
                     [CallFetchMultipleStocks [AAPL; MSFT; NVDA; AMZN; META] with_callback;
                      CallFetchCrypto] [] with_callback))|].
  intros q (_ & _ & _ & Hp). by apply Hp.
Defined.

(** X8: what a run returned is what a rate-limited run serves.  After a run of
    [fetchMultipleStocks] that returned a non-empty list, a call made while
    the guard is limited and the cache stands returns that same list, whatever
    symbols it is asked for, sends no request, and hands that list to its
    callback. *)
Theorem returned_list_is_served_under_cooldown
    cfg env symbols options w returned w2 symbols' options' :
  outcome_of (fetchMultipleStocks cfg env symbols options) w = Returned returned ->
  returned <> [] ->
  lastSuccessfulResults w2
    = lastSuccessfulResults (world_after (fetchMultipleStocks cfg env symbols options) w) ->
  DateNow env (clockReads w2) < rateLimitedUntil w2 ->
  outcome_of (fetchMultipleStocks cfg env symbols' options') w2 = Returned returned /\
  requestsOf (events_of (fetchMultipleStocks cfg env symbols' options') w2) = [] /\
  onBatchCalls (events_of (fetchMultipleStocks cfg env symbols' options') w2)
    = (if onBatch options' then [returned] else []).
Proof.
  intros Hout Hne Hcache Hlim.
  destruct (fetchMultipleStocks_summary cfg env symbols options w)
    as (returned' & Hout' & Hcache' & _).
  rewrite Hout in Hout'. injection Hout' as <-.
  rewrite Hcache' in Hcache.
  assert (Hw2 : lastSuccessfulResults w2 = returned) by (by destruct returned).
  destruct (run_parts _ _ _ _ _
              (fetchMultipleStocks_limited cfg env symbols' options' w2 Hlim))
    as (-> & _ & ->).
  rewrite Hw2. split; [reflexivity|].
  destruct returned as [|q returned]; [done|].
  destruct (onBatch options'); done.
Qed.

Lemma returned_list_is_served_under_cooldown_witness :
  outcome_of
    (fetchMultipleStocks sample_config sample_env [AAPL; MSFT; NVDA; AMZN; META]
       with_callback) initial = Returned [priced AAPL 110 10; priced MSFT 50 0] /\
  outcome_of (fetchMultipleStocks sample_config sample_env [META] with_callback)
    (world_after
       (fetchMultipleStocks sample_config sample_env [AAPL; MSFT; NVDA; AMZN; META]
          with_callback) initial)
    = Returned [priced AAPL 110 10; priced MSFT 50 0] /\
  requestsOf
    (events_of (fetchMultipleStocks sample_config sample_env [META] with_callback)
       (world_after
          (fetchMultipleStocks sample_config sample_env [AAPL; MSFT; NVDA; AMZN; META]
             with_callback) initial)) = [].
Proof.
  assert (H : outcome_of
    (fetchMultipleStocks sample_config sample_env [AAPL; MSFT; NVDA; AMZN; META]
       with_callback) initial = Returned [priced AAPL 110 10; priced MSFT 50 0])
    by (vm_compute; reflexivity).
  split; [exact H|].
  destruct (returned_list_is_served_under_cooldown sample_config sample_env
              [AAPL; MSFT; NVDA; AMZN; META] with_callback initial
              [priced AAPL 110 10; priced MSFT 50 0]
              (world_after
                 (fetchMultipleStocks sample_config sample_env
                    [AAPL; MSFT; NVDA; AMZN; META] with_callback) initial)
              [META] with_callback H ltac:(discriminate) eq_refl
              ltac:(vm_compute; reflexivity)) as (Hout & Hreq & _).
  split; [exact Hout | exact Hreq].
Defined.

(** ** Callbacks and pauses of a batch run *)

Lemma outcome_bind {A B} (m : M A) (k : A -> M B) w :
  outcome_of (bind m k) w =
    match outcome_of m w with
    | Returned a => outcome_of (k a) (world_after m w)
    | Threw e => Threw e
    end.
Proof.
  unfold outcome_of, world_after, bind.
  destruct (m w) as [[[a|e] w1] ev1]; simpl; [|reflexivity].
  by destruct (k a w1) as [[r w2] ev2].
Qed.

Lemma last_call_cons (x : list MarketData.t) calls (d : list MarketData.t) :
  default d (last (x :: calls)) = default x (last calls).
Proof. rewrite last_cons. by destruct (last calls). Qed.

Lemma fetchBatches_last_call cfg env options delayMs len batches :
  onBatch options = true ->
  forall index results w r,
    outcome_of (fetchBatches cfg env options delayMs len index batches results) w
      = Returned r ->
    List.filter visible r =
      default (List.filter visible results)
        (last (onBatchCalls
           (events_of (fetchBatches cfg env options delayMs len index batches results) w))).
Proof.
  intros Hcb. induction batches as [|batch rest IH]; intros index results w r Hr.
  - injection Hr as <-. reflexivity.
  - rewrite fetchBatches_cons in Hr |- *.
    rewrite outcome_bind in Hr. rewrite events_bind, onBatchCalls_app.
    rewrite (onBatchCalls_none _ (quiet_isRateLimited env w)), app_nil_l.
    destruct (outcome_of (isRateLimited env) w) as [[|]|e]; [| |discriminate].
    { injection Hr as <-. reflexivity. }
    rewrite outcome_bind in Hr. rewrite events_bind, onBatchCalls_app.
    rewrite (onBatchCalls_none _ (quiet_Promise_all_quotes cfg env batch _)), app_nil_l.
    destruct (outcome_of (Promise_all_quotes cfg env batch) _) as [batchResults|e];
      [|discriminate].
    destruct (existsb flagged batchResults).
    { injection Hr as <-. reflexivity. }
    rewrite outcome_bind in Hr. rewrite events_bind, onBatchCalls_app.
    unfold call_onBatch in Hr |- *. rewrite Hcb in Hr |- *.
    change (outcome_of (emit (OnBatch (List.filter visible (results ++ batchResults)))) ?w)
      with (@Returned unit tt) in Hr |- *.
    change (events_of (emit (OnBatch (List.filter visible (results ++ batchResults)))) ?w)
      with [OnBatch (List.filter visible (results ++ batchResults))].
    change (world_after (emit (OnBatch (List.filter visible (results ++ batchResults)))) ?w)
      with w in Hr |- *.
    rewrite outcome_bind in Hr. rewrite events_bind, onBatchCalls_app.
    rewrite (onBatchCalls_none _ (quiet_pause env delayMs _ _)), app_nil_l.
    destruct (outcome_of (if Z.of_nat index <? Z.of_nat len - 1 then _ else _) _);
      [|discriminate].
    change (onBatchCalls [OnBatch (List.filter visible (results ++ batchResults))])
      with [List.filter visible (results ++ batchResults)].
    rewrite <- app_comm_cons, app_nil_l, last_call_cons.
    by apply IH.
Qed.

Lemma fetchBatches_no_callback cfg env options delayMs len batches :
  onBatch options = false ->
  forall index results,
    emits not_onBatch (fetchBatches cfg env options delayMs len index batches results).
Proof.
  intros Hcb. induction batches as [|batch rest IH]; intros index results.
  - by apply emits_silent.
  - rewrite fetchBatches_cons.
    apply emits_bind; [apply quiet_isRateLimited|].
    intros [|]; [emits_structure; done|].
    apply emits_bind; [apply quiet_Promise_all_quotes|]. intros batchResults.
    destruct (existsb flagged batchResults); [emits_structure; done|].
    apply emits_bind.
    { unfold call_onBatch. rewrite Hcb. by apply emits_silent. }
    intros _. apply emits_bind; [apply quiet_pause | intros _; apply IH].
Qed.

(** X9: the list a run of [fetchMultipleStocks] returns is the argument of its
    last [onBatch] invocation, whenever it made one: the caller's last
    progress report is the final result. *)
Theorem last_callback_is_result cfg env symbols options w c :
  last (onBatchCalls (events_of (fetchMultipleStocks cfg env symbols options) w)) = Some c ->
  outcome_of (fetchMultipleStocks cfg env symbols options) w = Returned c.
Proof.
  destruct (Z.lt_ge_cases (DateNow env (clockReads w)) (rateLimitedUntil w)) as [Hlim | Hclear].
  - destruct (run_parts _ _ _ _ _ (fetchMultipleStocks_limited cfg env symbols options w Hlim))
      as (-> & _ & ->).
    destruct (lastSuccessfulResults w) as [|q cached]; [done|].
    destruct (onBatch options); [|done]. by intros [= <-].
  - set (loop := fetchAllBatches cfg env symbols options).
    set (w0 := world_after (Date_now env) w).
    destruct (fetchBatches_returns cfg env options (default 3000%float (delayMs options))
      (length (chunkArray cfg symbols (default 2 (batchSize options))))
      (chunkArray cfg symbols (default 2 (batchSize options))) 0%nat [] w0)
      as (r & Hr & _).
    change (outcome_of loop w0 = Returned r) in Hr.
    assert (Hrun : fetchMultipleStocks cfg env symbols options w =
      (outcome_of (finish r) (world_after loop w0),
       world_after (finish r) (world_after loop w0),
       events_of loop w0 ++ events_of (finish r) (world_after loop w0))).
    { rewrite (fetchMultipleStocks_clear cfg env symbols options w Hclear).
      fold loop. fold w0. apply bind_Returned.
      rewrite (run_eta loop w0), Hr. reflexivity. }
    destruct (run_parts _ _ _ _ _ Hrun) as (-> & _ & ->).
    destruct (finish_run r (world_after loop w0)) as (-> & -> & _).
    rewrite app_nil_r. intros Hlast.
    destruct (onBatch options) eqn:Hcb.
    + pose proof (fetchBatches_last_call cfg env options
        (default 3000%float (delayMs options))
        (length (chunkArray cfg symbols (default 2 (batchSize options))))
        (chunkArray cfg symbols (default 2 (batchSize options))) Hcb 0%nat [] w0 r Hr)
        as Hfinal.
      change (events_of (fetchBatches _ _ _ _ _ _ _ _) w0) with (events_of loop w0) in Hfinal.
      rewrite Hlast in Hfinal. simpl in Hfinal. by rewrite Hfinal.
    + pose proof (fetchBatches_no_callback cfg env options
        (default 3000%float (delayMs options))
        (length (chunkArray cfg symbols (default 2 (batchSize options))))
        (chunkArray cfg symbols (default 2 (batchSize options))) Hcb 0%nat [] w0) as Hnone.
      change (Forall not_onBatch (events_of loop w0)) in Hnone.
      by rewrite (onBatchCalls_none _ Hnone) in Hlast.
Qed.

Lemma last_callback_is_result_witness :
  last (onBatchCalls
    (events_of
       (fetchMultipleStocks sample_config (env_answering (quote_ok meta_chart_close))
          [AAPL; MSFT; NVDA] with_callback) initial))
    = Some [priced AAPL 110 10; priced MSFT 110 10; priced NVDA 110 10] /\
  outcome_of
    (fetchMultipleStocks sample_config (env_answering (quote_ok meta_chart_close))
       [AAPL; MSFT; NVDA] with_callback) initial
    = Returned [priced AAPL 110 10; priced MSFT 110 10; priced NVDA 110 10].
Proof.
  assert (H : last (onBatchCalls
    (events_of
       (fetchMultipleStocks sample_config (env_answering (quote_ok meta_chart_close))
          [AAPL; MSFT; NVDA] with_callback) initial))
    = Some [priced AAPL 110 10; priced MSFT 110 10; priced NVDA 110 10])
    by (vm_compute; reflexivity).
  split; [exact H|].
  exact (last_callback_is_result sample_config (env_answering (quote_ok meta_chart_close))
           [AAPL; MSFT; NVDA] with_callback initial _ H).
Defined.

Lemma calm_fetchStockQuote_start cfg env symbol name display :
  emits not_delay (fetchStockQuote_start cfg env symbol name display).
Proof.
  unfold fetchStockQuote_start.
  apply emits_bind; [intros w; apply console_not_delay, console_isRateLimited|].
  intros [|]; emits_structure. intros w. by repeat constructor.
Qed.

Lemma calm_Promise_all_quotes cfg env batch :
  emits not_delay (Promise_all_quotes cfg env batch).
Proof.
  unfold Promise_all_quotes. apply emits_bind.
  - apply emits_mapM. intros s. apply calm_fetchStockQuote_start.
  - intros flights. apply emits_mapM. intros [s f] w.
    apply console_not_delay, console_fetchStockQuote_resume.
Qed.

Lemma calm_call_onBatch options results :
  emits not_delay (call_onBatch options results).
Proof. unfold call_onBatch. destruct (onBatch options); emits_structure. done. Qed.

Lemma events_pause env delayMs (go : bool) w :
  events_of
    (if go then bind (Math_random env) (fun r => delay (delayMs + r * 1000)%float)
     else ret tt) w
  = if go then [Delay (delayMs + MathRandom env (randomDraws w) * 1000)%float] else [].
Proof. by destruct go. Qed.

Lemma not_delay_pause_for env base evs :
  Forall not_delay evs -> Forall (pause_for env base) evs.
Proof. intros H. eapply Forall_impl; [exact H|]. by intros []. Qed.

Lemma pauses_within_calm env base {A} (m : M A) :
  emits not_delay m -> pauses_within env base 0 m.
Proof.
  intros H w. rewrite (delaysOf_none _ (H w)).
  split; [simpl; lia | apply not_delay_pause_for, H].
Qed.

Lemma pauses_within_weaken env base n n' {A} (m : M A) :
  (n <= n')%nat -> pauses_within env base n m -> pauses_within env base n' m.
Proof. intros Hn H w. destruct (H w) as [Hc Hs]. split; [lia | exact Hs]. Qed.

Lemma pauses_within_bind env base n1 n2 {A B} (m : M A) (k : A -> M B) :
  pauses_within env base n1 m -> (forall a, pauses_within env base n2 (k a)) ->
  pauses_within env base (n1 + n2) (bind m k).
Proof.
  intros Hm Hk w. rewrite events_bind, delaysOf_app, length_app, Forall_app.
  destruct (Hm w) as [Hc1 Hs1].
  destruct (outcome_of m w) as [a|e].
  - destruct (Hk a (world_after m w)) as [Hc2 Hs2]. split; [lia | by split].
  - split; [simpl; lia | split; [exact Hs1 | constructor]].
Qed.

Lemma pauses_pause env delayMs (go : bool) :
  pauses_within env delayMs (if go then 1 else 0)
    (if go then bind (Math_random env) (fun r => delay (delayMs + r * 1000)%float)
     else ret tt).
Proof.
  intros w. rewrite events_pause. destruct go; simpl.
  - split; [lia | repeat constructor; by eexists].
  - split; [lia | constructor].
Qed.

Lemma fetchBatches_pauses cfg env options delayMs len batches :
  forall index results,
    (index + length batches = len)%nat ->
    pauses_within env delayMs (length batches - 1)
      (fetchBatches cfg env options delayMs len index batches results).
Proof.
  induction batches as [|batch rest IH]; intros index results Hlen.
  - apply pauses_within_calm. by apply emits_silent.
  - rewrite fetchBatches_cons. simpl length. rewrite Nat.sub_succ, Nat.sub_0_r.
    apply (pauses_within_bind env delayMs 0 (length rest));
      [apply pauses_within_calm; intros w;
       apply console_not_delay, console_isRateLimited|].
    intros [|].
    { apply (pauses_within_weaken env delayMs 0); [lia|].
      apply pauses_within_calm. emits_structure. done. }
    apply (pauses_within_bind env delayMs 0 (length rest));
      [apply pauses_within_calm, calm_Promise_all_quotes|].
    intros batchResults. destruct (existsb flagged batchResults).
    { apply (pauses_within_weaken env delayMs 0); [lia|].
      apply pauses_within_calm. emits_structure. done. }
    apply (pauses_within_bind env delayMs 0 (length rest));
      [apply pauses_within_calm, calm_call_onBatch|].
    intros _.
    apply (pauses_within_weaken env delayMs
             ((if (Z.of_nat index <? Z.of_nat len - 1)%Z then 1 else 0)
              + (length rest - 1))%nat).
    { simpl in Hlen. destruct (Z.ltb_spec (Z.of_nat index) (Z.of_nat len - 1)); lia. }
    apply pauses_within_bind; [apply pauses_pause|].
    intros _. apply IH. simpl in Hlen. lia.
Qed.

Lemma fetchMultipleStocks_pauses cfg env symbols options :
  pauses_within env (default 3000%float (delayMs options))
    (length (chunkArray cfg symbols (default 2 (batchSize options))) - 1)
    (fetchMultipleStocks cfg env symbols options).
Proof.
  unfold fetchMultipleStocks.
  apply (pauses_within_bind env _ 0);
    [apply pauses_within_calm; intros w';
     apply console_not_delay, console_isRateLimited|].
  intros [|].
  - apply (pauses_within_weaken env _ 0); [lia|]. apply pauses_within_calm.
    intros w'. rewrite events_bind. simpl.
    destruct (0 <? length (lastSuccessfulResults w'))%nat; [|constructor].
    apply (emits_bind not_delay); [apply calm_call_onBatch|].
    intros ?. by apply emits_silent.
  - cbv zeta.
    rewrite <- (Nat.add_0_r (length _ - 1)).
    apply pauses_within_bind; [by apply fetchBatches_pauses|].
    intros results. apply pauses_within_calm. unfold finish. emits_structure.
Qed.

(** ** Runs, step by step *)

Lemma bind_run {A B} (m : M A) (k : A -> M B) w a w1 ev1 r w2 ev2 :
  m w = (Returned a, w1, ev1) -> k a w1 = (r, w2, ev2) ->
  bind m k w = (r, w2, ev1 ++ ev2).
Proof. intros Hm Hk. unfold bind. by rewrite Hm, Hk. Qed.

Lemma mapM_cons_run {A B} (f : A -> M B) a l w b w1 ev1 bs w2 ev2 :
  f a w = (Returned b, w1, ev1) -> mapM f l w1 = (Returned bs, w2, ev2) ->
  mapM f (a :: l) w = (Returned (b :: bs), w2, ev1 ++ ev2).
Proof.
  intros Ha Hl. simpl. apply (bind_run _ _ _ _ _ _ _ _ _ Ha).
  rewrite <- (app_nil_r ev2). by apply (bind_run _ _ _ _ _ _ _ _ _ Hl).
Qed.

Lemma incidental_nil : incidental [].
Proof. by repeat split. Qed.

Lemma incidental_app ev1 ev2 : incidental ev1 -> incidental ev2 -> incidental (ev1 ++ ev2).
Proof.
  intros (H1 & H2 & H3) (K1 & K2 & K3). repeat split; by apply Forall_app.
Qed.

Lemma incidental_projections ev :
  incidental ev -> requestsOf ev = [] /\ onBatchCalls ev = [] /\ delaysOf ev = [].
Proof.
  intros (H1 & H2 & H3).
  by rewrite (requestsOf_none _ H1), (onBatchCalls_none _ H2), (delaysOf_none _ H3).
Qed.

Lemma requestsOf_requests urls : requestsOf (map Request urls) = urls.
Proof. induction urls as [|u urls IH]; [reflexivity|]. simpl. by rewrite <- IH at 2. Qed.

Lemma requests_not_onBatch urls : Forall not_onBatch (map Request urls).
Proof. induction urls; by constructor. Qed.

Lemma requests_not_delay urls : Forall not_delay (map Request urls).
Proof. induction urls; by constructor. Qed.

Lemma call_onBatch_run options results w :
  call_onBatch options results w =
    (Returned tt, w, if onBatch options then [OnBatch results] else []).
Proof. unfold call_onBatch. by destruct (onBatch options). Qed.

Lemma pause_run env delayMs (go : bool) w :
  exists w',
    (if go then bind (Math_random env) (fun r => delay (delayMs + r * 1000)%float)
     else ret tt) w
    = (Returned tt, w',
       if go then [Delay (delayMs + MathRandom env (randomDraws w) * 1000)%float] else []) /\
    rateLimitedUntil w' = rateLimitedUntil w /\
    clockReads w' = clockReads w.
Proof. destruct go; eexists; (split; [reflexivity|]); by split. Qed.

Lemma finish_keeps_guard results w :
  rateLimitedUntil (world_after (finish results) w) = rateLimitedUntil w.
Proof.
  unfold finish, world_after, bind, set_lastSuccessfulResults, ret.
  by destruct (List.filter visible results).
Qed.

(** ** The guard between two chunks *)

#[local] Instance same_guard_preorder : PreOrder same_guard.
Proof.
  split; [intros w; reflexivity|].
  intros w1 w2 w3 H1 H2. unfold same_guard in *. congruence.
Qed.

#[local] Instance later_preorder : PreOrder later.
Proof. split; [intros w; apply le_n | intros w1 w2 w3; apply Nat.le_trans]. Qed.

Lemma guard_Date_now env : preserves same_guard (Date_now env).
Proof. intros w. reflexivity. Qed.

Lemma guard_fetchWithProxy url : preserves same_guard (fetchWithProxy url).
Proof. intros w. reflexivity. Qed.

#[local] Hint Resolve guard_Date_now guard_fetchWithProxy : frame.

Lemma guard_isRateLimited env : preserves same_guard (isRateLimited env).
Proof. unfold isRateLimited. preserves_structure. Qed.

#[local] Hint Resolve guard_isRateLimited : frame.

Lemma guard_fetchStockQuote_start cfg env symbol name display :
  preserves same_guard (fetchStockQuote_start cfg env symbol name display).
Proof. unfold fetchStockQuote_start. preserves_structure. Qed.

Lemma later_Date_now env : preserves later (Date_now env).
Proof. intros w. unfold later. simpl. lia. Qed.

Lemma later_fetchWithProxy url : preserves later (fetchWithProxy url).
Proof. intros w. apply le_n. Qed.

Lemma later_set_rateLimitedUntil v : preserves later (set_rateLimitedUntil v).
Proof. intros w. apply le_n. Qed.

#[local] Hint Resolve later_Date_now later_fetchWithProxy later_set_rateLimitedUntil : frame.

Lemma later_isRateLimited env : preserves later (isRateLimited env).
Proof. unfold isRateLimited. preserves_structure. Qed.

Lemma later_triggerRateLimit env : preserves later (triggerRateLimit env).
Proof. unfold triggerRateLimit. preserves_structure. Qed.

#[local] Hint Resolve later_isRateLimited later_triggerRateLimit : frame.

Lemma later_fetchStockQuote_start cfg env symbol name display :
  preserves later (fetchStockQuote_start cfg env symbol name display).
Proof. unfold fetchStockQuote_start. preserves_structure. Qed.

Lemma later_fetchStockQuote_resume env symbol name display f :
  preserves later (fetchStockQuote_resume env symbol name display f).
Proof. unfold fetchStockQuote_resume. preserves_structure. Qed.

#[local] Hint Resolve later_fetchStockQuote_start later_fetchStockQuote_resume : frame.

Lemma later_Promise_all_quotes cfg env batch :
  preserves later (Promise_all_quotes cfg env batch).
Proof. unfold Promise_all_quotes. preserves_structure. Qed.

(** Handling one reply leaves the expiry alone unless the quote is flagged. *)
Lemma resume_guard env symbol name display f w :
  exists q w' ev,
    fetchStockQuote_resume env symbol name display f w = (Returned q, w', ev) /\
    (flagged q = false -> rateLimitedUntil w' = rateLimitedUntil w).
Proof.
  destruct f as [q | id url].
  - exists q, w, []. by split.
  - destruct (fetchStockQuote_resume_run env symbol name display id url w)
      as (q & w' & ev & Hrun & _ & _ & Hflag & _ & Huntil & _).
    exists q, w', ev. split; [exact Hrun|]. unfold flagged. rewrite Hflag, Huntil.
    by destruct (signals_rate_limit _).
Qed.

Lemma resumes_guard env (l : list (Target.t * Flight)) :
  forall w,
    exists rs w' ev,
      mapM (fun sf : Target.t * Flight =>
              fetchStockQuote_resume env (Target.symbol sf.1) (Target.name sf.1)
                (Target.display sf.1) sf.2) l w = (Returned rs, w', ev) /\
      (existsb flagged rs = false -> rateLimitedUntil w' = rateLimitedUntil w).
Proof.
  induction l as [|[s f] l IH]; intros w.
  - exists [], w, []. by split.
  - destruct (resume_guard env (Target.symbol s) (Target.name s) (Target.display s) f w)
      as (q & w1 & ev1 & Hrun1 & Hq).
    destruct (IH w1) as (rs & w' & ev & Hrun & Hrs).
    exists (q :: rs), w', (ev1 ++ ev). split.
    { exact (mapM_cons_run
               (fun sf : Target.t * Flight =>
                  fetchStockQuote_resume env (Target.symbol sf.1) (Target.name sf.1)
                    (Target.display sf.1) sf.2) (s, f) l w _ _ _ _ _ _ Hrun1 Hrun). }
    simpl. intros H. apply orb_false_iff in H as [Hq' Hrs'].
    rewrite (Hrs Hrs'). by apply Hq.
Qed.

(** A chunk leaves the expiry alone unless one of its quotes is flagged. *)
Lemma chunk_guard cfg env batch w rs :
  outcome_of (Promise_all_quotes cfg env batch) w = Returned rs ->
  existsb flagged rs = false ->
  rateLimitedUntil (world_after (Promise_all_quotes cfg env batch) w) = rateLimitedUntil w.
Proof.
  intros Hout Hnone.
  set (starts := mapM (fun s => fetchStockQuote_start cfg env (Target.symbol s)
                                  (Target.name s) (Target.display s)) batch).
  destruct (yields_mapM (fun s => fetchStockQuote_start cfg env (Target.symbol s)
                                    (Target.name s) (Target.display s)) batch
              (fun s => fetchStockQuote_start_returns cfg env _ _ _) w)
    as (flights & Hflights & _).
  change (outcome_of starts w = Returned flights) in Hflights.
  assert (Hstart : rateLimitedUntil (world_after starts w) = rateLimitedUntil w).
  { apply (preserves_mapM same_guard). intros s. apply guard_fetchStockQuote_start. }
  destruct (resumes_guard env (zip batch flights) (world_after starts w))
    as (rs' & w' & ev & Hrun & Hrs).
  assert (Hall : Promise_all_quotes cfg env batch w
                 = (Returned rs', w', events_of starts w ++ ev)).
  { unfold Promise_all_quotes. eapply bind_run; [|exact Hrun].
    fold starts. rewrite (run_eta starts w), Hflights. reflexivity. }
  destruct (run_parts _ _ _ _ _ Hall) as (Ho & Hw & _).
  rewrite Ho in Hout. injection Hout as ->. rewrite Hw, (Hrs Hnone). exact Hstart.
Qed.

Lemma steady_isRateLimited env : emits not_stopping (isRateLimited env).
Proof. unfold isRateLimited. emits_structure. done. Qed.

Lemma steady_triggerRateLimit env : emits not_stopping (triggerRateLimit env).
Proof. unfold triggerRateLimit. emits_structure. done. Qed.

#[local] Hint Resolve steady_isRateLimited steady_triggerRateLimit : frame.

Lemma steady_Promise_all_quotes cfg env batch :
  emits not_stopping (Promise_all_quotes cfg env batch).
Proof.
  unfold Promise_all_quotes. apply emits_bind.
  - apply emits_mapM. intros s. unfold fetchStockQuote_start. emits_structure.
    intros w. by repeat constructor.
  - intros flights. apply emits_mapM. intros [s f].
    unfold fetchStockQuote_resume, await, await_json, read_meta. emits_structure; done.
Qed.

Lemma fetchBatches_never_stopped cfg env options delayMs len batches :
  (forall i j, (i <= j)%nat -> DateNow env i <= DateNow env j) ->
  forall index results w,
    rateLimitedUntil w <= DateNow env (clockReads w) ->
    Forall not_stopping
      (events_of (fetchBatches cfg env options delayMs len index batches results) w).
Proof.
  intros Hclock. induction batches as [|batch rest IH]; intros index results w Hclear.
  - constructor.
  - pose proof (isRateLimited_clear env w Hclear) as Hguard.
    rewrite fetchBatches_cons, events_bind.
    destruct (run_parts _ _ _ _ _ Hguard) as (-> & -> & ->). rewrite app_nil_l.
    set (w1 := world_after (Date_now env) w).
    destruct (Promise_all_quotes_total cfg env batch w1) as (rs & Hrs & _).
    rewrite events_bind, Hrs.
    apply Forall_app. split; [apply steady_Promise_all_quotes|].
    destruct (existsb flagged rs) eqn:Hflag; [by repeat constructor|].
    rewrite events_bind.
    destruct (run_parts _ _ _ _ _
                (call_onBatch_run options (List.filter visible (results ++ rs))
                   (world_after (Promise_all_quotes cfg env batch) w1)))
      as (-> & -> & ->).
    apply Forall_app. split; [destruct (onBatch options); by repeat constructor|].
    destruct (pause_run env delayMs (Z.of_nat index <? Z.of_nat len - 1)
                (world_after (Promise_all_quotes cfg env batch) w1))
      as (w3 & Hpause & Hu3 & Hc3).
    rewrite events_bind.
    destruct (run_parts _ _ _ _ _ Hpause) as (-> & -> & ->).
    apply Forall_app.
    split; [destruct (Z.of_nat index <? Z.of_nat len - 1); by repeat constructor|].
    apply IH. rewrite Hu3, Hc3, (chunk_guard cfg env batch w1 rs Hrs Hflag).
    pose proof (later_Promise_all_quotes cfg env batch w1) as Hlater.
    unfold later in Hlater.
    pose proof (Hclock (clockReads w)
                  (clockReads (world_after (Promise_all_quotes cfg env batch) w1))
                  ltac:(simpl in Hlater; lia)).
    change (rateLimitedUntil w1) with (rateLimitedUntil w). lia.
Qed.

(** X12: when [Date.now()] never goes backwards, a run of
    [fetchMultipleStocks] on its own never logs "Stopping fetch after ..."
    (line 112): once the call is past the guard at its entry, the guard read
    again before each chunk finds it clear, because the expiry only moves in a
    chunk that carries a flagged quote, and the loop ends there. *)
Theorem guard_recheck_never_stops cfg env symbols options w :
  (forall i j, (i <= j)%nat -> DateNow env i <= DateNow env j) ->
  Forall not_stopping (events_of (fetchMultipleStocks cfg env symbols options) w).
Proof.
  intros Hclock.
  destruct (Z.lt_ge_cases (DateNow env (clockReads w)) (rateLimitedUntil w))
    as [Hlim | Hclear].
  - destruct (run_parts _ _ _ _ _ (fetchMultipleStocks_limited cfg env symbols options w Hlim))
      as (_ & _ & ->).
    constructor; [exact I|].
    destruct (lastSuccessfulResults w); [constructor|].
    destruct (onBatch options); by repeat constructor.
  - unfold events_of. rewrite (fetchMultipleStocks_clear cfg env symbols options w Hclear).
    fold (events_of (bind (fetchAllBatches cfg env symbols options) finish)
            (world_after (Date_now env) w)).
    rewrite events_bind. apply Forall_app. split.
    + apply fetchBatches_never_stopped; [exact Hclock|].
      pose proof (Hclock (clockReads w) (S (clockReads w)) ltac:(lia)).
      change (rateLimitedUntil w <= DateNow env (S (clockReads w))). lia.
    + destruct (outcome_of _ _) as [results|e]; [|constructor].
      unfold finish. destruct (0 <? length (List.filter visible results))%nat; constructor.
Qed.

Lemma guard_recheck_never_stops_witness :
  (forall i j, (i <= j)%nat -> DateNow sample_env i <= DateNow sample_env j) /\
  Forall not_stopping
    (events_of (fetchMultipleStocks sample_config sample_env [AAPL; MSFT; NVDA; AMZN; META]
                  with_callback) initial).
Proof.
  assert (H : forall i j, (i <= j)%nat -> DateNow sample_env i <= DateNow sample_env j)
    by (intros i j Hij; simpl; lia).
  split; [exact H|].
  exact (guard_recheck_never_stops sample_config sample_env [AAPL; MSFT; NVDA; AMZN; META]
           with_callback initial H).
Defined.

(** ** Chunk by chunk *)

(** What handling a reply returns does not depend on the state it is handled
    in. *)
Lemma resume_outcome env symbol name display id url w w' :
  outcome_of (fetchStockQuote_resume env symbol name display (InFlight id url)) w
  = outcome_of (fetchStockQuote_resume env symbol name display (InFlight id url)) w'.
Proof.
  unfold outcome_of, fetchStockQuote_resume, try_catch, bind, await, await_json, read_meta.
  destruct (quoteReply env id url) as [e | r]; simpl.
  - destruct (includes "429" e); reflexivity.
  - destruct (status r =? 429); simpl; [reflexivity|].
    destruct (ok r); simpl.
    + destruct (json r) as [e | data]; simpl; [destruct (includes "429" e); reflexivity|].
      destruct (chart data) as [c|]; simpl; [|reflexivity].
      destruct (result c) as [[|cr rs]|]; simpl; [reflexivity | | reflexivity].
      destruct (meta cr); reflexivity.
    + match goal with
      | |- context [includes ?a ?b] => destruct (includes a b)
      end; reflexivity.
Qed.

(** The quote of a lone call past the guard is the quote built from the
    reply to its request. *)
Lemma lone_quote_resume cfg env s id q w0 w1 :
  rateLimitedUntil w0 <= DateNow env (clockReads w0) ->
  lone_quote cfg env w0 s id q <->
  outcome_of (fetchStockQuote_resume env (Target.symbol s) (Target.name s)
                (Target.display s) (InFlight id (url_of cfg s))) w1 = Returned q.
Proof.
  intros Hclear. unfold lone_quote, fetchStockQuote. rewrite outcome_bind.
  destruct (run_parts _ _ _ _ _
              (fetchStockQuote_start_clear cfg env (Target.symbol s) (Target.name s)
                 (Target.display s) (at_request id w0) Hclear)) as (-> & -> & _).
  simpl requestsSent.
  by rewrite (resume_outcome env _ _ _ id (yahooFinance cfg (Target.symbol s)) _ w1).
Qed.

Lemma lone_quotes_length cfg env w l :
  forall id qs, lone_quotes cfg env w id l qs -> length qs = length l.
Proof.
  induction l as [|s l IH]; intros id [|q qs] H; try done.
  destruct H as [_ H]. simpl. by rewrite (IH _ _ H).
Qed.

Lemma lone_quotes_unique cfg env w l :
  forall id qs qs',
    lone_quotes cfg env w id l qs -> lone_quotes cfg env w id l qs' -> qs = qs'.
Proof.
  induction l as [|s l IH]; intros id [|q qs] [|q' qs'] H H'; try done.
  destruct H as [Hq H], H' as [Hq' H']. unfold lone_quote in Hq, Hq'.
  rewrite Hq in Hq'. injection Hq' as <-. by rewrite (IH _ _ _ H H').
Qed.

Lemma lone_quotes_app cfg env w l1 l2 :
  forall id qs,
    lone_quotes cfg env w id (l1 ++ l2) qs ->
    lone_quotes cfg env w id l1 (take (length l1) qs) /\
    lone_quotes cfg env w (id + length l1) l2 (drop (length l1) qs).
Proof.
  induction l1 as [|s l1 IH]; intros id qs H.
  - rewrite Nat.add_0_r. by split.
  - destruct qs as [|q qs]; [done|]. destruct H as [Hq H].
    destruct (IH _ _ H) as [H1 H2]. simpl.
    rewrite <- Nat.add_succ_comm. by repeat split.
Qed.

Lemma lone_quotes_transport cfg env w w' l :
  rateLimitedUntil w <= DateNow env (clockReads w) ->
  rateLimitedUntil w' <= DateNow env (clockReads w') ->
  forall id qs, lone_quotes cfg env w id l qs -> lone_quotes cfg env w' id l qs.
Proof.
  intros Hw Hw'. induction l as [|s l IH]; intros id [|q qs] H; try done.
  destruct H as [Hq H]. split; [|by apply IH].
  apply (lone_quote_resume cfg env s id q w' initial Hw').
  by apply (lone_quote_resume cfg env s id q w initial Hw).
Qed.

Lemma stays_clear_now env w :
  stays_clear env w -> rateLimitedUntil w <= DateNow env (clockReads w).
Proof. intros H. by apply H. Qed.

Lemma stays_clear_later env w w' :
  stays_clear env w -> rateLimitedUntil w' = rateLimitedUntil w ->
  (clockReads w <= clockReads w')%nat -> stays_clear env w'.
Proof. intros H Hu Hc n Hn. rewrite Hu. apply H. lia. Qed.

Lemma scheduleOf_app evs1 evs2 :
  scheduleOf (evs1 ++ evs2) = scheduleOf evs1 ++ scheduleOf evs2.
Proof. apply omap_app. Qed.

Lemma scheduleOf_none evs : Forall unscheduled evs -> scheduleOf evs = [].
Proof.
  induction 1 as [|e evs He _ IH]; [reflexivity|].
  destruct e; [contradiction | exact IH | contradiction | exact IH].
Qed.

Lemma scheduleOf_requests evs :
  Forall not_delay evs -> scheduleOf evs = map Some (requestsOf evs).
Proof.
  induction 1 as [|e evs He _ IH]; [reflexivity|].
  destruct e; [|exact IH|contradiction|exact IH].
  change (Some url :: scheduleOf evs = Some url :: map Some (requestsOf evs)).
  by rewrite IH.
Qed.

Lemma console_unscheduled evs : Forall console_only evs -> Forall unscheduled evs.
Proof. intros H. eapply Forall_impl; [exact H|]. by intros []. Qed.

Lemma incidental_unscheduled ev : incidental ev -> scheduleOf ev = [].
Proof.
  intros (H1 & _ & H3). apply scheduleOf_none.
  induction ev as [|e ev IH]; [constructor|].
  inversion H1; inversion H3; subst. constructor; [by destruct e | by apply IH].
Qed.

(** The first half of a chunk: with the guard clear, every call sends its
    request and is suspended. *)
Lemma starts_run cfg env batch :
  forall w,
    stays_clear env w ->
    exists w',
      mapM (fun s => fetchStockQuote_start cfg env (Target.symbol s) (Target.name s)
                       (Target.display s)) batch w
        = (Returned (flights_from cfg (requestsSent w) batch), w',
           map Request (map (url_of cfg) batch)) /\
      rateLimitedUntil w' = rateLimitedUntil w /\
      requestsSent w' = (requestsSent w + length batch)%nat /\
      (clockReads w <= clockReads w')%nat.
Proof.
  induction batch as [|s batch IH]; intros w Hclear.
  - exists w. rewrite Nat.add_0_r. by repeat split.
  - pose proof (fetchStockQuote_start_clear cfg env (Target.symbol s) (Target.name s)
                  (Target.display s) w (stays_clear_now env w Hclear)) as Hs.
    set (w1 := world_after (fetchWithProxy (yahooFinance cfg (Target.symbol s)))
                 (world_after (Date_now env) w)) in *.
    assert (Hclear1 : stays_clear env w1)
      by (apply (stays_clear_later env w); [exact Hclear | reflexivity | simpl; lia]).
    destruct (IH w1 Hclear1) as (w' & Hrun & Huntil & Hsent & Hclock).
    exists w'. split.
    { exact (mapM_cons_run
               (fun s => fetchStockQuote_start cfg env (Target.symbol s) (Target.name s)
                           (Target.display s)) s batch w _ _ _ _ _ _ Hs Hrun). }
    split; [exact Huntil|]. simpl in Hsent, Hclock. simpl. split; lia.
Qed.

(** The second half: the replies are handled in the order of the calls, and
    each quote is the one a lone call would have returned. *)
Lemma resumes_run cfg env batch :
  forall id w,
    exists rs w' ev,
      mapM (fun sf : Target.t * Flight =>
              fetchStockQuote_resume env (Target.symbol sf.1) (Target.name sf.1)
                (Target.display sf.1) sf.2) (zip batch (flights_from cfg id batch)) w
        = (Returned rs, w', ev) /\
      (forall w0, rateLimitedUntil w0 <= DateNow env (clockReads w0) ->
                  lone_quotes cfg env w0 id batch rs) /\
      requestsSent w' = requestsSent w /\
      (clockReads w <= clockReads w')%nat /\
      (existsb flagged rs = false -> rateLimitedUntil w' = rateLimitedUntil w) /\
      incidental ev.
Proof.
  induction batch as [|s batch IH]; intros id w.
  - exists [], w, []. repeat split; try done; constructor.
  - destruct (fetchStockQuote_resume_run env (Target.symbol s) (Target.name s)
                (Target.display s) id (url_of cfg s) w)
      as (q & w1 & ev1 & Hrun1 & Hq).
    destruct Hq as (_ & _ & Hflag & _ & Huntil & Hclock & _ & Hsent & _ & Hev).
    destruct (IH (S id) w1) as (rs & w' & ev & Hrun & Hrs & Hsent' & Hclock' & Huntil' & Hevs).
    exists (q :: rs), w', (ev1 ++ ev). split.
    { exact (mapM_cons_run
               (fun sf : Target.t * Flight =>
                  fetchStockQuote_resume env (Target.symbol sf.1) (Target.name sf.1)
                    (Target.display sf.1) sf.2)
               (s, InFlight id (url_of cfg s)) (zip batch (flights_from cfg (S id) batch))
               w _ _ _ _ _ _ Hrun1 Hrun). }
    split.
    { intros w0 Hw0. split; [|by apply Hrs].
      apply (lone_quote_resume cfg env s id q w0 w Hw0).
      by destruct (run_parts _ _ _ _ _ Hrun1) as (-> & _). }
    split; [congruence|]. split.
    { destruct (signals_rate_limit _); lia. }
    split; [|by apply incidental_app].
    simpl. intros Hnone. apply orb_false_iff in Hnone as [Hq Hnone].
    rewrite (Huntil' Hnone), Huntil. unfold flagged in Hq. rewrite Hflag in Hq.
    by destruct (signals_rate_limit _).
Qed.

(** A whole chunk let through by the guard. *)
Lemma chunk_run cfg env batch w :
  stays_clear env w ->
  exists rs w' ev,
    Promise_all_quotes cfg env batch w = (Returned rs, w', ev) /\
    (forall w0, rateLimitedUntil w0 <= DateNow env (clockReads w0) ->
                lone_quotes cfg env w0 (requestsSent w) batch rs) /\
    requestsSent w' = (requestsSent w + length batch)%nat /\
    (clockReads w <= clockReads w')%nat /\
    (existsb flagged rs = false -> rateLimitedUntil w' = rateLimitedUntil w) /\
    requestsOf ev = map (url_of cfg) batch /\
    onBatchCalls ev = [] /\
    scheduleOf ev = map Some (map (url_of cfg) batch).
Proof.
  intros Hclear.
  destruct (starts_run cfg env batch w Hclear) as (w1 & Hstart & Hu1 & Hs1 & Hc1).
  destruct (resumes_run cfg env batch (requestsSent w) w1)
    as (rs & w' & ev & Hrun & Hrs & Hs2 & Hc2 & Hu2 & Hev).
  exists rs, w', (map Request (map (url_of cfg) batch) ++ ev).
  split; [exact (bind_run _ _ _ _ _ _ _ _ _ Hstart Hrun)|].
  destruct (incidental_projections _ Hev) as (Hr & Hc & _).
  split; [exact Hrs|]. split; [lia|]. split; [lia|].
  split; [intros Hnone; rewrite (Hu2 Hnone); exact Hu1|].
  rewrite requestsOf_app, onBatchCalls_app, scheduleOf_app, Hr, Hc,
    (incidental_unscheduled _ Hev), !app_nil_r.
  split; [apply requestsOf_requests|].
  split; [apply onBatchCalls_none, requests_not_onBatch|].
  rewrite scheduleOf_requests; [|apply requests_not_delay].
  by rewrite requestsOf_requests.
Qed.

Lemma paced_single c : paced [c] = map Some c.
Proof. simpl. apply app_nil_r. Qed.

Lemma paced_cons c chunks :
  chunks <> [] -> paced (c :: chunks) = map Some c ++ None :: paced chunks.
Proof. by destruct chunks. Qed.

Lemma then_pause_cons c chunks :
  then_pause (c :: chunks) = map Some c ++ None :: then_pause chunks.
Proof. unfold then_pause. simpl. by rewrite <- app_assoc. Qed.

Lemma paced_snoc chunks c : paced (chunks ++ [c]) = then_pause chunks ++ map Some c.
Proof.
  induction chunks as [|c' chunks IH]; [apply paced_single|].
  rewrite <- app_comm_cons, paced_cons, IH, then_pause_cons; [|by destruct chunks].
  by rewrite <- app_assoc.
Qed.

Lemma reports_step (F : list MarketData.t -> list MarketData.t)
    results (batch : list Target.t) before rs more :
  length rs = length batch ->
  map (fun k => F (results ++ take (length (concat (take (S k) (batch :: before))))
                                (rs ++ more)))
      (seq 0 (S (length before)))
  = F (results ++ rs)
    :: map (fun k => F ((results ++ rs)
                        ++ take (length (concat (take (S k) before))) more))
         (seq 0 (length before)).
Proof.
  intros Hlen. cbn [seq map]. f_equal.
  - cbn [take concat]. rewrite take_0. cbn [concat]. rewrite app_nil_r.
    by rewrite take_app_length'.
  - rewrite <- seq_shift, map_map. apply map_ext. intros k.
    cbn [take concat]. rewrite length_app, take_app_add' by done.
    by rewrite app_assoc.
Qed.

(** Between two chunks: the pause, when there is one, changes neither the
    expiry nor the clock and request counters. *)
Lemma pause_keeps env delayMs (go : bool) w :
  exists w',
    (if go then bind (Math_random env) (fun r => delay (delayMs + r * 1000)%float)
     else ret tt) w
    = (Returned tt, w',
       if go then [Delay (delayMs + MathRandom env (randomDraws w) * 1000)%float] else []) /\
    rateLimitedUntil w' = rateLimitedUntil w /\
    clockReads w' = clockReads w /\
    requestsSent w' = requestsSent w.
Proof. destruct go; eexists; (split; [reflexivity|]); by repeat split. Qed.

(** The loop over chunks that the guard lets through and whose quotes carry
    no flag: each chunk sends its requests, its quotes are appended, the
    callback is told and a pause follows unless the chunk is the last of all;
    the loop then goes on with the chunks that remain. *)
Lemma fetchBatches_through cfg env options delayMs len before :
  forall index results w more rest,
    stays_clear env w ->
    lone_quotes cfg env w (requestsSent w) (concat before) more ->
    existsb flagged more = false ->
    (index + length before + length rest = len)%nat ->
    exists w1 ev1,
      stays_clear env w1 /\
      rateLimitedUntil w1 = rateLimitedUntil w /\
      requestsSent w1 = (requestsSent w + length (concat before))%nat /\
      requestsOf ev1 = map (url_of cfg) (concat before) /\
      scheduleOf ev1 =
        match rest with
        | [] => paced (map (map (url_of cfg)) before)
        | _ :: _ => then_pause (map (map (url_of cfg)) before)
        end /\
      onBatchCalls ev1 =
        (if onBatch options
         then map (fun k => List.filter visible
                              (results ++ take (length (concat (take (S k) before))) more))
                (seq 0 (length before))
         else []) /\
      forall r w2 ev2,
        fetchBatches cfg env options delayMs len (index + length before) rest
          (results ++ more) w1 = (r, w2, ev2) ->
        fetchBatches cfg env options delayMs len index (before ++ rest) results w
          = (r, w2, ev1 ++ ev2).
Proof.
  induction before as [|batch before IH]; intros index results w more rest Hclear Hq Hnone Hlen.
  - destruct more; [|done]. exists w, []. rewrite Nat.add_0_r, app_nil_r.
    split; [exact Hclear|]. split; [reflexivity|]. split; [reflexivity|].
    split; [reflexivity|]. split; [by destruct rest|].
    split; [by destruct (onBatch options)|]. intros r w2 ev2 Hrest.
    simpl in Hrest. by rewrite Nat.add_0_r in Hrest.
  - pose proof (isRateLimited_clear env w (stays_clear_now env w Hclear)) as Hguard.
    set (w0 := world_after (Date_now env) w) in *.
    assert (Hclear0 : stays_clear env w0)
      by (apply (stays_clear_later env w); [exact Hclear | reflexivity | simpl; lia]).
    destruct (chunk_run cfg env batch w0 Hclear0)
      as (rs & w2 & evc & Hchunk & Hrs & Hs2 & Hc2 & Hu2 & Hreq2 & Hcb2 & Hsch2).
    change (requestsSent w0) with (requestsSent w) in Hrs, Hs2.
    simpl concat in Hq. apply lone_quotes_app in Hq as [Hq1 Hq2].
    pose proof (lone_quotes_unique cfg env w batch _ _ _
                  (Hrs w (stays_clear_now env w Hclear)) Hq1) as Hrs1.
    pose proof (lone_quotes_length cfg env w batch _ _ Hq1) as Hlen1.
    rewrite <- Hrs1 in Hlen1.
    assert (Hmore : more = rs ++ drop (length batch) more)
      by (rewrite Hrs1; symmetry; apply take_drop).
    set (more' := drop (length batch) more) in *.
    rewrite Hmore in Hnone. rewrite existsb_app in Hnone.
    apply orb_false_iff in Hnone as [Hnone1 Hnone2].
    specialize (Hu2 Hnone1). change (rateLimitedUntil w0) with (rateLimitedUntil w) in Hu2.
    destruct (pause_keeps env delayMs (Z.of_nat index <? Z.of_nat len - 1) w2)
      as (w3 & Hpause & Hu3 & Hc3 & Hs3).
    assert (Hclear3 : stays_clear env w3).
    { apply (stays_clear_later env w); [exact Hclear | congruence|].
      rewrite Hc3. simpl in Hc2. lia. }
    assert (Hq3 : lone_quotes cfg env w3 (requestsSent w3) (concat before) more').
    { rewrite Hs3, Hs2.
      apply (lone_quotes_transport cfg env w w3);
        [by apply stays_clear_now | by apply stays_clear_now | exact Hq2]. }
    destruct (IH (S index) (results ++ rs) w3 more' rest Hclear3 Hq3 Hnone2
                ltac:(simpl in Hlen; lia))
      as (w1 & ev1 & Hclear1 & Hu1 & Hs1 & Hreq1 & Hsch1 & Hcb1 & Hnext).
    exists w1.
    exists (evc ++ (if onBatch options
                    then [OnBatch (List.filter visible (results ++ rs))] else [])
                ++ (if Z.of_nat index <? Z.of_nat len - 1
                    then [Delay (delayMs + MathRandom env (randomDraws w2) * 1000)%float]
                    else [])
                ++ ev1).
    split; [exact Hclear1|]. split; [congruence|].
    split; [simpl concat; rewrite length_app; lia|].
    rewrite !requestsOf_app, !scheduleOf_app, !onBatchCalls_app.
    rewrite Hreq2, Hsch2, Hcb2, Hreq1, Hsch1, Hcb1.
    split.
    { simpl concat. rewrite map_app.
      by destruct (onBatch options), (Z.of_nat index <? Z.of_nat len - 1). }
    split.
    { assert (Hcb : scheduleOf (if onBatch options
                                then [OnBatch (List.filter visible (results ++ rs))]
                                else []) = []) by (by destruct (onBatch options)).
      rewrite Hcb, app_nil_l. cbn [map].
      destruct rest as [|b rest].
      - destruct before as [|b before].
        + assert (Hgo : (Z.of_nat index <? Z.of_nat len - 1) = false)
            by (apply Z.ltb_ge; simpl in Hlen; lia).
          rewrite Hgo. simpl. by rewrite !app_nil_r.
        + assert (Hgo : (Z.of_nat index <? Z.of_nat len - 1) = true)
            by (apply Z.ltb_lt; simpl in Hlen; lia).
          rewrite Hgo. by rewrite paced_cons.
      - assert (Hgo : (Z.of_nat index <? Z.of_nat len - 1) = true)
          by (apply Z.ltb_lt; simpl in Hlen; lia).
        rewrite Hgo. by rewrite then_pause_cons. }
    split.
    { assert (Hd : onBatchCalls (if Z.of_nat index <? Z.of_nat len - 1
                   then [Delay (delayMs + MathRandom env (randomDraws w2) * 1000)%float]
                   else []) = [])
        by (by destruct (Z.of_nat index <? Z.of_nat len - 1)).
      rewrite Hd, !app_nil_l. destruct (onBatch options); [|reflexivity].
      rewrite Hmore. cbn [length].
      by rewrite (reports_step (List.filter visible) results batch before rs more' Hlen1). }
    intros r w' ev2 Hrest.
    replace (index + length (batch :: before))%nat
      with (S index + length before)%nat in Hrest by (simpl; lia).
    rewrite Hmore, app_assoc in Hrest.
    specialize (Hnext r w' ev2 Hrest).
    rewrite <- app_comm_cons, fetchBatches_cons, <- !app_assoc.
    eapply (bind_run _ _ _ _ _ [] _ _ _ Hguard).
    eapply bind_run; [exact Hchunk|]. rewrite Hnone1.
    eapply bind_run; [apply call_onBatch_run|].
    eapply bind_run; [exact Hpause | exact Hnext].
Qed.

Lemma reports_from_nothing chunks results :
  map (fun k => List.filter visible
                  ([] ++ take (length (concat (take (S k) chunks))) results))
      (seq 0 (length chunks))
  = reports chunks results.
Proof. unfold reports. apply map_ext. intros k. apply filter_visible. Qed.

(** X11: a run that meets no rate limit fetches everything.  When no clock
    reading from the call on falls before the stored expiry and none of the
    quotes of the symbols, each as a lone call of [fetchStockQuote] would
    return it, carries the rate-limited flag, [fetchMultipleStocks] returns
    exactly those quotes whose price is not [null]; it requests the URL of
    every symbol of every chunk, once and in order, with one pause between two
    chunks and none after the last; it invokes [onBatch] (when given) once per
    chunk, each time with the quotes so far whose price is not [null]; and it
    leaves the expiry as it was. *)
Theorem unthrottled_run_fetches_everything cfg env symbols options w results :
  stays_clear env w ->
  lone_quotes cfg env w (requestsSent w)
    (concat (chunkArray cfg symbols (default 2 (batchSize options)))) results ->
  existsb flagged results = false ->
  outcome_of (fetchMultipleStocks cfg env symbols options) w
    = Returned (filter (fun q => MarketData.price q <> Null) results) /\
  requestsOf (events_of (fetchMultipleStocks cfg env symbols options) w)
    = map (url_of cfg) (concat (chunkArray cfg symbols (default 2 (batchSize options)))) /\
  scheduleOf (events_of (fetchMultipleStocks cfg env symbols options) w)
    = paced (map (map (url_of cfg))
               (chunkArray cfg symbols (default 2 (batchSize options)))) /\
  onBatchCalls (events_of (fetchMultipleStocks cfg env symbols options) w)
    = (if onBatch options
       then reports (chunkArray cfg symbols (default 2 (batchSize options))) results
       else []) /\
  rateLimitedUntil (world_after (fetchMultipleStocks cfg env symbols options) w)
    = rateLimitedUntil w.
Proof.
  intros Hclear Hq Hnone.
  set (chunks := chunkArray cfg symbols (default 2 (batchSize options))) in *.
  set (w0 := world_after (Date_now env) w).
  assert (Hclear0 : stays_clear env w0)
    by (apply (stays_clear_later env w); [exact Hclear | reflexivity | simpl; lia]).
  assert (Hq0 : lone_quotes cfg env w0 (requestsSent w0) (concat chunks) results).
  { apply (lone_quotes_transport cfg env w w0);
      [by apply stays_clear_now | by apply stays_clear_now | exact Hq]. }
  destruct (fetchBatches_through cfg env options (default 3000%float (delayMs options))
              (length chunks) chunks 0%nat [] w0 results [] Hclear0 Hq0 Hnone
              ltac:(simpl; lia))
    as (w1 & ev1 & _ & Hu1 & _ & Hreq & Hsch & Hcb & Hnext).
  specialize (Hnext (Returned results) w1 [] eq_refl).
  rewrite !app_nil_r in Hnext. rewrite reports_from_nothing in Hcb.
  assert (Hrun : fetchMultipleStocks cfg env symbols options w =
    (outcome_of (finish results) w1, world_after (finish results) w1,
     ev1 ++ events_of (finish results) w1)).
  { rewrite (fetchMultipleStocks_clear cfg env symbols options w
               (stays_clear_now env w Hclear)).
    eapply bind_run; [exact Hnext | apply run_eta]. }
  destruct (run_parts _ _ _ _ _ Hrun) as (-> & -> & ->).
  destruct (finish_run results w1) as (-> & -> & _).
  rewrite app_nil_r, finish_keeps_guard, filter_visible.
  split; [reflexivity|]. split; [exact Hreq|]. split; [exact Hsch|].
  split; [exact Hcb | exact Hu1].
Qed.

Lemma unthrottled_run_fetches_everything_witness :
  stays_clear (env_answering (quote_ok meta_chart_close)) initial /\
  lone_quotes sample_config (env_answering (quote_ok meta_chart_close)) initial 0
    [AAPL; MSFT; NVDA]
    [priced AAPL 110 10; priced MSFT 110 10; priced NVDA 110 10] /\
  outcome_of
    (fetchMultipleStocks sample_config (env_answering (quote_ok meta_chart_close))
       [AAPL; MSFT; NVDA] with_callback) initial
    = Returned [priced AAPL 110 10; priced MSFT 110 10; priced NVDA 110 10] /\
  scheduleOf
    (events_of
       (fetchMultipleStocks sample_config (env_answering (quote_ok meta_chart_close))
          [AAPL; MSFT; NVDA] with_callback) initial)
    = [Some (yahooFinance sample_config "AAPL"); Some (yahooFinance sample_config "MSFT");
       None; Some (yahooFinance sample_config "NVDA")] /\
  onBatchCalls
    (events_of
       (fetchMultipleStocks sample_config (env_answering (quote_ok meta_chart_close))
          [AAPL; MSFT; NVDA] with_callback) initial)
    = [[priced AAPL 110 10; priced MSFT 110 10];
       [priced AAPL 110 10; priced MSFT 110 10; priced NVDA 110 10]].
Proof.
  assert (H1 : stays_clear (env_answering (quote_ok meta_chart_close)) initial)
    by (intros n _; simpl; lia).
  assert (H2 : lone_quotes sample_config (env_answering (quote_ok meta_chart_close))
                 initial 0 [AAPL; MSFT; NVDA]
                 [priced AAPL 110 10; priced MSFT 110 10; priced NVDA 110 10])
    by (repeat split; vm_compute; reflexivity).
  split; [exact H1|]. split; [exact H2|].
  destruct (unthrottled_run_fetches_everything sample_config
              (env_answering (quote_ok meta_chart_close)) [AAPL; MSFT; NVDA]
              with_callback initial
              [priced AAPL 110 10; priced MSFT 110 10; priced NVDA 110 10]
              H1 H2 eq_refl) as (Hout & _ & Hsch & Hcb & _).
  split; [exact Hout|]. split; [exact Hsch | exact Hcb].
Defined.

(** ** A chunk with a flagged quote, in a whole run *)

(** C1, amended: when one of a chunk's quotes carries the rate-limited flag
    (and none of the earlier chunks' quotes did), [fetchMultipleStocks] stops
    at that chunk without appending its results: it returns exactly the quotes
    of all the chunks before it whose price is not [null]; it has requested
    the symbols of the chunks before and of that chunk, with a pause before
    each chunk but the first, and nothing of a later chunk; and [onBatch] was
    invoked once per earlier chunk, not for that chunk.  The quotes are those
    lone calls of [fetchStockQuote] return, in a state where no clock reading
    falls before the stored expiry. *)
Theorem flagged_chunk_is_dropped
    cfg env symbols options w before batch after results batchResults :
  chunkArray cfg symbols (default 2 (batchSize options)) = before ++ batch :: after ->
  stays_clear env w ->
  lone_quotes cfg env w (requestsSent w) (concat before) results ->
  existsb flagged results = false ->
  lone_quotes cfg env w (requestsSent w + length (concat before)) batch batchResults ->
  existsb flagged batchResults = true ->
  outcome_of (fetchMultipleStocks cfg env symbols options) w
    = Returned (filter (fun q => MarketData.price q <> Null) results) /\
  requestsOf (events_of (fetchMultipleStocks cfg env symbols options) w)
    = map (url_of cfg) (concat before ++ batch) /\
  scheduleOf (events_of (fetchMultipleStocks cfg env symbols options) w)
    = paced (map (map (url_of cfg)) (before ++ [batch])) /\
  onBatchCalls (events_of (fetchMultipleStocks cfg env symbols options) w)
    = (if onBatch options then reports before results else []).
Proof.
  intros Hchunks Hclear Hq Hnone Hb Hflag.
  set (w0 := world_after (Date_now env) w).
  assert (Hclear0 : stays_clear env w0)
    by (apply (stays_clear_later env w); [exact Hclear | reflexivity | simpl; lia]).
  assert (Hq0 : lone_quotes cfg env w0 (requestsSent w0) (concat before) results).
  { apply (lone_quotes_transport cfg env w w0);
      [by apply stays_clear_now | by apply stays_clear_now | exact Hq]. }
  destruct (fetchBatches_through cfg env options (default 3000%float (delayMs options))
              (length (before ++ batch :: after)) before 0%nat [] w0 results
              (batch :: after) Hclear0 Hq0 Hnone
              ltac:(rewrite length_app; simpl; lia))
    as (w1 & ev1 & Hclear1 & _ & Hs1 & Hreq & Hsch & Hcb & Hnext).
  change (requestsSent w0) with (requestsSent w) in Hs1.
  rewrite reports_from_nothing in Hcb.
  set (w2 := world_after (Date_now env) w1).
  assert (Hclear2 : stays_clear env w2)
    by (apply (stays_clear_later env w1); [exact Hclear1 | reflexivity | simpl; lia]).
  destruct (chunk_run cfg env batch w2 Hclear2)
    as (rs & w3 & evc & Hchunk & Hrs & _ & _ & _ & Hreqc & Hcbc & Hschc).
  change (requestsSent w2) with (requestsSent w1) in Hrs. rewrite Hs1 in Hrs.
  pose proof (lone_quotes_unique cfg env w batch _ _ _
                (Hrs w (stays_clear_now env w Hclear)) Hb) as ->.
  destruct (run_parts _ _ _ _ _ Hchunk) as (Hout & Hw3 & Hev).
  pose proof (fetchBatches_flagged cfg env options (default 3000%float (delayMs options))
                (length (before ++ batch :: after)) (0 + length before) batch after
                ([] ++ results) w1 batchResults (stays_clear_now env w1 Hclear1) Hout Hflag)
    as Hstop.
  fold w2 in Hstop. rewrite Hw3, Hev in Hstop.
  specialize (Hnext _ _ _ Hstop).
  assert (Hrun : fetchMultipleStocks cfg env symbols options w =
    (outcome_of (finish results) w3, world_after (finish results) w3,
     (ev1 ++ evc ++ [Console LogRateLimitHit]) ++ events_of (finish results) w3)).
  { rewrite (fetchMultipleStocks_clear cfg env symbols options w
               (stays_clear_now env w Hclear)).
    unfold fetchAllBatches. rewrite Hchunks.
    eapply bind_run; [exact Hnext | apply run_eta]. }
  destruct (run_parts _ _ _ _ _ Hrun) as (-> & _ & ->).
  destruct (finish_run results w3) as (-> & -> & _).
  rewrite app_nil_r, filter_visible.
  rewrite !requestsOf_app, !scheduleOf_app, !onBatchCalls_app.
  rewrite Hreq, Hsch, Hcb, Hreqc, Hschc, Hcbc.
  change (requestsOf [Console LogRateLimitHit]) with (@nil string).
  change (scheduleOf [Console LogRateLimitHit]) with (@nil (option string)).
  change (onBatchCalls [Console LogRateLimitHit]) with (@nil (list MarketData.t)).
  rewrite !app_nil_r.
  split; [reflexivity|]. split; [by rewrite map_app|].
  split; [|reflexivity].
  rewrite map_app.
  change (map (map (url_of cfg)) [batch]) with [map (url_of cfg) batch].
  by rewrite paced_snoc.
Qed.

Lemma flagged_chunk_is_dropped_witness :
  chunkArray sample_config [AAPL; MSFT; NVDA; AMZN; META] 2
    = [[AAPL; MSFT]] ++ [NVDA; AMZN] :: [[META]] /\
  stays_clear sample_env initial /\
  lone_quotes sample_config sample_env initial 0 [AAPL; MSFT]
    [priced AAPL 110 10; priced MSFT 50 0] /\
  lone_quotes sample_config sample_env initial 2 [NVDA; AMZN]
    [limited_quote NVDA; priced AMZN 6 50] /\
  outcome_of
    (fetchMultipleStocks sample_config sample_env [AAPL; MSFT; NVDA; AMZN; META]
       with_callback) initial
    = Returned [priced AAPL 110 10; priced MSFT 50 0] /\
  requestsOf
    (events_of
       (fetchMultipleStocks sample_config sample_env [AAPL; MSFT; NVDA; AMZN; META]
          with_callback) initial)
    = [yahooFinance sample_config "AAPL"; yahooFinance sample_config "MSFT";
       yahooFinance sample_config "NVDA"; yahooFinance sample_config "AMZN"] /\
  onBatchCalls
    (events_of
       (fetchMultipleStocks sample_config sample_env [AAPL; MSFT; NVDA; AMZN; META]
          with_callback) initial)
    = [[priced AAPL 110 10; priced MSFT 50 0]].
Proof.
  assert (H0 : chunkArray sample_config [AAPL; MSFT; NVDA; AMZN; META]
                 (default 2 (batchSize with_callback))
               = [[AAPL; MSFT]] ++ [NVDA; AMZN] :: [[META]]) by (vm_compute; reflexivity).
  assert (H1 : stays_clear sample_env initial) by (intros n _; simpl; lia).
  assert (H2 : lone_quotes sample_config sample_env initial (requestsSent initial)
                 (concat [[AAPL; MSFT]]) [priced AAPL 110 10; priced MSFT 50 0])
    by (repeat split; vm_compute; reflexivity).
  assert (H3 : lone_quotes sample_config sample_env initial
                 (requestsSent initial + length (concat [[AAPL; MSFT]])) [NVDA; AMZN]
                 [limited_quote NVDA; priced AMZN 6 50])
    by (repeat split; vm_compute; reflexivity).
  split; [exact H0|]. split; [exact H1|]. split; [exact H2|]. split; [exact H3|].
  destruct (flagged_chunk_is_dropped sample_config sample_env
              [AAPL; MSFT; NVDA; AMZN; META] with_callback initial
              [[AAPL; MSFT]] [NVDA; AMZN] [[META]]
              [priced AAPL 110 10; priced MSFT 50 0]
              [limited_quote NVDA; priced AMZN 6 50]
              H0 H1 H2 eq_refl H3 eq_refl) as (Hout & Hreq & _ & Hcb).
  split; [exact Hout|]. split; [exact Hreq | exact Hcb].
Defined.

(** ** Requests and pauses of any run *)

Lemma fetchBatches_schedule cfg env options delayMs len batches :
  forall index results w,
    (index + length batches = len)%nat ->
    exists segs,
      (length segs <= length batches)%nat /\
      (batches <> [] -> segs <> []) /\
      Forall2 sublist segs (take (length segs) (map (map (url_of cfg)) batches)) /\
      scheduleOf
        (events_of (fetchBatches cfg env options delayMs len index batches results) w)
      = paced segs.
Proof.
  induction batches as [|batch rest IH]; intros index results w Hlen.
  - exists []. split; [simpl; lia|]. split; [done|]. split; [constructor | reflexivity].
  - rewrite fetchBatches_cons, events_bind, scheduleOf_app.
    rewrite (scheduleOf_none _ (console_unscheduled _ (console_isRateLimited env w))).
    rewrite app_nil_l.
    destruct (isRateLimited_returns env w) as (limited & Hlimited & _).
    rewrite Hlimited. set (w1 := world_after (isRateLimited env) w).
    destruct limited.
    { exists [[]]. split; [simpl; lia|]. split; [done|].
      split; [repeat constructor; apply sublist_nil_l | reflexivity]. }
    rewrite events_bind, scheduleOf_app.
    rewrite (scheduleOf_requests _ (calm_Promise_all_quotes cfg env batch w1)).
    pose proof (requests_Promise_all_quotes cfg env batch w1) as Hsub.
    set (seg := requestsOf (events_of (Promise_all_quotes cfg env batch) w1)) in *.
    destruct (Promise_all_quotes_total cfg env batch w1) as (rs & Hrs & _).
    rewrite Hrs. set (w2 := world_after (Promise_all_quotes cfg env batch) w1).
    destruct (existsb flagged rs).
    { exists [seg]. split; [simpl; lia|]. split; [done|].
      split; [by repeat constructor|]. simpl. reflexivity. }
    rewrite events_bind, scheduleOf_app.
    destruct (run_parts _ _ _ _ _
                (call_onBatch_run options (List.filter visible (results ++ rs)) w2))
      as (-> & -> & ->).
    assert (Hcb : scheduleOf (if onBatch options
                              then [OnBatch (List.filter visible (results ++ rs))]
                              else []) = []) by (by destruct (onBatch options)).
    rewrite Hcb, app_nil_l, events_bind, scheduleOf_app.
    destruct (pause_keeps env delayMs (Z.of_nat index <? Z.of_nat len - 1) w2)
      as (w3 & Hpause & _).
    destruct (run_parts _ _ _ _ _ Hpause) as (-> & -> & ->).
    destruct (IH (S index) (results ++ rs) w3 ltac:(simpl in Hlen; lia))
      as (segs & Hmost & Hsome & Hsegs & ->).
    destruct rest as [|b rest].
    + assert (Hgo : (Z.of_nat index <? Z.of_nat len - 1) = false)
        by (apply Z.ltb_ge; simpl in Hlen; lia).
      rewrite Hgo. destruct segs; [|simpl in Hmost; lia].
      exists [seg]. split; [simpl; lia|]. split; [done|].
      split; [by repeat constructor|]. simpl. reflexivity.
    + assert (Hgo : (Z.of_nat index <? Z.of_nat len - 1) = true)
        by (apply Z.ltb_lt; simpl in Hlen; lia).
      rewrite Hgo. exists (seg :: segs). split; [simpl in *; lia|]. split; [done|].
      split; [by constructor|]. rewrite paced_cons; [reflexivity | by apply Hsome].
Qed.

(** X10: in every run of [fetchMultipleStocks] the requests and the pauses
    come chunk by chunk: requests for symbols of the first chunk, a pause,
    requests for symbols of the second, a pause, and so on, ending with the
    requests of the last chunk reached; no pause follows them, so that the run
    pauses fewer times than it has chunks.  Every pause lasts the configured
    delay (3000 ms by default) plus a thousand times a draw of
    [Math.random()].  A run that starts under cooldown neither requests nor
    pauses. *)
Theorem pauses_between_chunks_only cfg env symbols options w :
  (exists segs,
     (length segs <= length (chunkArray cfg symbols (default 2%Z (batchSize options))))%nat /\
     Forall2 sublist segs
       (take (length segs)
          (map (map (url_of cfg)) (chunkArray cfg symbols (default 2 (batchSize options))))) /\
     scheduleOf (events_of (fetchMultipleStocks cfg env symbols options) w) = paced segs) /\
  (length (delaysOf (events_of (fetchMultipleStocks cfg env symbols options) w))
   <= length (chunkArray cfg symbols (default 2%Z (batchSize options))) - 1)%nat /\
  Forall (fun ms => exists n,
            ms = (default 3000 (delayMs options) + MathRandom env n * 1000)%float)
    (delaysOf (events_of (fetchMultipleStocks cfg env symbols options) w)) /\
  (DateNow env (clockReads w) < rateLimitedUntil w ->
   scheduleOf (events_of (fetchMultipleStocks cfg env symbols options) w) = []).
Proof.
  assert (Hlimited : DateNow env (clockReads w) < rateLimitedUntil w ->
    scheduleOf (events_of (fetchMultipleStocks cfg env symbols options) w) = []).
  { intros Hlim.
    destruct (run_parts _ _ _ _ _ (fetchMultipleStocks_limited cfg env symbols options w Hlim))
      as (_ & _ & ->).
    destruct (lastSuccessfulResults w); [reflexivity|]. by destruct (onBatch options). }
  split; [|split; [|split; [|exact Hlimited]]].
  - destruct (Z.lt_ge_cases (DateNow env (clockReads w)) (rateLimitedUntil w))
      as [Hlim | Hclear].
    + exists []. split; [simpl; lia|]. split; [constructor | by apply Hlimited].
    + destruct (fetchBatches_schedule cfg env options (default 3000%float (delayMs options))
        (length (chunkArray cfg symbols (default 2 (batchSize options))))
        (chunkArray cfg symbols (default 2 (batchSize options))) 0%nat []
        (world_after (Date_now env) w) eq_refl) as (segs & Hmost & _ & Hsegs & Hsch).
      exists segs. split; [exact Hmost|]. split; [exact Hsegs|].
      unfold events_of at 1.
      rewrite (fetchMultipleStocks_clear cfg env symbols options w Hclear).
      fold (events_of (bind (fetchAllBatches cfg env symbols options) finish)
              (world_after (Date_now env) w)).
      rewrite events_bind, scheduleOf_app. unfold fetchAllBatches at 1. rewrite Hsch.
      destruct (outcome_of _ _) as [results|e]; [|by rewrite app_nil_r].
      rewrite (proj1 (proj2 (finish_run results _))). by rewrite app_nil_r.
  - exact (proj1 (fetchMultipleStocks_pauses cfg env symbols options w)).
  - pose proof (proj2 (fetchMultipleStocks_pauses cfg env symbols options w)) as Hshape.
    clear Hlimited. induction Hshape as [|e evs He _ IH]; [constructor|].
    destruct e; try exact IH. by constructor.
Qed.

Lemma pauses_between_chunks_only_witness :
  scheduleOf
    (events_of
       (fetchMultipleStocks sample_config sample_env [AAPL; MSFT; NVDA; AMZN; META]
          with_callback) initial)
    = [Some (yahooFinance sample_config "AAPL"); Some (yahooFinance sample_config "MSFT");
       None;
       Some (yahooFinance sample_config "NVDA"); Some (yahooFinance sample_config "AMZN")] /\
  (length (delaysOf
     (events_of
        (fetchMultipleStocks sample_config sample_env [AAPL; MSFT; NVDA; AMZN; META]
           with_callback) initial)) <= 2)%nat.
Proof.
  split; [vm_compute; reflexivity|].
  exact (proj1 (proj2 (pauses_between_chunks_only sample_config sample_env
                         [AAPL; MSFT; NVDA; AMZN; META] with_callback initial))).
Defined.
